(** * Engagement and event-ingestion orchestration: a shallow embedding

    The development follows the TypeScript sources of the agent:

    - [TokenProcessing]  : packages/plugin-supabase/src/clients/tokenProcessingClient.ts
    - [Realtime]         : packages/plugin-supabase/src/clients/realtimeClient.ts
    - [JSString]         : the string methods the clients call
    - [Interaction]      : packages/client-twitter/src/index.ts (interaction client)
    - [Post]             : packages/client-twitter/src/post.ts
    - [TokenRuns]        : runs of the token handler
    - [Wrapper]          : realtimeClient.ts (the wrapper) and
                           packages/plugin-supabase/src/providers/tokenProvider.ts
    - [PostMore]         : post.ts (content, actions)
    - [PostLoops]        : post.ts (the two timer loops, split at the await)
    - [RealtimeRuns]     : runs of the realtime client
    - [Search]           : packages/client-twitter/src/search.ts
    - [ImageGeneration]  : packages/plugin-image-generation/src/index.ts
    - [InteractionLoop]  : index.ts (the interaction check)

    Asynchronous functions are split at their [await] points; collaborators
    outside the repository (the agent runtime, the language model, the wire
    client, the clock, the random source) are inputs of the definitions.
    [stringToUuid] is left out: an id is the string it would be applied to. *)

From Stdlib Require Import ZArith QArith Qround String Ascii List Lia.
From Stdlib Require Import Sorted.
From stdpp Require Import base option list gmap strings.
From Equations Require Import Equations.

Local Open Scope string_scope.
Local Open Scope list_scope.
Set Warnings "-register-all".

(** ** Values shared by the clients *)

(** What an awaited call to a collaborator does: it resolves with a value or
    rejects with an error; [message] is [error?.message]. *)
Inductive Outcome (A : Type) : Type :=
| Resolved (a : A)
| Rejected (message : option string).
Arguments Resolved {A} a.
Arguments Rejected {A} message.

#[global] Instance outcome_ret : MRet Outcome := fun _ a => Resolved a.

#[global] Instance outcome_bind : MBind Outcome := fun _ _ k o =>
  match o with
  | Resolved a => k a
  | Rejected m => Rejected m
  end.

(** JavaScript truthiness of a string: only the empty string is falsy. *)
Definition truthy (s : string) : bool :=
  match s with
  | EmptyString => false
  | String _ _ => true
  end.

(** [o && truthy o] for an optional string property. *)
Definition truthy_opt (o : option string) : bool :=
  match o with
  | Some s => truthy s
  | None => false
  end.

(** [error?.message || 'Unknown error'] *)
Definition messageOr (m : option string) : string :=
  match m with
  | Some s => if truthy s then s else "Unknown error"
  | None => "Unknown error"
  end.

(** ** tokenProcessingClient.ts *)
Module TokenProcessing.

(** [TokenUpdate] of types.ts. [token_id] is not a declared field: the
    handler reads it through the record's index signature, so it may be
    absent. *)
Record TokenRecord : Type := {
  rec_id : string;
  processing_stage : string;
  token_id : option string
}.

Record TokenUpdate : Type := {
  record : option TokenRecord;
  timestamp : string
}.

(** The events the client emits. *)
Inductive Emitted : Type :=
| processingComplete (tokenId memoryId : string)
| processingError (tokenId error : string).

(** The parsed analysis, as far as the handler looks at it: the summary and
    the truthiness of the three other required fields. *)
Record Analysis : Type := {
  summary : string;
  metrics : bool;
  insights : bool;
  patterns : bool
}.

(** One run of the collaborators the handler body awaits, in program order. *)
Record Script : Type := {
  ensureRoomExists : Outcome unit;
  ensureParticipantInRoom : Outcome unit;
  composeState : Outcome unit;
  generateText : Outcome string;
  JSON_parse : string -> Outcome Analysis;
  createMemory : Outcome unit
}.

(** The client object: the in-flight set and the events emitted so far. *)
Record Client : Type := {
  processingTokens : gset string;
  emitted : list Emitted
}.

Definition emit (e : Emitted) (c : Client) : Client :=
  {| processingTokens := processingTokens c; emitted := (emitted c ++ [e])%list |}.

(** [update?.record?.token_id], with [None] when the guard
    [!update?.record?.token_id] rejects the update. *)
Definition tokenIdOf (update : option TokenUpdate) : option string :=
  match update with
  | Some u =>
      match record u with
      | Some r =>
          match token_id r with
          | Some t => if truthy t then Some t else None
          | None => None
          end
      | None => None
      end
  | None => None
  end.

(** Lines 76-93: the synchronous prefix of [processTokenUpdate], up to the
    first [await]. The second component is the key whose handler body has
    been admitted and is now suspended, if any. *)
Definition processTokenUpdate_enter (update : option TokenUpdate) (c : Client)
  : Client * option string :=
  match tokenIdOf update with
  | None => (c, None)
  | Some tokenId =>
      if decide (tokenId ∈ processingTokens c) then (c, None)
      else ({| processingTokens := {[tokenId]} ∪ processingTokens c;
               emitted := emitted c |}, Some tokenId)
  end.

(** Lines 137-151: parse and validate the model's answer; every failure is
    rethrown as "Failed to parse LLM response: ...". *)
Definition parseAnalysis (sc : Script) (analysisResponse : string) : Outcome Analysis :=
  let inner :=
    analysis ← JSON_parse sc analysisResponse;
    if negb (truthy (summary analysis)) || negb (metrics analysis)
       || negb (insights analysis) || negb (patterns analysis)
    then Rejected (Some "Invalid analysis format: missing required fields")
    else Resolved analysis in
  match inner with
  | Resolved a => Resolved a
  | Rejected m => Rejected (Some ("Failed to parse LLM response: " +:+ messageOr m))
  end.

(** Lines 95-190: the [try] block; it resolves with the memory id. *)
Definition tryBlock (sc : Script) (tokenId : string) : Outcome string :=
  _ ← ensureRoomExists sc;
  _ ← ensureParticipantInRoom sc;
  _ ← composeState sc;
  analysisResponse ← generateText sc;
  analysis ← parseAnalysis sc analysisResponse;
  let memoryId := "token-" +:+ tokenId +:+ "-analysis" in
  _ ← match createMemory sc with
      | Resolved u => Resolved u
      | Rejected m =>
          Rejected (Some ("Failed to create memory entry: " +:+ messageOr m))
      end;
  Resolved memoryId.

(** Lines 95-207: the rest of the handler once its awaits settle: the [try]
    block, the [catch] that turns a failure into an event, and the
    [finally] that releases the key. *)
Definition processTokenUpdate_resume (sc : Script) (tokenId : string) (c : Client)
  : Client :=
  let c1 :=
    match tryBlock sc tokenId with
    | Resolved memoryId => emit (processingComplete tokenId memoryId) c
    | Rejected m => emit (processingError tokenId (messageOr m)) c
    end in
  {| processingTokens := processingTokens c1 ∖ {[tokenId]};
     emitted := emitted c1 |}.

(** The client together with the handler bodies suspended at an [await],
    each named by its key. *)
Record Sys : Type := {
  client : Client;
  suspended : list string
}.

Definition init : Sys :=
  {| client := {| processingTokens := ∅; emitted := [] |}; suspended := [] |}.

(** A delivery runs the synchronous prefix. *)
Definition deliver (update : option TokenUpdate) (s : Sys) : Sys :=
  match processTokenUpdate_enter update (client s) with
  | (c, Some k) => {| client := c; suspended := (suspended s ++ [k])%list |}
  | (c, None) => {| client := c; suspended := suspended s |}
  end.

(** The [i]-th suspended body runs to its end. *)
Definition settle (i : nat) (sc : Script) (s : Sys) : Sys :=
  match suspended s !! i with
  | Some k => {| client := processTokenUpdate_resume sc k (client s);
                 suspended := delete i (suspended s) |}
  | None => s
  end.

(** The event loop: deliveries and completions interleave freely. *)
Inductive step : Sys -> Sys -> Prop :=
| step_deliver update s : step s (deliver update s)
| step_settle i sc s : is_Some (suspended s !! i) -> step s (settle i sc s).

Definition reachable (s : Sys) : Prop := rtc step init s.

(** The in-flight set is exactly the set of suspended bodies, and no key
    has two of them. *)
Definition guard_inv (s : Sys) : Prop :=
  NoDup (suspended s) /\
  forall k, k ∈ processingTokens (client s) <-> k ∈ suspended s.

(** Sample inputs: a completed-update delivery for token "tok-42", a run in
    which every collaborator succeeds, and one in which the model call
    rejects. *)
Definition update_tok : option TokenUpdate :=
  Some {| record := Some {| rec_id := "42"; processing_stage := "completed";
                            token_id := Some "tok-42" |};
          timestamp := "2024-11-20T10:00:00Z" |}.

Definition script_ok : Script :=
  {| ensureRoomExists := Resolved ();
     ensureParticipantInRoom := Resolved ();
     composeState := Resolved ();
     generateText := Resolved "{...}";
     JSON_parse := fun _ => Resolved {| summary := "fine"; metrics := true;
                                        insights := true; patterns := true |};
     createMemory := Resolved () |}.

Definition script_model_fails : Script :=
  {| ensureRoomExists := Resolved ();
     ensureParticipantInRoom := Resolved ();
     composeState := Resolved ();
     generateText := Rejected (Some "rate limited");
     JSON_parse := fun _ => Rejected None;
     createMemory := Resolved () |}.

End TokenProcessing.

(** ** realtimeClient.ts *)
Module Realtime.

(** A value produced by [JSON.parse], or [undefined] for an absent property. *)
Inductive JSValue : Type :=
| JUndefined
| JNull
| JBool (b : bool)
| JNum (q : Q)
| JStr (s : string)
| JArr (items : list JSValue)
| JObj (props : list (string * JSValue)).

Definition nullish (v : JSValue) : bool :=
  match v with
  | JUndefined | JNull => true
  | _ => false
  end.

(** [!!v] *)
Definition js_truthy (v : JSValue) : bool :=
  match v with
  | JUndefined | JNull => false
  | JBool b => b
  | JNum q => negb (Qeq_bool q 0)
  | JStr s => truthy s
  | JArr _ | JObj _ => true
  end.

Fixpoint lookupProp (props : list (string * JSValue)) (k : string) : JSValue :=
  match props with
  | [] => JUndefined
  | (k', v) :: rest => if String.eqb k' k then v else lookupProp rest k
  end.

(** [v.k]: a TypeError on [null] and [undefined]; the handler only reads
    names that no string, number, boolean or array carries, so there the
    read gives [undefined]. *)
Definition getProp (v : JSValue) (k : string) : Outcome JSValue :=
  match v with
  | JUndefined | JNull =>
      Rejected (Some ("Cannot read properties of undefined (reading '" +:+ k +:+ "')"))
  | JObj props => Resolved (lookupProp props k)
  | _ => Resolved JUndefined
  end.

(** [v?.k] *)
Definition optChain (v : JSValue) (k : string) : Outcome JSValue :=
  if nullish v then Resolved JUndefined else getProp v k.

(** [v === 'lit'] *)
Definition strictEqStr (v : JSValue) (lit : string) : bool :=
  match v with
  | JStr s => String.eqb s lit
  | _ => false
  end.

(** The [TokenUpdate] built at lines 90-94. *)
Record TokenUpdate : Type := {
  record : JSValue;
  oldRecord : JSValue;
  timestamp : JSValue
}.

(** Lines 72-104: the body of the [try] in [ws.onmessage], after
    [JSON.parse]; it resolves with the [tokenUpdate] events it emitted. *)
Definition onmessage_try (data : JSValue) : Outcome (list TokenUpdate) :=
  ev ← getProp data "event";
  if strictEqStr ev "postgres_changes" then
    payload ← getProp data "payload";
    change ← optChain payload "data";
    if negb (js_truthy change) then Resolved []
    else
      type ← getProp change "type";
      _ ← getProp change "table";
      _ ← getProp change "schema";
      rec ← getProp change "record";
      stage ← optChain rec "processing_stage";
      if strictEqStr type "UPDATE" && strictEqStr stage "completed" then
        old_record ← getProp change "old_record";
        commit_timestamp ← getProp change "commit_timestamp";
        _ ← getProp rec "id";
        Resolved [ {| record := rec; oldRecord := old_record;
                      timestamp := commit_timestamp |} ]
      else Resolved []
  else Resolved [].

(** Lines 69-111: [ws.onmessage]. [parsed] is what [JSON.parse] made of the
    frame; the [catch] logs every failure and emits nothing. *)
Definition onmessage (parsed : Outcome JSValue) : list TokenUpdate :=
  match parsed ≫= onmessage_try with
  | Resolved evs => evs
  | Rejected _ => []
  end.

(** The change notification inside an envelope, [data.payload?.data], and
    the two properties the filter looks at. *)
Definition changeOf (data : JSValue) : JSValue :=
  match getProp data "payload" ≫= (fun p => optChain p "data") with
  | Resolved c => c
  | Rejected _ => JUndefined
  end.

Definition orUndefined (o : Outcome JSValue) : JSValue :=
  match o with
  | Resolved v => v
  | Rejected _ => JUndefined
  end.

Definition changeType (data : JSValue) : JSValue :=
  orUndefined (optChain (changeOf data) "type").

Definition changeStage (data : JSValue) : JSValue :=
  orUndefined (optChain (changeOf data) "record" ≫= (fun r => optChain r "processing_stage")).

(** *** The connection *)

Inductive ReadyState : Type := CONNECTING | OPEN | CLOSING | CLOSED.

(** What the client writes to the socket. *)
Inductive Frame : Type :=
| heartbeat                              (* {type: 'heartbeat'} *)
| phx_join (topic : string) (ref : Z).   (* the subscription request *)

(** The fields of [TokenUpdateClient]. A timer field holds the period or
    delay its timer was created with; [sent] is the socket's outbound log. *)
Record Client : Type := {
  ws : option ReadyState;
  heartbeatInterval : option Z;
  reconnectTimeout : option Z;
  isConnected : bool;
  sent : list Frame
}.

Definition send (f : Frame) (c : Client) : Client :=
  {| ws := ws c; heartbeatInterval := heartbeatInterval c;
     reconnectTimeout := reconnectTimeout c; isConnected := isConnected c;
     sent := (sent c ++ [f])%list |}.

(** Lines 21-31: any previous interval is cleared, a new one of 30000 ms is
    armed. *)
Definition setupHeartbeat (c : Client) : Client :=
  {| ws := ws c; heartbeatInterval := Some 30000%Z;
     reconnectTimeout := reconnectTimeout c; isConnected := isConnected c;
     sent := sent c |}.


Definition clearHeartbeat (c : Client) : Client :=
  {| ws := ws c; heartbeatInterval := None;
     reconnectTimeout := reconnectTimeout c; isConnected := isConnected c;
     sent := sent c |}.

Definition clearReconnectTimeout (c : Client) : Client :=
  {| ws := ws c; heartbeatInterval := heartbeatInterval c;
     reconnectTimeout := None; isConnected := isConnected c;
     sent := sent c |}.

(** Lines 129-157. [now] is [Date.now()]. *)
Definition subscribeToUpdates (wsSend : Outcome unit) (now : Z) (c : Client) : Client :=
  match ws c with
  | Some OPEN =>
      match wsSend with
      | Resolved _ => send (phx_join "realtime:public:new_tokens" now) c
      | Rejected _ => c
      end
  | _ => c
  end.

(** Lines 47-59: [connect] creates a socket unless already connected. *)
Definition connect (c : Client) : Client :=
  if isConnected c then c
  else {| ws := Some CONNECTING; heartbeatInterval := heartbeatInterval c;
          reconnectTimeout := reconnectTimeout c; isConnected := false;
          sent := sent c |}.

(** Lines 61-67: [ws.onopen]; the socket is OPEN when the event fires. *)
Definition onopen (wsSend : Outcome unit) (now : Z) (c : Client) : Client :=
  let c1 := {| ws := Some OPEN; heartbeatInterval := heartbeatInterval c;
               reconnectTimeout := reconnectTimeout c; isConnected := true;
               sent := sent c |} in
  subscribeToUpdates wsSend now (setupHeartbeat c1).

(** Lines 113-122: [ws.onclose]. *)
Definition onclose (c : Client) : Client :=
  let c1 := clearHeartbeat
              {| ws := Some CLOSED; heartbeatInterval := heartbeatInterval c;
                 reconnectTimeout := reconnectTimeout c; isConnected := false;
                 sent := sent c |} in
  let reconnectDelay := 5000%Z in
  {| ws := ws c1; heartbeatInterval := heartbeatInterval c1;
     reconnectTimeout := Some reconnectDelay; isConnected := isConnected c1;
     sent := sent c1 |}.


(** Lines 159-168. *)
Definition disconnect (c : Client) : Client :=
  let c1 := clearReconnectTimeout (clearHeartbeat c) in
  {| ws := None; heartbeatInterval := heartbeatInterval c1;
     reconnectTimeout := reconnectTimeout c1; isConnected := false;
     sent := sent c1 |}.


(** Sample envelopes: an UPDATE whose record reached "completed", and the
    same change at stage "analyzing". *)
Definition envelope (type stage : string) : JSValue :=
  JObj [("event", JStr "postgres_changes");
        ("payload",
         JObj [("data",
                JObj [("type", JStr type);
                      ("table", JStr "new_tokens");
                      ("schema", JStr "public");
                      ("record", JObj [("id", JStr "42");
                                       ("processing_stage", JStr stage)]);
                      ("old_record", JObj [("id", JStr "42");
                                           ("processing_stage", JStr "analyzing")]);
                      ("commit_timestamp", JStr "2024-11-20T10:00:00Z")])])].


(** What can happen to the client: a call of one of its two methods, one of
    the four events of its socket, or a tick of the heartbeat interval. *)
Inductive Event : Type :=
| Connect
| Disconnect
| Open (wsSend : Outcome unit) (now : Z)
| Message (parsed : Outcome JSValue)
| Close
| Error
| Tick (wsSend : Outcome unit).


End Realtime.

(** ** Strings as JavaScript sees them

    A [string] is read as a sequence of code units below 256. *)
Module JSString.

(** [s.includes(pat)] *)
Fixpoint includes (s pat : string) : bool :=
  String.prefix pat s ||
  match s with
  | EmptyString => false
  | String _ rest => includes rest pat
  end.

Definition lowerChar (a : ascii) : ascii :=
  let n := nat_of_ascii a in
  if (((65 <=? n) && (n <=? 90)) || ((192 <=? n) && (n <=? 222) && negb (n =? 215)))%nat
  then ascii_of_nat (n + 32) else a.

(** [s.toLowerCase()] *)
Fixpoint toLowerCase (s : string) : string :=
  match s with
  | EmptyString => EmptyString
  | String a rest => String (lowerChar a) (toLowerCase rest)
  end.

(** White space and line terminators, as [trim] strips them. *)
Definition isSpace (a : ascii) : bool :=
  let n := nat_of_ascii a in
  (((9 <=? n) && (n <=? 13)) || (n =? 32) || (n =? 160))%nat.

Fixpoint trimStart (s : string) : string :=
  match s with
  | EmptyString => EmptyString
  | String a rest => if isSpace a then trimStart rest else s
  end.

(** [trimEnd] keeps a character when it is not a space or when something
    is kept after it. *)
Fixpoint trimEnd (s : string) : string :=
  match s with
  | EmptyString => EmptyString
  | String a rest =>
      match trimEnd rest with
      | EmptyString => if isSpace a then EmptyString else String a EmptyString
      | kept => String a kept
      end
  end.

(** [s.trim()] *)
Definition trim (s : string) : string := trimEnd (trimStart s).

(** [s.slice(b, e)]: negative indices count from the end, both are clamped
    to the string. *)
Definition slice (s : string) (b e : Z) : string :=
  let len := Z.of_nat (String.length s) in
  let clamp i := if (i <? 0)%Z then Z.max (len + i) 0 else Z.min i len in
  let from := clamp b in
  let to := clamp e in
  substring (Z.to_nat from) (Z.to_nat (to - from)) s.

(** The search of [lastIndexOf], from index [i] down to 0. *)
Fixpoint lastIndexFrom (s pat : string) (i : nat) : Z :=
  if String.prefix pat (substring i (String.length s - i) s) then Z.of_nat i
  else match i with
       | O => (-1)%Z
       | S j => lastIndexFrom s pat j
       end.

(** [s.lastIndexOf(pat, fromIndex)]: the last occurrence that starts at or
    before [fromIndex], or -1. *)
Definition lastIndexOf (s pat : string) (fromIndex : Z) : Z :=
  let len := Z.of_nat (String.length s) in
  let plen := Z.of_nat (String.length pat) in
  if (len <? plen)%Z then (-1)%Z
  else lastIndexFrom s pat (Z.to_nat (Z.min (Z.max fromIndex 0) (len - plen))).

(** ["x".repeat(n)] *)
Fixpoint repeat (a : ascii) (n : nat) : string :=
  match n with
  | O => EmptyString
  | S m => String a (repeat a m)
  end.

End JSString.

(** ** index.ts: the interaction client *)
Module Interaction.

(** The fields of a [Tweet] the interaction client reads. *)
Record Tweet : Type := {
  id : string;
  username : string;
  text : string;
  userId : string;
  conversationId : option string;
  inReplyToStatusId : option string
}.

(** [a === b] where [a] is a string and [b] may be [undefined]. *)
Definition strictEq (a : string) (b : option string) : bool :=
  match b with
  | Some s => String.eqb a s
  | None => false
  end.

(** *** handleTweet: the decision to respond *)

(** The collaborators [handleTweet] consults before it decides. *)
Inductive Call : Type :=
| fetchHomeTimeline
| composeState
| getMemoryById (key : string)
| saveRequestMessage (key : string)
| generateShouldRespond.

(** How the decision part of [handleTweet] (lines 248-390) ends. *)
Inductive Decision : Type :=
| Skipped                                   (* line 268: return; *)
| Returned (text : string) (action : option string)
                                            (* lines 278, 388: return {text, action} *)
| Proceeds.                                 (* line 392: goes on to generate the reply *)

(** What the surroundings answer during one call; the calls themselves
    are taken to resolve. *)
Record Env : Type := {
  TWITTER_USERNAME : string;
  agentId : string;
  homeTimelineCached : bool;                (* fs.existsSync("tweetcache/home_timeline.json") *)
  tweetExists : bool;                       (* getMemoryById(tweetId) is truthy *)
  shouldRespond : option string             (* the answer of generateShouldRespond *)
}.

(** Lines 258-261. *)
Definition isInBotThread (env : Env) (tweet : Tweet) (thread : list Tweet) : bool :=
  existsb (fun t =>
             String.eqb (username t) (TWITTER_USERNAME env) &&
             (strictEq (id t) (inReplyToStatusId tweet) ||
              strictEq (id t) (conversationId tweet)))
          thread.

(** Lines 264-266. *)
Definition isStandalone (env : Env) (tweet : Tweet) (thread : list Tweet) : bool :=
  String.eqb (username tweet) (TWITTER_USERNAME env) &&
  negb (truthy_opt (inReplyToStatusId tweet)) &&
  (length thread =? 1)%nat.

(** Lines 248-390 of [handleTweet]; [messageText] is [message.content.text].
    The result carries the calls made to collaborators, in order. *)
Definition handleTweet (env : Env) (tweet : Tweet) (messageText : string)
    (thread : list Tweet) : Decision * list Call :=
  let inBotThread := isInBotThread env tweet thread in
  if isStandalone env tweet thread then (Skipped, [])
  else if negb (truthy messageText) then (Returned EmptyString (Some "IGNORE"), [])
  else
    let tweetId := id tweet +:+ "-" +:+ agentId env in
    let calls :=
      ((if homeTimelineCached env then [] else [fetchHomeTimeline]) ++
       [composeState; getMemoryById tweetId] ++
       (if tweetExists env then [] else [saveRequestMessage tweetId]))%list in
    if inBotThread && negb (JSString.includes (JSString.toLowerCase messageText) "stop")
    then (Proceeds, calls)
    else
      let calls' := (calls ++ [generateShouldRespond])%list in
      if negb (strictEq "RESPOND" (shouldRespond env))
      then (Returned "Response Decision:" (shouldRespond env), calls')
      else (Proceeds, calls').

(** Lines 118-127: the delay after which [onReady] runs the interaction
    check again, commented "Random interval between 2-5 minutes"; [rnd] is
    the value of [Math.random()]. *)
Definition handleTwitterInteractionsLoop_delay (rnd : Q) : Z :=
  ((Qfloor (rnd * inject_Z (40 - 30 + 1)) + 2) * 60 * 1000)%Z.

(** The reply chain, for stating what the decision looks at: [p] is the
    post [c] replies to, and an ancestor is reached by following parents. *)
Definition parentOf (p c : Tweet) : Prop := inReplyToStatusId c = Some (id p).

Inductive ancestorOf : Tweet -> Tweet -> Prop :=
| ancestor_parent p c : parentOf p c -> ancestorOf p c
| ancestor_step a p c : ancestorOf a p -> parentOf p c -> ancestorOf a c.

(** *** buildConversationThread *)

(** What [twitterClient.getTweet] does for an id. *)
Inductive FetchResult : Type :=
| Found (t : Tweet)
| NotFound
| FetchFailed (message : option string).

(** The client object, as far as [processThread] reaches through [this]. *)
Record Client : Type := {
  getTweet : string -> FetchResult;
  client_agentId : string;
  twitterUserId : string
}.

(** The variables [processThread] closes over ([thread], [visited]) and the
    collaborators' state it changes: the message store and the log of
    [getTweet] calls. *)
Record Resolution : Type := {
  thread : list Tweet;
  visited : gset string;
  memories : gset string;
  fetches : list string
}.

(** Lines 494-537: store the tweet unless the message store has it. The
    store is taken to answer: its calls resolve. *)
Definition rememberTweet (c : Client) (currentTweet : Tweet) (st : Resolution) : Resolution :=
  let key := id currentTweet +:+ "-" +:+ client_agentId c in
  if decide (key ∈ memories st) then st
  else {| thread := thread st; visited := visited st;
          memories := {[key]} ∪ memories st; fetches := fetches st |}.

(** Lines 544-545: [visited.add] and [thread.unshift]. *)
Definition accept (currentTweet : Tweet) (st : Resolution) : Resolution :=
  {| thread := currentTweet :: thread st;
     visited := {[id currentTweet]} ∪ visited st;
     memories := memories st; fetches := fetches st |}.

Definition logFetch (parentId : string) (st : Resolution) : Resolution :=
  {| thread := thread st; visited := visited st;
     memories := memories st; fetches := (fetches st ++ [parentId])%list |}.

(** Lines 477-584. [this] is the receiver of the call: the outer call is
    made through [processThread.bind(this)], the inner call at line 568 is
    a plain call [processThread(parentTweet, depth + 1)], whose receiver is
    [undefined], so that its first read of [this.runtime] (line 495)
    throws; the [try] around the inner call (lines 558-580) catches it. *)
Equations? processThread (maxReplies : nat) (this : option Client)
    (currentTweet : Tweet) (depth : nat) (st : Resolution)
    : Resolution * Outcome unit by wf (maxReplies - depth) lt :=
  processThread maxReplies this currentTweet depth st with le_lt_dec maxReplies depth := {
    | left _ => (st, Resolved ())
    | right Hlt with this := {
      | None =>
          (st, Rejected (Some "Cannot read properties of undefined (reading 'runtime')"))
      | Some c =>
          let st1 := rememberTweet c currentTweet st in
          if decide (id currentTweet ∈ visited st1) then (st1, Resolved ())
          else
            let st2 := accept currentTweet st1 in
            match inReplyToStatusId currentTweet with
            | Some parentId =>
                if truthy parentId then
                  let st3 := logFetch parentId st2 in
                  match getTweet c parentId with
                  | Found parentTweet =>
                      (fst (processThread maxReplies None parentTweet (S depth) st3),
                       Resolved ())
                  | NotFound => (st3, Resolved ())
                  | FetchFailed _ => (st3, Resolved ())
                  end
                else (st2, Resolved ())
            | None => (st2, Resolved ())
            end } }.
Proof. lia. Qed.

Definition start (store : gset string) : Resolution :=
  {| thread := []; visited := ∅; memories := store; fetches := [] |}.

(** Lines 470-598. [store] is the message store at the time of the call. *)
Definition buildConversationThread (c : Client) (store : gset string)
    (tweet : Tweet) (maxReplies : nat) : Resolution * Outcome (list Tweet) :=
  let '(st, o) := processThread maxReplies (Some c) tweet 0 (start store) in
  (st, _ ← o; Resolved (thread st)).

(** The invariant of the resolution: the ids in [thread] are distinct and
    have all been marked visited. *)
Definition thread_inv (st : Resolution) : Prop :=
  NoDup (map id (thread st)) /\
  forall t, t ∈ thread st -> id t ∈ visited st.

(** The thread a call resolves with, [None] if it rejects. *)
Definition resolvedThread (r : Resolution * Outcome (list Tweet)) : option (list Tweet) :=
  match snd r with
  | Resolved t => Some t
  | Rejected _ => None
  end.

(** *** Sample conversations *)

(** The chain A <- B <- C: C replies to B, B replies to A. *)
Definition tweetA : Tweet :=
  {| id := "A"; username := "alice"; text := "gm"; userId := "1";
     conversationId := Some "A"; inReplyToStatusId := None |}.

Definition tweetB : Tweet :=
  {| id := "B"; username := "bob"; text := "gm alice"; userId := "2";
     conversationId := Some "A"; inReplyToStatusId := Some "A" |}.

Definition tweetC : Tweet :=
  {| id := "C"; username := "carol"; text := "gm both"; userId := "3";
     conversationId := Some "A"; inReplyToStatusId := Some "B" |}.

Definition lookupTweet (tweets : list Tweet) (i : string) : FetchResult :=
  match find (fun t => String.eqb (id t) i) tweets with
  | Some t => Found t
  | None => NotFound
  end.

Definition chainClient : Client :=
  {| getTweet := lookupTweet [tweetA; tweetB; tweetC];
     client_agentId := "agent-1"; twitterUserId := "99" |}.

(** The cycle A -> B -> A: each of the two names the other as its parent. *)
Definition cycleA : Tweet :=
  {| id := "A"; username := "alice"; text := "gm"; userId := "1";
     conversationId := Some "A"; inReplyToStatusId := Some "B" |}.

Definition cycleB : Tweet :=
  {| id := "B"; username := "bob"; text := "gm alice"; userId := "2";
     conversationId := Some "A"; inReplyToStatusId := Some "A" |}.

Definition cycleClient : Client :=
  {| getTweet := lookupTweet [cycleA; cycleB];
     client_agentId := "agent-1"; twitterUserId := "99" |}.

(** A conversation started by someone else, in which the agent (@agent)
    answered once and the talk went on: R <- O <- M <- P. *)
Definition botEnv (answer : option string) : Env :=
  {| TWITTER_USERNAME := "agent"; agentId := "agent-1";
     homeTimelineCached := true; tweetExists := true;
     shouldRespond := answer |}.

Definition postR : Tweet :=
  {| id := "100"; username := "dana"; text := "what a launch"; userId := "4";
     conversationId := Some "100"; inReplyToStatusId := None |}.

Definition postO : Tweet :=
  {| id := "101"; username := "agent"; text := "it went well"; userId := "99";
     conversationId := Some "100"; inReplyToStatusId := Some "100" |}.

Definition postM : Tweet :=
  {| id := "102"; username := "erin"; text := "numbers please"; userId := "5";
     conversationId := Some "100"; inReplyToStatusId := Some "101" |}.

Definition postP : Tweet :=
  {| id := "103"; username := "dana"; text := "see the dashboard"; userId := "4";
     conversationId := Some "100"; inReplyToStatusId := Some "102" |}.

(** The agent's own post with no parent. *)
Definition ownPost : Tweet :=
  {| id := "200"; username := "agent"; text := "shipping today"; userId := "99";
     conversationId := Some "200"; inReplyToStatusId := None |}.

End Interaction.

(** ** post.ts: the posting client *)
Module Post.

Import JSString.

Definition MAX_TWEET_LENGTH : Z := 240.

(** Lines 86-108. *)
Definition truncateToCompleteSentence (text : string) : string :=
  if (Z.of_nat (String.length text) <=? MAX_TWEET_LENGTH)%Z then text
  else
    let truncatedAtPeriod :=
      slice text 0 (lastIndexOf text "." MAX_TWEET_LENGTH + 1) in
    if (0 <? String.length (trim truncatedAtPeriod))%nat then trim truncatedAtPeriod
    else
      let truncatedAtSpace :=
        slice text 0 (lastIndexOf text " " MAX_TWEET_LENGTH) in
      if (0 <? String.length (trim truncatedAtSpace))%nat
      then trim truncatedAtSpace +:+ "..."
      else trim (slice text 0 (MAX_TWEET_LENGTH - 3)) +:+ "...".

(** *** The timer loops *)

(** The callbacks the client hands to [setTimeout]. *)
Inductive Loop : Type :=
| tweetLoop       (* generateNewTweet(); generateNewTweetLoop() *)
| timelineLoop.   (* generateNewTimelineTweetLoop() *)

#[global] Instance Loop_eq_dec : EqDecision Loop.
Proof. solve_decision. Defined.

(** A timer created by [setTimeout(callback, delay)]; the value also serves
    as its handle. *)
Record Timer : Type := {
  callback : Loop;
  delay : Z
}.

#[global] Instance Timer_eq_dec : EqDecision Timer.
Proof. solve_decision. Defined.

(** The fields of [TwitterPostClient] (lines 114-118) and the timers of the
    event loop that have not fired yet. *)
Record Client : Type := {
  tweetLoopTimeout : option Timer;
  timelineLoopTimeout : option Timer;
  lastProcessTime : Z;
  isProcessing : bool;
  pending : list Timer
}.

Definition MIN_PROCESS_INTERVAL : Z := 15 * 60 * 1000.

Definition initial : Client :=
  {| tweetLoopTimeout := None; timelineLoopTimeout := None;
     lastProcessTime := 0; isProcessing := false; pending := [] |}.

(** [clearTimeout(handle)] *)
Definition clearTimeout (handle : option Timer) (timers : list Timer) : list Timer :=
  match handle with
  | Some t => List.remove Timer_eq_dec t timers
  | None => timers
  end.

(** [Math.floor(Math.random() * n)], with [rnd] the value of
    [Math.random()]. *)
Definition randomBelow (rnd : Q) (n : Z) : Z := Qfloor (rnd * inject_Z n).

(** The timeline loop is scheduled on the window [15, 30] minutes
    (line 394), the tweet loop on [25, 35] (lines 135-138). *)
Definition randomTimelineMinutes (rnd : Q) : Z := (randomBelow rnd (30 - 15 + 1) + 15)%Z.

Definition randomMinutes (rnd : Q) : Z :=
  let minMinutes := 25%Z in
  let maxMinutes := 35%Z in
  (randomBelow rnd (maxMinutes - minMinutes + 1) + minMinutes)%Z.

(** Lines 134-147: [generateNewTweetLoop] arms the next tweet. *)
Definition generateNewTweetLoop (rnd : Q) (c : Client) : Client :=
  let t := {| callback := tweetLoop; delay := (randomMinutes rnd * 60 * 1000)%Z |} in
  {| tweetLoopTimeout := Some t; timelineLoopTimeout := timelineLoopTimeout c;
     lastProcessTime := lastProcessTime c; isProcessing := isProcessing c;
     pending := (pending c ++ [t])%list |}.

(** Lines 126-160: [onReady]. Posting itself ([generateNewTweet]) does not
    touch the fields. *)
Definition onReady (rnd : Q) (c : Client) : Client :=
  let timers := clearTimeout (tweetLoopTimeout c)
                  (clearTimeout (timelineLoopTimeout c) (pending c)) in
  let c1 := generateNewTweetLoop rnd
              {| tweetLoopTimeout := tweetLoopTimeout c;
                 timelineLoopTimeout := timelineLoopTimeout c;
                 lastProcessTime := lastProcessTime c;
                 isProcessing := isProcessing c; pending := timers |} in
  let initialTimelineDelay := (1 * 60 * 1000)%Z in
  let t := {| callback := timelineLoop; delay := initialTimelineDelay |} in
  {| tweetLoopTimeout := tweetLoopTimeout c1; timelineLoopTimeout := Some t;
     lastProcessTime := lastProcessTime c1; isProcessing := isProcessing c1;
     pending := (pending c1 ++ [t])%list |}.

(** Lines 403-559: [processTweetActions], as far as the fields go: unless a
    run is in progress, it stamps [lastProcessTime] with [Date.now()] and
    holds [isProcessing] until its [finally]. *)
Definition processTweetActions (now : Z) (c : Client) : Client :=
  if isProcessing c then c
  else {| tweetLoopTimeout := tweetLoopTimeout c;
          timelineLoopTimeout := timelineLoopTimeout c;
          lastProcessTime := now; isProcessing := false;
          pending := pending c |}.

(** Lines 374-401. [now] is [Date.now()] at line 378, [now'] the one inside
    [processTweetActions]; whether that call resolves or rejects, the
    [finally] arms the next run. *)
Definition generateNewTimelineTweetLoop (now now' : Z) (rnd : Q) (c : Client) : Client :=
  let timeSinceLastProcess := (now - lastProcessTime c)%Z in
  if (timeSinceLastProcess <? MIN_PROCESS_INTERVAL)%Z then c
  else
    let c1 := processTweetActions now' c in
    let t := {| callback := timelineLoop;
                delay := (randomTimelineMinutes rnd * 60 * 1000)%Z |} in
    {| tweetLoopTimeout := tweetLoopTimeout c1; timelineLoopTimeout := Some t;
       lastProcessTime := lastProcessTime c1; isProcessing := isProcessing c1;
       pending := (pending c1 ++ [t])%list |}.

(** A pending timer fires: it leaves the event loop and its callback runs. *)
Definition fire (t : Timer) (now now' : Z) (rnd : Q) (c : Client) : Client :=
  let c1 := {| tweetLoopTimeout := tweetLoopTimeout c;
               timelineLoopTimeout := timelineLoopTimeout c;
               lastProcessTime := lastProcessTime c;
               isProcessing := isProcessing c;
               pending := List.remove Timer_eq_dec t (pending c) |} in
  match callback t with
  | tweetLoop => generateNewTweetLoop rnd c1
  | timelineLoop => generateNewTimelineTweetLoop now now' rnd c1
  end.

(** Whether a run of the timeline loop is still to come. *)
Definition timelineArmed (c : Client) : bool :=
  existsb (fun t => bool_decide (callback t = timelineLoop)) (pending c).

(** A run of the client: [onReady] at 10:00:00 UTC on 2024-11-20, the first
    timeline check a minute later, [onReady] again, and the timeline check
    it schedules, two minutes after the first. *)
Definition t0 : Z := 1732096800000.

Definition initialTimer : Timer := {| callback := timelineLoop; delay := 60000 |}.

Definition booted : Client := onReady (1 # 2) initial.

Definition firstRun : Client :=
  fire initialTimer (t0 + 60000) (t0 + 60000) (1 # 2) booted.

Definition rebooted : Client := onReady (1 # 2) firstRun.

Definition secondRun : Client :=
  fire initialTimer (t0 + 180000) (t0 + 180000) (1 # 2) rebooted.

(** Texts over the limit: 300 letters with no period and no space; a
    sentence whose period is the 241st character; words whose last space
    within the limit is the 240th character. *)
Definition longWord : string := repeat "a" 300.

Definition longSentence : string := repeat "a" 240 +:+ "." +:+ repeat "b" 20.

Definition longWords : string := repeat "a" 239 +:+ " " +:+ repeat "b" 20.

End Post.

(** ** Runs of the token handler *)
Module TokenRuns.

Import TokenProcessing.

(** What the event loop does next: hand a delivery to [processTokenUpdate],
    or let the [i]-th suspended body run to its end. *)
Inductive Action : Type :=
| Deliver (update : option TokenUpdate)
| Settle (i : nat) (sc : Script).

Definition act (a : Action) (s : Sys) : Sys :=
  match a with
  | Deliver update => deliver update s
  | Settle i sc => settle i sc s
  end.

Definition run (trace : list Action) (s : Sys) : Sys :=
  fold_left (fun s a => act a s) trace s.

(** Whether the action admits a handler body, and whether it ends one. *)
Definition admits (a : Action) (s : Sys) : bool :=
  match a with
  | Deliver update =>
      match snd (processTokenUpdate_enter update (client s)) with
      | Some _ => true
      | None => false
      end
  | Settle _ _ => false
  end.

Definition ends (a : Action) (s : Sys) : bool :=
  match a with
  | Deliver _ => false
  | Settle i _ =>
      match suspended s !! i with
      | Some _ => true
      | None => false
      end
  end.

(** The number of bodies admitted, and ended, along a trace from [s]. *)
Fixpoint admitted (trace : list Action) (s : Sys) : nat :=
  match trace with
  | [] => 0
  | a :: rest => (if admits a s then 1 else 0) + admitted rest (act a s)
  end.

Fixpoint ended (trace : list Action) (s : Sys) : nat :=
  match trace with
  | [] => 0
  | a :: rest => (if ends a s then 1 else 0) + ended rest (act a s)
  end.

(** A run in which the model's answer parses to an analysis without
    insights. *)
Definition script_no_insights : Script :=
  {| ensureRoomExists := Resolved ();
     ensureParticipantInRoom := Resolved ();
     composeState := Resolved ();
     generateText := Resolved "{...}";
     JSON_parse := fun _ => Resolved {| summary := "fine"; metrics := true;
                                        insights := false; patterns := true |};
     createMemory := Resolved () |}.

End TokenRuns.

(** ** realtimeClient.ts, lines 171-228, and tokenProvider.ts *)
Module Wrapper.

(** The string a property declared [string] in types.ts holds. *)
Definition jsString (v : Realtime.JSValue) : string :=
  match v with
  | Realtime.JStr s => s
  | _ => EmptyString
  end.

(** [record.token_id] as the handler's guard and the in-flight set see it:
    a string key, or nothing when the value is falsy. The outer [None] is a
    truthy value that is not a string, which the string-keyed set of
    [TokenProcessing] does not cover. *)
Definition tokenIdView (v : Realtime.JSValue) : option (option string) :=
  match v with
  | Realtime.JStr s => Some (Some s)
  | other => if Realtime.js_truthy other then None else Some None
  end.

(** The [tokenUpdate] object the realtime client emitted, as
    [processTokenUpdate] reads it. *)
Definition received (u : Realtime.TokenUpdate)
  : option (option TokenProcessing.TokenUpdate) :=
  let rec := Realtime.record u in
  if Realtime.nullish rec then
    Some (Some {| TokenProcessing.record := None;
                  TokenProcessing.timestamp := jsString (Realtime.timestamp u) |})
  else
    match Realtime.getProp rec "token_id" with
    | Resolved v =>
        match tokenIdView v with
        | Some tid =>
            Some (Some
              {| TokenProcessing.record :=
                   Some {| TokenProcessing.rec_id :=
                             jsString (Realtime.orUndefined (Realtime.getProp rec "id"));
                           TokenProcessing.processing_stage :=
                             jsString (Realtime.orUndefined
                                         (Realtime.getProp rec "processing_stage"));
                           TokenProcessing.token_id := tid |};
                 TokenProcessing.timestamp := jsString (Realtime.timestamp u) |})
        | None => None
        end
    | Rejected _ => None
    end.

(** The fields of [SupabaseClientWrapper]; [processing] is the processing
    client with the handler bodies it has suspended. *)
Record Wrapper : Type := {
  client : Realtime.Client;
  processing : TokenProcessing.Sys;
  initialized : bool
}.

(** The module-level singleton and the two variables of [process.env]. *)
Record Process : Type := {
  supabaseClientInstance : option Wrapper;
  SUPABASE_URL : option string;
  SUPABASE_ANON_KEY : option string
}.

(** Lines 7-18: a [TokenUpdateClient] as its constructor leaves it. *)
Definition newTokenUpdateClient : Realtime.Client :=
  {| Realtime.ws := None; Realtime.heartbeatInterval := None;
     Realtime.reconnectTimeout := None; Realtime.isConnected := false;
     Realtime.sent := [] |}.

(** Lines 179-203: the constructor. *)
Definition newWrapper (p : Process) : Outcome Wrapper :=
  if negb (truthy_opt (SUPABASE_URL p)) || negb (truthy_opt (SUPABASE_ANON_KEY p))
  then Rejected (Some "Missing Supabase credentials in environment variables")
  else Resolved {| client := newTokenUpdateClient;
                   processing := TokenProcessing.init;
                   initialized := false |}.

(** Lines 205-210. *)
Definition getInstance (p : Process) : Process * Outcome Wrapper :=
  match supabaseClientInstance p with
  | Some w => (p, Resolved w)
  | None =>
      match newWrapper p with
      | Resolved w =>
          ({| supabaseClientInstance := Some w; SUPABASE_URL := SUPABASE_URL p;
              SUPABASE_ANON_KEY := SUPABASE_ANON_KEY p |}, Resolved w)
      | Rejected m => (p, Rejected m)
      end
  end.

(** Lines 212-221: [start]. [socket] is what building the URL and the
    WebSocket does inside [connect] (lines 53-59): it may throw before any
    field is assigned. *)
Definition start (socket : Outcome unit) (w : Wrapper) : Wrapper * Outcome unit :=
  if initialized w then (w, Resolved ())
  else if Realtime.isConnected (client w) then
    ({| client := Realtime.connect (client w); processing := processing w;
        initialized := true |}, Resolved ())
  else
    match socket with
    | Resolved _ =>
        ({| client := Realtime.connect (client w); processing := processing w;
            initialized := true |}, Resolved ())
    | Rejected m => (w, Rejected m)
    end.

(** Lines 223-227: [stop]. *)
Definition stop (w : Wrapper) : Wrapper :=
  {| client := Realtime.disconnect (client w); processing := processing w;
     initialized := false |}.

Definition setInstance (w : Wrapper) (p : Process) : Process :=
  {| supabaseClientInstance := Some w; SUPABASE_URL := SUPABASE_URL p;
     SUPABASE_ANON_KEY := SUPABASE_ANON_KEY p |}.

Definition initializedText : string :=
  "Supabase token provider initialized and listening for updates".

Definition failedText : string := "Failed to initialize Supabase token provider".

(** tokenProvider.ts, lines 5-20: [get] resolves with one of two texts. *)
Definition tokenProvider_get (socket : Outcome unit) (p : Process) : Process * string :=
  match getInstance p with
  | (p1, Resolved w) =>
      match start socket w with
      | (w1, Resolved _) => (setInstance w1 p1, initializedText)
      | (w1, Rejected _) => (setInstance w1 p1, failedText)
      end
  | (p1, Rejected _) => (p1, failedText)
  end.

(** Lines 191-202: the listener of [tokenUpdate] logs [update.record.id]
    and hands the update to [processTokenUpdate]. With no record the read
    at line 193 throws before the handler is called, and nothing changes.
    The result is [None] for a key the model does not cover. *)
Definition onTokenUpdate (u : Realtime.TokenUpdate) (w : Wrapper) : option Wrapper :=
  if Realtime.nullish (Realtime.record u) then Some w
  else
    match received u with
    | Some update =>
        Some {| client := client w;
                processing := TokenProcessing.deliver update (processing w);
                initialized := initialized w |}
    | None => None
    end.

(** A frame arrives: [ws.onmessage] emits, the listener runs. *)
Definition onFrame (parsed : Outcome Realtime.JSValue) (w : Wrapper) : option Wrapper :=
  match Realtime.onmessage parsed with
  | [] => Some w
  | u :: _ => onTokenUpdate u w
  end.

(** Sample: the envelope of a completed update whose record also carries
    [token_id]. *)
Definition envelopeWithTokenId (tokenId : string) : Realtime.JSValue :=
  Realtime.JObj
    [("event", Realtime.JStr "postgres_changes");
     ("payload",
      Realtime.JObj
        [("data",
          Realtime.JObj
            [("type", Realtime.JStr "UPDATE");
             ("record", Realtime.JObj [("id", Realtime.JStr "42");
                                       ("token_id", Realtime.JStr tokenId);
                                       ("processing_stage", Realtime.JStr "completed")]);
             ("commit_timestamp", Realtime.JStr "2024-11-20T10:00:00Z")])])].

Definition freshWrapper : Wrapper :=
  {| client := newTokenUpdateClient; processing := TokenProcessing.init;
     initialized := false |}.

Definition withCredentials : Process :=
  {| supabaseClientInstance := None;
     SUPABASE_URL := Some "https://project.supabase.co";
     SUPABASE_ANON_KEY := Some "anon-key" |}.

Definition withoutCredentials : Process :=
  {| supabaseClientInstance := None; SUPABASE_URL := None;
     SUPABASE_ANON_KEY := Some "anon-key" |}.

End Wrapper.

(** ** post.ts: the rest of the posting client *)
Module PostMore.

Import JSString Post.

(** The line feed, and the two characters backslash and n that the model
    may write for it. *)
Definition LF : string := String (ascii_of_nat 10) EmptyString.

Definition backslash_n : string := String (ascii_of_nat 92) "n".

(** [s.replaceAll(pat, by)] for a literal, non-empty [pat]: matches are
    taken from the left and do not overlap. [skip] counts the characters
    of a match still to pass. *)
Fixpoint replaceAllFrom (skip : nat) (s pat by_ : string) : string :=
  match s with
  | EmptyString => EmptyString
  | String a rest =>
      match skip with
      | S k => replaceAllFrom k rest pat by_
      | O =>
          if String.prefix pat s
          then by_ +:+ replaceAllFrom (String.length pat - 1) rest pat by_
          else String a (replaceAllFrom 0 rest pat by_)
      end
  end.

Definition replaceAll (s pat by_ : string) : string := replaceAllFrom 0 s pat by_.

(** [s.replace(pat, by)] for a literal [pat]: the first match only. *)
Fixpoint replaceFirst (s pat by_ : string) : string :=
  if String.prefix pat s
  then by_ +:+ substring (String.length pat) (String.length s - String.length pat) s
  else match s with
       | EmptyString => EmptyString
       | String a rest => String a (replaceFirst rest pat by_)
       end.

(** [s.lastIndexOf(pat)], the search starting at the end. *)
Definition lastIndexOfEnd (s pat : string) : Z :=
  lastIndexOf s pat (Z.of_nat (String.length s)).

(** [s.split("\n")] and [parts.join(sep)]. *)
Fixpoint splitLines (s : string) : list string :=
  match s with
  | EmptyString => [EmptyString]
  | String a rest =>
      if Ascii.eqb a (ascii_of_nat 10) then EmptyString :: splitLines rest
      else match splitLines rest with
           | line :: lines => String a line :: lines
           | [] => [String a EmptyString]
           end
  end.

Fixpoint join (sep : string) (parts : list string) : string :=
  match parts with
  | [] => EmptyString
  | [p] => p
  | p :: rest => p +:+ sep +:+ join sep rest
  end.

(** [array.slice(-n)]: the last [n] elements. *)
Definition lastN {A : Type} (n : nat) (l : list A) : list A :=
  skipn (length l - n) l.

(** A value [Math.random()] can return. *)
Definition unitInterval (rnd : Q) : Prop := (0 <= rnd)%Q /\ (rnd < 1)%Q.

(** *** processTweetActions, split at its awaits *)

(** Lines 403-411: the synchronous prefix; the flag tells whether the body
    was entered. *)
Definition processTweetActions_enter (now : Z) (c : Client) : Client * bool :=
  if isProcessing c then (c, false)
  else ({| tweetLoopTimeout := tweetLoopTimeout c;
           timelineLoopTimeout := timelineLoopTimeout c;
           lastProcessTime := now; isProcessing := true;
           pending := pending c |}, true).

(** Lines 553-558: however the body ends, the [finally] clears the flag. *)
Definition processTweetActions_leave (c : Client) : Client :=
  {| tweetLoopTimeout := tweetLoopTimeout c;
     timelineLoopTimeout := timelineLoopTimeout c;
     lastProcessTime := lastProcessTime c; isProcessing := false;
     pending := pending c |}.

(** The client and the number of [processTweetActions] bodies suspended at
    an await. *)
Record Batch : Type := {
  postClient : Client;
  running : nat
}.

Definition call (now : Z) (b : Batch) : Batch :=
  match processTweetActions_enter now (postClient b) with
  | (c, true) => {| postClient := c; running := S (running b) |}
  | (c, false) => {| postClient := c; running := running b |}
  end.

Definition leave (b : Batch) : Batch :=
  match running b with
  | S n => {| postClient := processTweetActions_leave (postClient b); running := n |}
  | O => b
  end.

Inductive batch_step : Batch -> Batch -> Prop :=
| batch_call now b : batch_step b (call now b)
| batch_leave b : (0 < running b)%nat -> batch_step b (leave b).

Definition idle : Batch := {| postClient := initial; running := 0 |}.

(** At most one body is suspended, and the flag is set exactly then. *)
Definition batch_inv (b : Batch) : Prop :=
  running b <= 1 /\ (isProcessing (postClient b) = true <-> running b = 1).

(** *** generateTweetContent *)

(** Lines 608-627: the text the model returned, cut for posting. *)
Definition tweetContent (newTweetContent : string) : string :=
  let slice_ := trim (replaceAll newTweetContent backslash_n LF) in
  let contentLength := 240%Z in
  let content := slice slice_ 0 contentLength in
  let content :=
    if (280 <? Z.of_nat (String.length content))%Z
    then slice content 0 (lastIndexOfEnd content LF) else content in
  let content :=
    if (contentLength <? Z.of_nat (String.length content))%Z
    then slice content 0 (lastIndexOfEnd content ".") else content in
  let content :=
    if (contentLength <? Z.of_nat (String.length content))%Z
    then slice content 0 (lastIndexOfEnd content ".") else content in
  content.

(** Lines 561-633: [generateTweetContent]; [generateText] stands for the
    awaited calls up to the model's answer, any of which may reject, and
    the [catch] rethrows. *)
Definition generateTweetContent (generateText : Outcome string) : Outcome string :=
  newTweetContent ← generateText; Resolved (tweetContent newTweetContent).

(** *** The memories shown to the model *)

Definition MAX_MEMORIES : nat := 5.

Definition MAX_MEMORY_LENGTH : nat := 200.

(** Lines 205-214 and 579-588. *)
Definition formatMemory (text : string) : string :=
  let trimmedText :=
    if (MAX_MEMORY_LENGTH <? String.length text)%nat
    then substring 0 MAX_MEMORY_LENGTH text +:+ "..."
    else text in
  "Memory: " +:+ trimmedText +:+ LF +:+ "---" +:+ LF.

Definition formattedMemories (recentMemories : list string) : string :=
  join LF (map formatMemory (lastN MAX_MEMORIES recentMemories)).

(** *** generateNewTweet: the text and the image of a post *)

(** What [generateImage] resolves with. *)
Record ImageResult : Type := {
  success : bool;
  data : option (list string)
}.

(** Lines 266-308: from the model's answer to the text handed to
    [sendTweet] and the image attached to it; [generateImage] is asked with
    the prompt of the first line. *)
Definition tweetToSend (newTweetContent : string)
    (generateImage : string -> Outcome ImageResult) : string * option string :=
  let formattedTweet := trim (replaceAll newTweetContent backslash_n LF) in
  let '(content, imageBuffer) :=
    if String.prefix "[IMAGE]" formattedTweet then
      match splitLines formattedTweet with
      | imagePrompt :: tweetParts =>
          let prompt := trim (replaceFirst imagePrompt "[IMAGE]" EmptyString) in
          let content := trim (join LF tweetParts) in
          match generateImage prompt with
          | Resolved imageData =>
              match data imageData with
              | Some (base64Image :: _) =>
                  if success imageData then (content, Some base64Image)
                  else (content, None)
              | _ => (content, None)
              end
          | Rejected _ => (content, None)
          end
      | [] => (formattedTweet, None)
      end
    else (formattedTweet, None) in
  (truncateToCompleteSentence content, imageBuffer).

(** *** processTweetActions: one tweet of the timeline *)

(** The answer of [generateTweetActions]. *)
Record ActionResponse : Type := {
  like : bool;
  retweet : bool;
  quote : bool;
  reply : bool
}.

(** What the collaborators do while one tweet is processed. *)
Record TweetRun : Type := {
  getMemoryById : Outcome bool;              (* is the tweet in memory? *)
  composeState : Outcome unit;
  generateTweetActions : Outcome (option ActionResponse);
  likeTweet : Outcome unit;
  retweetTweet : Outcome unit;
  quoteText : Outcome string;                (* the model's text for the quote *)
  sendQuoteTweet : Outcome Z;                (* the status of the response *)
  quoteProcessed : bool;                     (* processTweetResponse(..).success *)
  replyText : Outcome string;                (* the model's text for the reply *)
  sendTweet : Outcome Z;
  replyProcessed : bool
}.

(** The requests made to the platform for the tweet. *)
Inductive Request : Type :=
| LikeTweet
| Retweet
| QuoteTweet (content : string)
| ReplyTweet (content : string).

(** A request whose text, if it has one, is within 240 characters. *)
Definition fits (q : Request) : Prop :=
  match q with
  | QuoteTweet content | ReplyTweet content => String.length content <= 240
  | LikeTweet | Retweet => True
  end.

(** Lines 479-488: the like. *)
Definition doLike (r : TweetRun) (a : ActionResponse) : list Request * list string :=
  if like a then
    match likeTweet r with
    | Resolved _ => ([LikeTweet], ["like"])
    | Rejected _ => ([LikeTweet], [])
    end
  else ([], []).

(** Lines 490-499: the retweet. *)
Definition doRetweet (r : TweetRun) (a : ActionResponse) : list Request * list string :=
  if retweet a then
    match retweetTweet r with
    | Resolved _ => ([Retweet], ["retweet"])
    | Rejected _ => ([Retweet], [])
    end
  else ([], []).

(** Lines 501-521: the quote. *)
Definition doQuote (r : TweetRun) (a : ActionResponse) : list Request * list string :=
  if quote a then
    match generateTweetContent (quoteText r) with
    | Resolved tweetContent =>
        match sendQuoteTweet r with
        | Resolved status =>
            if (status =? 200)%Z && quoteProcessed r
            then ([QuoteTweet tweetContent], ["quote"])
            else ([QuoteTweet tweetContent], [])
        | Rejected _ => ([QuoteTweet tweetContent], [])
        end
    | Rejected _ => ([], [])
    end
  else ([], []).

(** Lines 523-527 and 703-725: the reply, [handleTextOnlyReply]. *)
Definition doReply (r : TweetRun) (a : ActionResponse) : list Request * list string :=
  if reply a then
    match generateTweetContent (replyText r) with
    | Resolved tweetContent =>
        match sendTweet r with
        | Resolved status =>
            if (status =? 200)%Z && replyProcessed r
            then ([ReplyTweet tweetContent], ["reply"])
            else ([ReplyTweet tweetContent], [])
        | Rejected _ => ([ReplyTweet tweetContent], [])
        end
    | Rejected _ => ([], [])
    end
  else ([], []).

(** Lines 431-549: the body of the loop over the timeline for one tweet:
    the requests made and, when an entry is pushed to [results], its
    [executedActions]. [saveIncomingTweetToMemory] (line 532) catches its
    own failures and its answer is not used. *)
Definition processTweet (r : TweetRun) : list Request * option (list string) :=
  match getMemoryById r with
  | Resolved false =>
      match composeState r with
      | Resolved _ =>
          match generateTweetActions r with
          | Resolved (Some actionResponse) =>
              let '(q1, e1) := doLike r actionResponse in
              let '(q2, e2) := doRetweet r actionResponse in
              let '(q3, e3) := doQuote r actionResponse in
              let '(q4, e4) := doReply r actionResponse in
              (q1 ++ q2 ++ q3 ++ q4, Some (e1 ++ e2 ++ e3 ++ e4))
          | _ => ([], None)
          end
      | Rejected _ => ([], None)
      end
  | _ => ([], None)
  end.

(** Sample: the model asks for a like and a reply; the like is refused by
    the platform, the reply goes through. *)
Definition sampleRun : TweetRun :=
  {| getMemoryById := Resolved false;
     composeState := Resolved ();
     generateTweetActions :=
       Resolved (Some {| like := true; retweet := false; quote := false; reply := true |});
     likeTweet := Rejected (Some "429");
     retweetTweet := Resolved ();
     quoteText := Resolved "unused";
     sendQuoteTweet := Resolved 200%Z;
     quoteProcessed := true;
     replyText := Resolved "well said. more of this.";
     sendTweet := Resolved 200%Z;
     replyProcessed := true |}.

End PostMore.

(** ** post.ts: the two loops, with the timeline check split at its await *)
Module PostLoops.

Import Post.

(** A timer of the event loop that has not fired yet: the identity
    [setTimeout] returned for it, and what it was created with. *)
Record Pending : Type := {
  ident : nat;
  timer : Timer
}.

(** The fields of [TwitterPostClient] (a timer field holds the identity of
    its timer), the timers that have not fired, the identity the next
    [setTimeout] returns, and the timeline checks suspended at
    [await this.processTweetActions()] (line 388): [true] for a check whose
    call entered the body and holds [isProcessing], [false] for one whose
    call returned at line 406. *)
Record State : Type := {
  tweetLoopTimeout : option nat;
  timelineLoopTimeout : option nat;
  lastProcessTime : Z;
  isProcessing : bool;
  pending : list Pending;
  nextIdent : nat;
  suspended : list bool
}.

Definition initial : State :=
  {| tweetLoopTimeout := None; timelineLoopTimeout := None;
     lastProcessTime := 0; isProcessing := false;
     pending := []; nextIdent := 0; suspended := [] |}.

(** [setTimeout(callback, delay)]: the timer is pending under a new
    identity, [nextIdent] of the state before. *)
Definition setTimeout (cb : Loop) (d : Z) (s : State) : State :=
  {| tweetLoopTimeout := tweetLoopTimeout s;
     timelineLoopTimeout := timelineLoopTimeout s;
     lastProcessTime := lastProcessTime s; isProcessing := isProcessing s;
     pending := pending s ++ [ {| ident := nextIdent s;
                                  timer := {| callback := cb; delay := d |} |} ];
     nextIdent := S (nextIdent s); suspended := suspended s |}.

(** The timers other than the one of identity [i]. *)
Definition cancel (i : nat) (timers : list Pending) : list Pending :=
  List.filter (fun p => negb (ident p =? i)%nat) timers.

(** [if (handle) clearTimeout(handle)]: a timer that has fired already is
    not pending any more, and clearing it does nothing. *)
Definition clearTimeout (h : option nat) (s : State) : State :=
  match h with
  | Some i =>
      {| tweetLoopTimeout := tweetLoopTimeout s;
         timelineLoopTimeout := timelineLoopTimeout s;
         lastProcessTime := lastProcessTime s; isProcessing := isProcessing s;
         pending := cancel i (pending s);
         nextIdent := nextIdent s; suspended := suspended s |}
  | None => s
  end.

(** Lines 134-147: [generateNewTweetLoop] arms the next tweet and keeps
    its handle. *)
Definition generateNewTweetLoop (rnd : Q) (s : State) : State :=
  let s1 := setTimeout tweetLoop (randomMinutes rnd * 60 * 1000)%Z s in
  {| tweetLoopTimeout := Some (nextIdent s);
     timelineLoopTimeout := timelineLoopTimeout s1;
     lastProcessTime := lastProcessTime s1; isProcessing := isProcessing s1;
     pending := pending s1; nextIdent := nextIdent s1; suspended := suspended s1 |}.

(** Lines 126-160: [onReady]. Posting itself ([generateNewTweet]) does not
    touch the fields. *)
Definition onReady (rnd : Q) (s : State) : State :=
  let s1 := clearTimeout (timelineLoopTimeout s) s in
  let s2 := clearTimeout (tweetLoopTimeout s1) s1 in
  let s3 := generateNewTweetLoop rnd s2 in
  let initialTimelineDelay := (1 * 60 * 1000)%Z in
  let s4 := setTimeout timelineLoop initialTimelineDelay s3 in
  {| tweetLoopTimeout := tweetLoopTimeout s4;
     timelineLoopTimeout := Some (nextIdent s3);
     lastProcessTime := lastProcessTime s4; isProcessing := isProcessing s4;
     pending := pending s4; nextIdent := nextIdent s4; suspended := suspended s4 |}.

(** Lines 374-388 with lines 403-411: a timeline check up to its await.
    Inside the cooldown it returns at line 383. Otherwise it calls
    [processTweetActions], which returns at once when a run is in
    progress and else sets [isProcessing] and stamps [lastProcessTime]
    with its own [Date.now()], [now']; either way the check is suspended. *)
Definition generateNewTimelineTweetLoop_enter (now now' : Z) (s : State) : State :=
  let timeSinceLastProcess := (now - lastProcessTime s)%Z in
  if (timeSinceLastProcess <? MIN_PROCESS_INTERVAL)%Z then s
  else if isProcessing s then
    {| tweetLoopTimeout := tweetLoopTimeout s;
       timelineLoopTimeout := timelineLoopTimeout s;
       lastProcessTime := lastProcessTime s; isProcessing := isProcessing s;
       pending := pending s; nextIdent := nextIdent s;
       suspended := suspended s ++ [false] |}
  else
    {| tweetLoopTimeout := tweetLoopTimeout s;
       timelineLoopTimeout := timelineLoopTimeout s;
       lastProcessTime := now'; isProcessing := true;
       pending := pending s; nextIdent := nextIdent s;
       suspended := suspended s ++ [true] |}.

(** Lines 556-558 with lines 389-400: the awaited call of the [i]-th
    suspended check settles; if it had entered the body, its [finally]
    clears [isProcessing]; then the check's own [finally] arms the next
    check and keeps its handle. The two blocks run in consecutive
    microtasks, with no timer in between. *)
Definition generateNewTimelineTweetLoop_resume (i : nat) (rnd : Q) (s : State) : State :=
  match (suspended s !! i : option bool) with
  | Some entered =>
      let s1 := {| tweetLoopTimeout := tweetLoopTimeout s;
                   timelineLoopTimeout := timelineLoopTimeout s;
                   lastProcessTime := lastProcessTime s;
                   isProcessing := if entered then false else isProcessing s;
                   pending := pending s; nextIdent := nextIdent s;
                   suspended := delete i (suspended s) |} in
      let s2 := setTimeout timelineLoop (randomTimelineMinutes rnd * 60 * 1000)%Z s1 in
      {| tweetLoopTimeout := tweetLoopTimeout s2;
         timelineLoopTimeout := Some (nextIdent s1);
         lastProcessTime := lastProcessTime s2; isProcessing := isProcessing s2;
         pending := pending s2; nextIdent := nextIdent s2;
         suspended := suspended s2 |}
  | None => s
  end.

(** The pending timer of identity [i] fires: it leaves the event loop and
    its callback runs, up to the first await. *)
Definition fire (i : nat) (now now' : Z) (rnd : Q) (s : State) : State :=
  match List.find (fun p => (ident p =? i)%nat) (pending s) with
  | Some p =>
      let s1 := clearTimeout (Some i) s in
      match callback (timer p) with
      | tweetLoop => generateNewTweetLoop rnd s1
      | timelineLoop => generateNewTimelineTweetLoop_enter now now' s1
      end
  | None => s
  end.

(** Line 764: [!!(this.tweetLoopTimeout || this.timelineLoopTimeout)]. *)
Definition isRunning (s : State) : bool :=
  match tweetLoopTimeout s with
  | Some _ => true
  | None => match timelineLoopTimeout s with
            | Some _ => true
            | None => false
            end
  end.

(** What happens to a posting client, in any order: [onReady] is called, a
    pending timer fires, the awaited call of a suspended check settles. *)
Inductive Event : Type :=
| OnReady (rnd : Q)
| Fire (i : nat) (now now' : Z) (rnd : Q)
| Settle (i : nat) (rnd : Q).

Definition act (e : Event) (s : State) : State :=
  match e with
  | OnReady rnd => onReady rnd s
  | Fire i now now' rnd => fire i now now' rnd s
  | Settle i rnd => generateNewTimelineTweetLoop_resume i rnd s
  end.

Definition run (trace : list Event) (s : State) : State :=
  fold_left (fun s e => act e s) trace s.

(** The value of [Math.random()] the event draws. *)
Definition draw (e : Event) : Q :=
  match e with
  | OnReady rnd | Fire _ _ _ rnd | Settle _ rnd => rnd
  end.

Definition isOnReady (e : Event) : bool :=
  match e with
  | OnReady _ => true
  | _ => false
  end.

(** The number of calls of [onReady] in a trace. *)
Definition onReadyCalls (trace : list Event) : nat :=
  length (List.filter isOnReady trace).

(** The pending timers of one loop. *)
Definition ofLoop (l : Loop) (p : Pending) : bool :=
  bool_decide (callback (timer p) = l).

Definition timersOf (l : Loop) (s : State) : list Pending :=
  List.filter (ofLoop l) (pending s).

Definition minutes (n : Z) : Z := (n * 60 * 1000)%Z.

(** Identities are given out once: those of the pending timers differ and
    lie below the next one. *)
Definition wellFormed (s : State) : Prop :=
  NoDup (map ident (pending s)) /\
  Forall (fun p => ident p < nextIdent s) (pending s).

(** One tweet timer is pending, the one [tweetLoopTimeout] holds, 25 to 35
    minutes long. *)
Definition tweetArmed (s : State) : Prop :=
  exists p, tweetLoopTimeout s = Some (ident p) /\
            timersOf tweetLoop s = [p] /\
            (minutes 25 <= delay (timer p) <= minutes 35)%Z.

(** The timeline checks still to come: pending timers and suspended
    checks, each of which arms a timer when it resumes. *)
Definition timelineChecks (s : State) : nat :=
  length (timersOf timelineLoop s) + length (suspended s).

(** A run in which [onReady] is called while a check is suspended: after
    the first [onReady], the first check fires past the cooldown and is
    suspended, [onReady] is called again, the check resumes. *)
Definition overlapped : list Event :=
  [Fire 1 (t0 + 60000) (t0 + 60000) (1 # 2); OnReady (1 # 2); Settle 0 (1 # 2)].

End PostLoops.

(** ** Runs of the realtime client *)
Module RealtimeRuns.

Import Realtime.

Definition topic : string := "realtime:public:new_tokens".

(** The connection is lost and comes back: the socket closes, the
    reconnect timer fires [connect], the new socket opens at time [now];
    [wsSend] is what [ws.send] does with the subscription request. *)
Definition reconnect (ev : Outcome unit * Z) (c : Client) : Client :=
  onopen (fst ev) (snd ev) (connect (onclose c)).

Definition reconnects (evs : list (Outcome unit * Z)) (c : Client) : Client :=
  fold_left (fun c ev => reconnect ev c) evs c.

(** The subscription request a reconnect puts on the wire. *)
Definition joined (ev : Outcome unit * Z) : option Frame :=
  match fst ev with
  | Resolved _ => Some (phx_join topic (snd ev))
  | Rejected _ => None
  end.

End RealtimeRuns.

(** ** search.ts *)
Module Search.

Import JSString.

(** A tweet as the engagement code reads it; [thread] holds the tweets of
    its conversation, of which only the id and the author are looked at. *)
Record ThreadTweet : Type := {
  thread_id : string;
  thread_username : string
}.

Record Tweet : Type := {
  id : string;
  username : string;
  text : string;
  inReplyToStatusId : option string;
  isRetweet : bool;
  thread : list ThreadTweet
}.

(** The fields of [TwitterSearchClient] the engagement loop writes. *)
Record Client : Type := {
  respondedTweets : gset string;
  isSearchTurn : bool;
  twitterUserId : option string
}.

Definition newClient : Client :=
  {| respondedTweets := ∅; isSearchTurn := false; twitterUserId := None |}.

(** A call of [sendTweet]: the tweet replied to and the text. *)
Record Reply : Type := {
  inReplyTo : Tweet;
  replyText : string
}.

(** [this.respondedTweets.add(id)] *)
Definition respond (i : string) (c : Client) : Client :=
  {| respondedTweets := {[i]} ∪ respondedTweets c;
     isSearchTurn := isSearchTurn c; twitterUserId := twitterUserId c |}.

(** Lines 151-156 and 439-443: the tweet answers a tweet of its thread that
    the agent wrote. [bot] is the TWITTER_USERNAME setting. *)
Definition isReplyToBot (bot : option string) (tweet : Tweet) : bool :=
  match inReplyToStatusId tweet with
  | Some parent =>
      truthy parent &&
      existsb (fun t => String.eqb (thread_id t) parent &&
                        Interaction.strictEq (thread_username t) bot)
              (thread tweet)
  | None => false
  end.

(** [array[i]] for a number [i]: [undefined] out of range. *)
Definition at_index {A : Type} (l : list A) (i : Z) : option A :=
  if (i <? 0)%Z then None else l !! Z.to_nat i.

(** *** engageWithFollowedAccounts *)

(** One run of what [engageWithFollowedAccounts] awaits, in program order.
    [getUserId] is what the queued task of lines 384-395 gives ([None] for
    [null]); [fetchProfileFollowing] is the user names of
    [following.profiles] (lines 402-413), rejected when the request or the
    read of [profiles] fails. *)
Record FollowedRun : Type := {
  getUserId : Outcome (option string);
  fetchProfileFollowing : Outcome (list string);
  f_cacheDir : Outcome unit;                    (* lines 416-418 *)
  f_fetchHomeTimeline : Outcome (list Tweet);
  f_writeTimeline : Outcome unit;               (* lines 424-427 *)
  random : Q;                                   (* line 456 *)
  f_ensureConnection : Outcome unit;
  f_buildConversationThread : Outcome unit;
  f_composeState : Outcome unit;
  f_generateMessageResponse : Outcome string;   (* the text of the content *)
  f_sendTweet : Outcome unit
}.

(** Lines 438-448: the filter of the home timeline. *)
Definition validTweet (bot : option string) (c : Client) (followedUsernames : list string)
    (tweet : Tweet) : bool :=
  negb (isReplyToBot bot tweet) &&
  negb (bool_decide (id tweet ∈ respondedTweets c)) &&
  negb (Interaction.strictEq (username tweet) bot) &&
  bool_decide (username tweet ∈ followedUsernames).

(** Lines 416-456: the tweet selected for a reply; a rejection is what the
    [catch] of line 550 receives. A random index outside the array selects
    [undefined], and the read of its [conversationId] throws. *)
Definition f_select (run : FollowedRun) (bot : option string)
    (followedUsernames : list string) (c : Client) : Outcome (option Tweet) :=
  _ ← f_cacheDir run;
  homeTimeline ← f_fetchHomeTimeline run;
  _ ← f_writeTimeline run;
  let validTweets := List.filter (validTweet bot c followedUsernames) homeTimeline in
  match validTweets with
  | [] => Resolved None
  | _ =>
      match at_index validTweets
              (Post.randomBelow (random run) (Z.of_nat (length validTweets))) with
      | Some selectedTweet => Resolved (Some selectedTweet)
      | None => Rejected (Some "Cannot read properties of undefined (reading 'conversationId')")
      end
  end.

(** Lines 460-521: the text generated for the selected tweet, [None] when
    it is empty. *)
Definition f_respond (run : FollowedRun) : Outcome (option string) :=
  _ ← f_ensureConnection run;
  _ ← f_buildConversationThread run;
  _ ← f_composeState run;
  responseText ← f_generateMessageResponse run;
  if negb (truthy responseText) then Resolved None else Resolved (Some responseText).

(** Lines 415-552: the [try] block with both handlers. The second component
    is the call of [sendTweet], if one was made; the tweet is recorded as
    answered when the call resolved. What follows the record (the debug
    file, the pause) changes nothing that is kept. *)
Definition f_try (run : FollowedRun) (bot : option string)
    (followedUsernames : list string) (c : Client) : Client * option Reply :=
  match f_select run bot followedUsernames c with
  | Resolved (Some selectedTweet) =>
      match f_respond run with
      | Resolved (Some responseText) =>
          let reply := {| inReplyTo := selectedTweet; replyText := responseText |} in
          match f_sendTweet run with
          | Resolved _ => (respond (id selectedTweet) c, Some reply)
          | Rejected _ => (c, Some reply)
          end
      | _ => (c, None)
      end
  | _ => (c, None)
  end.

(** Lines 382-553. *)
Definition engageWithFollowedAccounts (run : FollowedRun) (bot : option string)
    (c : Client) : Client * option Reply * Outcome unit :=
  match getUserId run with
  | Rejected m => (c, None, Rejected m)
  | Resolved userId =>
      if negb (truthy_opt userId) then (c, None, Resolved ())
      else
        let c1 := {| respondedTweets := respondedTweets c;
                     isSearchTurn := isSearchTurn c; twitterUserId := userId |} in
        match fetchProfileFollowing run with
        | Rejected m => (c1, None, Rejected m)
        | Resolved followedUsernames =>
            let '(c2, reply) := f_try run bot followedUsernames c1 in
            (c2, reply, Resolved ())
        end
  end.

(** *** engageWithSearchTerms *)

(** One run of what [engageWithSearchTerms] awaits, in program order.
    [s_setup] is lines 101-107 (the read of the character's topics, the
    cache directory); [shuffle] is the order the random sort of line 134
    leaves; [s_context] is lines 257-314 after the retweet lookup (image
    descriptions, whose failures are caught one by one, [composeState],
    [saveRequestMessage]); [s_afterSend] is lines 348-366. *)
Record SearchRun : Type := {
  s_setup : Outcome unit;
  fetchSearchTweets : Outcome (list Tweet);
  s_fetchHomeTimeline : Outcome (list Tweet);
  s_writeTimeline : Outcome unit;
  shuffle : list Tweet -> list Tweet;
  generateText : Outcome string;
  s_ensureConnection : Outcome unit;
  s_buildConversationThread : Outcome unit;
  getTweet : Outcome unit;
  s_context : Outcome unit;
  s_generateMessageResponse : Outcome string;
  s_sendTweet : Outcome unit;
  s_afterSend : Outcome unit
}.

(** Lines 178-180: the model's answer names the tweet when one of the two
    strings contains the other. *)
Definition named (tweetId : string) (tweet : Tweet) : bool :=
  includes (id tweet) tweetId || includes tweetId (id tweet).

(** Lines 101-135: the tweets put before the model. *)
Definition s_candidates (run : SearchRun) : Outcome (list Tweet * list Tweet) :=
  _ ← s_setup run;
  recentTweets ← fetchSearchTweets run;
  homeTimeline ← s_fetchHomeTimeline run;
  _ ← s_writeTimeline run;
  Resolved (firstn 20 (shuffle run recentTweets), homeTimeline).

(** Lines 137-202: the tweet selected for a reply. *)
Definition s_select (run : SearchRun) (bot : option string) : Outcome (option Tweet) :=
  '(slicedTweets, homeTimeline) ← s_candidates run;
  match slicedTweets with
  | [] => Resolved None
  | _ =>
      mostInterestingTweetResponse ← generateText run;
      let tweetId := trim mostInterestingTweetResponse in
      match List.find (named tweetId) (slicedTweets ++ homeTimeline) with
      | None => Resolved None
      | Some selectedTweet =>
          if Interaction.strictEq (username selectedTweet) bot then Resolved None
          else Resolved (Some selectedTweet)
      end
  end.

(** Lines 204-329: the text generated for the selected tweet, [None] when
    the tweet has no text or the generated text is empty. *)
Definition s_respond (run : SearchRun) (selectedTweet : Tweet) : Outcome (option string) :=
  _ ← s_ensureConnection run;
  _ ← s_buildConversationThread run;
  if negb (truthy (text selectedTweet)) then Resolved None
  else
    _ ← (if isRetweet selectedTweet then getTweet run else Resolved ());
    _ ← s_context run;
    responseText ← s_generateMessageResponse run;
    if negb (truthy responseText) then Resolved None else Resolved (Some responseText).

(** Lines 98-380: everything is inside the [try], so the call never
    rejects. The tweet is recorded as answered when [sendTweet] and the
    bookkeeping after it resolved. *)
Definition engageWithSearchTerms (run : SearchRun) (bot : option string)
    (c : Client) : Client * option Reply :=
  match s_select run bot with
  | Resolved (Some selectedTweet) =>
      match s_respond run selectedTweet with
      | Resolved (Some responseText) =>
          let reply := {| inReplyTo := selectedTweet; replyText := responseText |} in
          match (_ ← s_sendTweet run; s_afterSend run) with
          | Resolved _ => (respond (id selectedTweet) c, Some reply)
          | Rejected _ => (c, Some reply)
          end
      | _ => (c, None)
      end
  | _ => (c, None)
  end.

(** *** The engagement loop *)

Definition toggle (c : Client) : Client :=
  {| respondedTweets := respondedTweets c;
     isSearchTurn := negb (isSearchTurn c); twitterUserId := twitterUserId c |}.

(** What one round of the loop meets. *)
Record Round : Type := {
  search : SearchRun;
  followed : FollowedRun
}.

(** Lines 86-96: the mode is toggled after the awaited call returned, so
    not when it rejected. *)
Definition engage (r : Round) (bot : option string) (c : Client)
  : Client * option Reply * Outcome unit :=
  if isSearchTurn c then
    let '(c1, reply) := engageWithSearchTerms (search r) bot c in
    (toggle c1, reply, Resolved ())
  else
    match engageWithFollowedAccounts (followed r) bot c with
    | (c1, reply, Resolved _) => (toggle c1, reply, Resolved ())
    | (c1, reply, Rejected m) => (c1, reply, Rejected m)
    end.

(** Lines 78-84: the loop calls [engage] without awaiting it and arms the
    next round; the delay in milliseconds. *)
Definition startEngagementLoop_delay (rnd : Q) : Z :=
  ((Post.randomBelow rnd (6 - 4 + 1) + 6) * 60 * 1000)%Z.

(** The rounds of the loop, each run to its end before the next starts:
    the final client and the calls of [sendTweet] in order. *)
Fixpoint rounds (rs : list Round) (bot : option string) (c : Client)
  : Client * list Reply :=
  match rs with
  | [] => (c, [])
  | r :: rest =>
      let '(c1, reply, _) := engage r bot c in
      let '(c2, replies) := rounds rest bot c1 in
      (c2, option_list reply ++ replies)
  end.

(** Whether the followed-accounts call of a round rejects. *)
Definition followedRejects (run : FollowedRun) : bool :=
  match getUserId run with
  | Rejected _ => true
  | Resolved userId =>
      truthy_opt userId &&
      match fetchProfileFollowing run with
      | Rejected _ => true
      | Resolved _ => false
      end
  end.

(** Sample inputs: two tweets of followed accounts. *)
Definition tweetOf (i user body : string) : Tweet :=
  {| id := i; username := user; text := body; inReplyToStatusId := None;
     isRetweet := false; thread := [] |}.

Definition sampleFollowed (send : Outcome unit) : FollowedRun :=
  {| getUserId := Resolved (Some "7");
     fetchProfileFollowing := Resolved ["ann"; "bob"];
     f_cacheDir := Resolved ();
     f_fetchHomeTimeline := Resolved [tweetOf "101" "ann" "gm"; tweetOf "102" "zed" "hi"];
     f_writeTimeline := Resolved ();
     random := 1 # 2;
     f_ensureConnection := Resolved ();
     f_buildConversationThread := Resolved ();
     f_composeState := Resolved ();
     f_generateMessageResponse := Resolved "gm ann";
     f_sendTweet := send |}.

Definition sampleSearch (answer : string) : SearchRun :=
  {| s_setup := Resolved ();
     fetchSearchTweets := Resolved [tweetOf "201" "cat" "meow"; tweetOf "202" "dog" "woof"];
     s_fetchHomeTimeline := Resolved [tweetOf "101" "ann" "gm"];
     s_writeTimeline := Resolved ();
     shuffle := fun l => l;
     generateText := Resolved answer;
     s_ensureConnection := Resolved ();
     s_buildConversationThread := Resolved ();
     getTweet := Resolved ();
     s_context := Resolved ();
     s_generateMessageResponse := Resolved "nice one";
     s_sendTweet := Resolved ();
     s_afterSend := Resolved () |}.

Definition failingFollowed : FollowedRun :=
  {| getUserId := Resolved (Some "7");
     fetchProfileFollowing := Rejected (Some "rate limited");
     f_cacheDir := Resolved ();
     f_fetchHomeTimeline := Resolved [];
     f_writeTimeline := Resolved ();
     random := 0;
     f_ensureConnection := Resolved ();
     f_buildConversationThread := Resolved ();
     f_composeState := Resolved ();
     f_generateMessageResponse := Resolved "gm";
     f_sendTweet := Resolved () |}.

End Search.

(** ** plugin-image-generation: the GENERATE_IMAGE action *)
Module ImageGeneration.

Import JSString.

Definition isDigit (a : ascii) : bool :=
  let n := nat_of_ascii a in ((48 <=? n) && (n <=? 57))%nat.

(** [[0-9]*>] at the start of [s]: the number of characters it takes. *)
Fixpoint digitsClosed (s : string) : option nat :=
  match s with
  | EmptyString => None
  | String a rest =>
      if isDigit a then option_map S (digitsClosed rest)
      else if Ascii.eqb a ">" then Some 1%nat
      else None
  end.

(** [/<@[0-9]+>/] at the start of [s]: the length of the match. The digits
    are taken greedily; [>] is no digit, so giving some back cannot help. *)
Definition mentionAt (s : string) : option nat :=
  match s with
  | String "<" (String "@" (String d rest)) =>
      if isDigit d then option_map (fun n => 3 + n)%nat (digitsClosed rest) else None
  | _ => None
  end.

(** [s.replace(/<@[0-9]+>/g, '')]: matches are taken from the left and do
    not overlap; [skip] counts the characters of a match still to pass. *)
Fixpoint removeMentionsFrom (skip : nat) (s : string) : string :=
  match s with
  | EmptyString => EmptyString
  | String a rest =>
      match skip with
      | S k => removeMentionsFrom k rest
      | O =>
          match mentionAt s with
          | Some n => removeMentionsFrom (n - 1) rest
          | None => String a (removeMentionsFrom 0 rest)
          end
      end
  end.

(** Lines 111-113. *)
Definition cleanPrompt (text : string) : string := trim (removeMentionsFrom 0 text).

(** What [generateImage] resolves with. *)
Record ImageResult : Type := {
  success : bool;
  data : option (list string);
  error : option string
}.

(** What the handler returns: the flag, the text, and the image attached
    (the base64 string the buffer is made from). *)
Record HandlerResult : Type := {
  h_success : bool;
  h_text : string;
  h_attachment : option string
}.

Definition refused (text : string) : HandlerResult :=
  {| h_success := false; h_text := text; h_attachment := None |}.

(** Lines 135-158: from the result of [generateImage] to the image, or the
    message of the error thrown. *)
Definition imageOf (imageResult : ImageResult) : Outcome string :=
  match success imageResult, data imageResult with
  | true, Some (base64Image :: _) =>
      if negb (truthy base64Image) then Rejected (Some "No image data received")
      else Resolved base64Image
  | _, _ =>
      Rejected (Some (if truthy_opt (error imageResult)
                      then default EmptyString (error imageResult)
                      else "Failed to generate image"))
  end.

(** Lines 92-168. [messageText] is [message?.content?.text]; the second
    component is the prompt [generateImage] was called with, if it was
    called. An error without a message is printed as "undefined". *)
Definition handler (messageText : option string)
    (generateImage : string -> Outcome ImageResult) : HandlerResult * option string :=
  match messageText with
  | Some text =>
      if negb (truthy text) then (refused "No prompt provided for image generation", None)
      else
        let prompt := cleanPrompt text in
        if negb (truthy prompt)
        then (refused "Please provide a description of what you'd like me to generate", None)
        else
          match generateImage prompt ≫= imageOf with
          | Resolved base64Image =>
              ({| h_success := true; h_text := "Here's your generated image:";
                  h_attachment := Some base64Image |}, Some prompt)
          | Rejected m =>
              (refused ("Sorry, I couldn't generate that image. Error: "
                        +:+ default "undefined" m), Some prompt)
          end
  | None => (refused "No prompt provided for image generation", None)
  end.

(** A generator that draws whatever it is asked. *)
Definition draws (prompt : string) : Outcome ImageResult :=
  Resolved {| success := true; data := Some ["aGVsbG8="]; error := None |}.

End ImageGeneration.

(** ** index.ts: the interaction check *)
Module InteractionLoop.

Import JSString Interaction.

(** A JavaScript number as the check meets it: an integer or NaN. *)
Inductive Num : Type :=
| NaN
| Int (z : Z).

(** [!cursor] for [lastCheckedTweetId], a number or [null]. *)
Definition falsy (cursor : option Num) : bool :=
  match cursor with
  | Some (Int z) => (z =? 0)%Z
  | _ => true
  end.

(** [n > cursor]; a comparison with NaN is false. *)
Definition gt (n : Num) (cursor : option Num) : bool :=
  match n, cursor with
  | Int x, Some (Int y) => (y <? x)%Z
  | _, _ => false
  end.

(** A tweet of the search with the [thread] array it carries. *)
Record Candidate : Type := {
  tweet : Tweet;
  thread : list Tweet
}.

(** Lines 153-167: the filter of the candidates. *)
Definition keep (bot : string) (c : Candidate) : bool :=
  let isOwnThread :=
    match thread c with
    | t :: _ => String.eqb (username t) bot
    | [] => false
    end in
  isOwnThread ||
  includes (text (tweet c)) ("@" +:+ bot) ||
  (truthy_opt (inReplyToStatusId (tweet c)) &&
   existsb (fun t => String.eqb (username t) bot &&
                     strictEq (id t) (inReplyToStatusId (tweet c)))
           (thread c)).

Section Loop.

(** [parseInt] on the tweet ids, and what lines 176-204 do with a tweet
    ([ensureConnection], [buildConversationThread], [handleTweet]). *)
Variable parseInt : string -> Num.
Variable handle : Candidate -> Outcome unit.

(** Lines 170-224: the loop over the filtered tweets. The result is the
    new [lastCheckedTweetId], the tweets whose handling completed, and how
    the loop ended. The cache file receives each new value of the field;
    a failure to write it is caught. The field is threaded through the one
    check: this is the loop as it runs while no other check is in progress
    ([onReady] arms the next check without awaiting this one, lines
    119-125, and a check that overlaps would read and write the same
    field). *)
Fixpoint forEach (filteredTweets : list Candidate) (cursor : option Num)
  : option Num * list Candidate * Outcome unit :=
  match filteredTweets with
  | [] => (cursor, [], Resolved ())
  | c :: rest =>
      if falsy cursor || gt (parseInt (id (tweet c))) cursor then
        match handle c with
        | Resolved _ =>
            let '(cursor', handled, o) :=
              forEach rest (Some (parseInt (id (tweet c)))) in
            (cursor', c :: handled, o)
        | Rejected m => (cursor, [], Rejected m)
        end
      else forEach rest cursor
  end.

(** Lines 135-246. [candidates] is what lines 139-152 give: the tweets of
    the search, de-duplicated and sorted by id with [localeCompare]. Every
    failure ends the check and is logged. *)
Definition handleTwitterInteractions (candidates : Outcome (list Candidate))
    (bot : string) (cursor : option Num) : option Num * list Candidate :=
  match candidates with
  | Resolved sorted => fst (forEach (List.filter (keep bot) sorted) cursor)
  | Rejected _ => (cursor, [])
  end.

End Loop.

(** The number an id parses to, and whether it is a positive integer. *)
Definition num (parseInt : string -> Num) (c : Candidate) : Z :=
  match parseInt (id (tweet c)) with
  | Int z => z
  | NaN => 0
  end.

Definition numericId (parseInt : string -> Num) (c : Candidate) : bool :=
  match parseInt (id (tweet c)) with
  | Int z => (0 <? z)%Z
  | NaN => false
  end.

(** The value of the cursor as a bound: nothing for a falsy one. *)
Definition bound (cursor : option Num) : Z :=
  match cursor with
  | Some (Int z) => z
  | _ => 0
  end.

(** Sample inputs: ids of one decimal digit, and two mentions of the
    agent. *)
Definition digit (s : string) : Num :=
  match s with
  | String a EmptyString =>
      let n := nat_of_ascii a in
      if ((48 <=? n) && (n <=? 57))%nat then Int (Z.of_nat n - 48) else NaN
  | _ => NaN
  end.

Definition mention (i : string) : Candidate :=
  {| tweet := {| id := i; username := "ann"; text := "hello @agent"; userId := "u1";
                 conversationId := Some i; inReplyToStatusId := None |};
     thread := [] |}.

(** A handler that fails on the tweet with id "7". *)
Definition failsAt7 (c : Candidate) : Outcome unit :=
  if String.eqb (id (tweet c)) "7" then Rejected (Some "rate limited") else Resolved ().

End InteractionLoop.

(** * Properties *)

(** ** The in-flight guard of the token handler *)
Section TokenProcessingFacts.
Import TokenProcessing.

Lemma enter_in_flight update c k :
  tokenIdOf update = Some k -> k ∈ processingTokens c ->
  processTokenUpdate_enter update c = (c, None).
Proof.
  intros Hk Hin. unfold processTokenUpdate_enter. rewrite Hk.
  destruct (decide (k ∈ processingTokens c)); [reflexivity | contradiction].
Qed.

Lemma enter_free update c k :
  tokenIdOf update = Some k -> k ∉ processingTokens c ->
  processTokenUpdate_enter update c =
    ({| processingTokens := {[k]} ∪ processingTokens c; emitted := emitted c |}, Some k).
Proof.
  intros Hk Hin. unfold processTokenUpdate_enter. rewrite Hk.
  destruct (decide (k ∈ processingTokens c)); [contradiction | reflexivity].
Qed.

Lemma resume_tokens sc k c :
  processingTokens (processTokenUpdate_resume sc k c) = processingTokens c ∖ {[k]}.
Proof.
  unfold processTokenUpdate_resume.
  destruct (tryBlock sc k); reflexivity.
Qed.

(** Deleting the position of [k] in a duplicate-free list removes [k] and
    nothing else. *)
Lemma elem_of_middle_NoDup (l1 l2 : list string) k x :
  NoDup (l1 ++ k :: l2) -> x ∈ l1 ++ l2 <-> x ∈ l1 ++ k :: l2 /\ x ≠ k.
Proof.
  intros Hnd.
  apply NoDup_app in Hnd as (_ & Hdisj & Hnd2).
  apply NoDup_cons in Hnd2 as [Hk _].
  rewrite !elem_of_app, elem_of_cons.
  split.
  - intros [Hx | Hx].
    + split; [tauto |]. intros ->. apply (Hdisj k Hx). left.
    + split; [tauto |]. intros ->. contradiction.
  - intros [[Hx | [-> | Hx]] Hne]; [tauto | contradiction | tauto].
Qed.

Lemma elem_of_delete_NoDup (l : list string) i k x :
  NoDup l -> l !! i = Some k -> x ∈ delete i l <-> x ∈ l /\ x ≠ k.
Proof.
  intros Hnd Hi.
  pose proof (take_drop_middle l i k Hi) as Hl.
  rewrite delete_take_drop.
  rewrite <- Hl in Hnd.
  rewrite (elem_of_middle_NoDup _ _ k x Hnd), Hl. reflexivity.
Qed.

Lemma guard_inv_init : guard_inv init.
Proof.
  split; [constructor |]. intros k. simpl. set_solver.
Qed.

Lemma guard_inv_step s s' : guard_inv s -> step s s' -> guard_inv s'.
Proof.
  intros [Hnd Hiff] Hstep. destruct Hstep as [update s | i sc s [k Hi]].
  - unfold deliver, processTokenUpdate_enter.
    destruct (tokenIdOf update) as [k |]; [| by split].
    destruct (decide (k ∈ processingTokens (client s))) as [Hin | Hout]; [by split |].
    split; simpl.
    + apply NoDup_app. split; [exact Hnd |]. split.
      * intros x Hx Hx'. apply list_elem_of_singleton in Hx'. subst x.
        apply Hout, Hiff, Hx.
      * apply NoDup_singleton.
    + intros k'. rewrite elem_of_union, elem_of_singleton, elem_of_app,
        list_elem_of_singleton, Hiff. tauto.
  - unfold settle. rewrite Hi. split; cbn [client suspended].
    + eapply sublist_NoDup; [exact Hnd | apply sublist_delete].
    + intros k'. rewrite resume_tokens, elem_of_difference, elem_of_singleton,
        Hiff, (elem_of_delete_NoDup _ i k) by assumption. tauto.
Qed.

Lemma reachable_guard_inv s : reachable s -> guard_inv s.
Proof.
  unfold reachable. intros H.
  refine (rtc_ind_r (R := step) (fun s => guard_inv s) init guard_inv_init _ s H).
  intros y z _ Hstep IH. exact (guard_inv_step y z IH Hstep).
Qed.

(** C1. In every state the event loop can reach, no key has two suspended
    handler bodies. A delivery whose key has a body in flight finds the key
    in [processingTokens] and returns at once from the synchronous prefix,
    with the client unchanged and no body admitted: the system state is the
    one before the delivery. A delivery whose key is free is admitted: its
    key joins [processingTokens] and its body is the one suspended for it. *)
Theorem redelivery_in_flight_is_dropped (s : Sys) :
  reachable s ->
  NoDup (suspended s) /\
  forall update k,
    tokenIdOf update = Some k ->
    (k ∈ suspended s ->
       k ∈ processingTokens (client s) /\
       processTokenUpdate_enter update (client s) = (client s, None) /\
       deliver update s = s) /\
    (k ∉ suspended s ->
       suspended (deliver update s) = suspended s ++ [k] /\
       k ∈ processingTokens (client (deliver update s))).
Proof.
  intros Hr. destruct (reachable_guard_inv s Hr) as [Hnd Hiff].
  split; [exact Hnd |].
  intros update k Hk. split; intros Hin.
  - apply Hiff in Hin. split; [exact Hin |].
    pose proof (enter_in_flight update (client s) k Hk Hin) as He.
    split; [exact He |].
    unfold deliver. rewrite He. destruct s; reflexivity.
  - assert (Hfree : k ∉ processingTokens (client s))
      by (intros H; apply Hin, Hiff, H).
    unfold deliver. rewrite (enter_free update (client s) k Hk Hfree).
    split; [reflexivity |]. cbn.
    apply elem_of_union_l, elem_of_singleton. reflexivity.
Qed.

(** The second of two deliveries of "tok-42" changes nothing. *)
Lemma redelivery_in_flight_is_dropped_witness :
  suspended (deliver update_tok init) = ["tok-42"] /\
  deliver update_tok (deliver update_tok init) = deliver update_tok init.
Proof.
  assert (Hr : reachable (deliver update_tok init))
    by (apply rtc_once; constructor).
  split; [reflexivity |].
  destruct (redelivery_in_flight_is_dropped _ Hr) as [_ Hre].
  destruct (Hre update_tok "tok-42" eq_refl) as [Hdrop _].
  apply Hdrop. vm_compute. left.
Defined.

(** C9. When a suspended handler body runs to its end, whatever its
    collaborators did, it emits one event (processingComplete if the [try]
    block resolved, processingError if anything in it rejected) and its key
    is no longer in [processingTokens]; the in-flight set is again exactly
    the set of keys with a suspended body, so it is empty when none is. *)
Theorem guard_released_on_completion (s : Sys) (i : nat) (k : string) (sc : Script) :
  reachable s ->
  suspended s !! i = Some k ->
  (k ∉ processingTokens (client (settle i sc s))) /\
  (k ∉ suspended (settle i sc s)) /\
  (forall k', k' ∈ processingTokens (client (settle i sc s))
              <-> k' ∈ suspended (settle i sc s)) /\
  emitted (client (settle i sc s)) =
    emitted (client s) ++
    [match tryBlock sc k with
     | Resolved memoryId => processingComplete k memoryId
     | Rejected m => processingError k (messageOr m)
     end].
Proof.
  intros Hr Hi.
  assert (Hr' : reachable (settle i sc s)).
  { eapply rtc_r; [exact Hr |]. constructor. eauto. }
  destruct (reachable_guard_inv _ Hr') as [_ Hiff'].
  assert (Hout : k ∉ processingTokens (client (settle i sc s))).
  { unfold settle. rewrite Hi. cbn [client]. rewrite resume_tokens.
    intros [_ Hne]%elem_of_difference. apply Hne, elem_of_singleton. reflexivity. }
  split; [exact Hout |].
  split; [intros Hin; apply Hout, Hiff', Hin |].
  split; [exact Hiff' |].
  unfold settle. rewrite Hi. cbn [client]. unfold processTokenUpdate_resume.
  destruct (tryBlock sc k); reflexivity.
Qed.

(** The body admitted for "tok-42" ends with the model call rejected, or
    with everything resolved: either way the set is empty again. *)
Lemma guard_released_on_completion_witness :
  processingTokens (client (settle 0 script_model_fails (deliver update_tok init))) = ∅ /\
  emitted (client (settle 0 script_model_fails (deliver update_tok init))) =
    [processingError "tok-42" "rate limited"] /\
  emitted (client (settle 0 script_ok (deliver update_tok init))) =
    [processingComplete "tok-42" "token-tok-42-analysis"].
Proof.
  assert (Hr : reachable (deliver update_tok init))
    by (apply rtc_once; constructor).
  pose proof (guard_released_on_completion _ 0 "tok-42" script_model_fails Hr eq_refl)
    as (_ & _ & Hiff & Hem).
  pose proof (guard_released_on_completion _ 0 "tok-42" script_ok Hr eq_refl)
    as (_ & _ & _ & Hem').
  split; [| split; [exact Hem | exact Hem']].
  apply set_eq. intros k'. rewrite Hiff.
  change (suspended (settle 0 script_model_fails (deliver update_tok init)))
    with (@nil string).
  rewrite elem_of_nil. split; [tauto | apply not_elem_of_empty].
Defined.

End TokenProcessingFacts.

(** ** The realtime channel *)
Section RealtimeFacts.
Import Realtime.

Lemma strictEqStr_true v lit : strictEqStr v lit = true -> v = JStr lit.
Proof.
  destruct v; simpl; try discriminate.
  intros H. apply String.eqb_eq in H. congruence.
Qed.

Lemma optChain_resolves v k : exists w, optChain v k = Resolved w.
Proof.
  unfold optChain. destruct v; simpl; eauto.
Qed.

Lemma getProp_truthy v k : js_truthy v = true -> exists w, getProp v k = Resolved w.
Proof.
  destruct v; simpl; try discriminate; eauto.
Qed.

Lemma getProp_optChain v k w : getProp v k = Resolved w -> optChain v k = Resolved w.
Proof.
  destruct v; simpl; try discriminate; auto.
Qed.

(** Whatever the [try] block emits passed the filter of line 89. *)
Lemma onmessage_try_emits data evs :
  onmessage_try data = Resolved evs -> evs <> [] ->
  changeType data = JStr "UPDATE" /\ changeStage data = JStr "completed" /\
  exists u, evs = [u].
Proof.
  unfold onmessage_try, changeType, changeStage, changeOf.
  destruct (getProp data "event") as [ev |] eqn:Eev; cbn; [| discriminate].
  destruct (strictEqStr ev "postgres_changes"); [| intros [= <-]; congruence].
  destruct (getProp data "payload") as [payload |] eqn:Epl; cbn; [| discriminate].
  destruct (optChain_resolves payload "data") as [change Ech]. rewrite Ech. cbn.
  destruct (js_truthy change) eqn:Etr; cbn; [| intros [= <-]; congruence].
  destruct (getProp_truthy change "type" Etr) as [ty Ety].
  destruct (getProp_truthy change "table" Etr) as [tb Etb].
  destruct (getProp_truthy change "schema" Etr) as [sch Esch].
  destruct (getProp_truthy change "record" Etr) as [rec Erec].
  rewrite Ety, Etb, Esch, Erec. cbn.
  rewrite (getProp_optChain _ _ _ Ety), (getProp_optChain _ _ _ Erec). cbn.
  destruct (optChain_resolves rec "processing_stage") as [stage Est]. rewrite Est. cbn.
  destruct (strictEqStr ty "UPDATE") eqn:Eu; cbn; [| intros [= <-]; congruence].
  destruct (strictEqStr stage "completed") eqn:Ec; cbn; [| intros [= <-]; congruence].
  apply strictEqStr_true in Eu, Ec. subst ty stage.
  destruct (getProp change "old_record"); cbn; [| discriminate].
  destruct (getProp change "commit_timestamp"); cbn; [| discriminate].
  destruct (getProp rec "id"); cbn; [| discriminate].
  intros [= <-] _. eauto.
Qed.

(** C6. A frame makes [onmessage] emit a tokenUpdate only if it parsed to an
    envelope whose change has [type === 'UPDATE'] and whose record has
    [processing_stage === 'completed'], and then exactly one is emitted; an
    envelope whose record's processing_stage is anything else emits none. *)
Theorem only_completed_updates_are_forwarded (parsed : Outcome JSValue) :
  (forall u, u ∈ onmessage parsed ->
     exists data, parsed = Resolved data /\
       changeType data = JStr "UPDATE" /\
       changeStage data = JStr "completed" /\
       onmessage parsed = [u]) /\
  (forall data, parsed = Resolved data ->
     changeStage data <> JStr "completed" -> onmessage parsed = []).
Proof.
  split.
  - intros u Hu. destruct parsed as [data | m]; [| inversion Hu].
    exists data. unfold onmessage in *. cbn in *.
    destruct (onmessage_try data) as [evs |] eqn:E; [| inversion Hu].
    destruct (onmessage_try_emits data evs E) as (Ht & Hs & u' & ->).
    { intros ->. inversion Hu. }
    apply list_elem_of_singleton in Hu. subst u'. auto.
  - intros data -> Hne. unfold onmessage. cbn.
    destruct (onmessage_try data) as [evs |] eqn:E; [| reflexivity].
    destruct evs as [| u evs]; [reflexivity |].
    destruct (onmessage_try_emits data (u :: evs) E) as (_ & Hs & _); congruence.
Qed.

(** A completed UPDATE is forwarded once; the same change at stage
    "analyzing" is not. *)
Lemma only_completed_updates_are_forwarded_witness :
  changeType (envelope "UPDATE" "completed") = JStr "UPDATE" /\
  changeStage (envelope "UPDATE" "completed") = JStr "completed" /\
  length (onmessage (Resolved (envelope "UPDATE" "completed"))) = 1 /\
  onmessage (Resolved (envelope "UPDATE" "analyzing")) = [].
Proof.
  destruct (only_completed_updates_are_forwarded
              (Resolved (envelope "UPDATE" "completed"))) as [Hfwd _].
  destruct (Hfwd {| record := JObj [("id", JStr "42");
                                    ("processing_stage", JStr "completed")];
                    oldRecord := JObj [("id", JStr "42");
                                       ("processing_stage", JStr "analyzing")];
                    timestamp := JStr "2024-11-20T10:00:00Z" |})
    as (data & Hd & Ht & Hs & Hone); [left |].
  injection Hd as <-.
  split; [exact Ht |]. split; [exact Hs |]. split; [rewrite Hone; reflexivity |].
  apply (proj2 (only_completed_updates_are_forwarded
                  (Resolved (envelope "UPDATE" "analyzing")))
           _ eq_refl).
  discriminate.
Defined.





End RealtimeFacts.

(** ** The interaction client: thread resolution *)
Section ThreadFacts.
Import Interaction.

Lemma thread_inv_start store : thread_inv (start store).
Proof.
  split; [constructor |]. intros t Ht. inversion Ht.
Qed.

Lemma rememberTweet_thread c t st : thread (rememberTweet c t st) = thread st.
Proof. unfold rememberTweet. case_decide; reflexivity. Qed.

Lemma rememberTweet_visited c t st : visited (rememberTweet c t st) = visited st.
Proof. unfold rememberTweet. case_decide; reflexivity. Qed.

Lemma rememberTweet_fetches c t st : fetches (rememberTweet c t st) = fetches st.
Proof. unfold rememberTweet. case_decide; reflexivity. Qed.

Lemma thread_inv_remember c t st : thread_inv st -> thread_inv (rememberTweet c t st).
Proof.
  unfold thread_inv. rewrite rememberTweet_thread, rememberTweet_visited. auto.
Qed.

Lemma thread_inv_accept t st :
  thread_inv st -> id t ∉ visited st -> thread_inv (accept t st).
Proof.
  intros [Hnd Hvis] Hfresh. split; cbn.
  - apply NoDup_cons. split; [| exact Hnd].
    intros Hin. apply list_elem_of_fmap in Hin as (t' & Heq & Hin).
    apply Hfresh. rewrite Heq. apply Hvis, Hin.
  - intros t' Ht'. apply elem_of_cons in Ht' as [-> | Ht'].
    + apply elem_of_union_l, elem_of_singleton. reflexivity.
    + apply elem_of_union_r, Hvis, Ht'.
Qed.

Lemma thread_inv_logFetch p st : thread_inv st -> thread_inv (logFetch p st).
Proof. intros H. exact H. Qed.

(** [processThread] keeps the invariant, whatever its receiver. *)
Lemma processThread_inv maxReplies this t depth st :
  thread_inv st -> thread_inv (fst (processThread maxReplies this t depth st)).
Proof.
  funelim (processThread maxReplies this t depth st); intros Hinv; cbn; auto.
  cbv zeta in *.
  pose proof (thread_inv_remember c currentTweet st Hinv) as Hinv1.
  destruct (decide (id currentTweet ∈ visited (rememberTweet c currentTweet st)))
    as [Hin | Hout]; cbn; [exact Hinv1 |].
  pose proof (thread_inv_accept currentTweet _ Hinv1 Hout) as Hinv2.
  destruct (inReplyToStatusId currentTweet) as [parentId |]; [| exact Hinv2].
  destruct (truthy parentId); [| exact Hinv2].
  destruct (getTweet c parentId) as [parentTweet | | m]; cbn;
    try exact (thread_inv_logFetch parentId _ Hinv2).
  match goal with
  | IH : context [processThread _ None _ _ _] |- _ =>
      apply (IH Hout parentId parentTweet)
  end.
  exact (thread_inv_logFetch parentId _ Hinv2).
Qed.

(** A call at depth [depth] makes at most [maxReplies - depth] fetches. *)
Lemma processThread_fetches maxReplies this t depth st :
  length (fetches (fst (processThread maxReplies this t depth st)))
  <= length (fetches st) + (maxReplies - depth).
Proof.
  funelim (processThread maxReplies this t depth st); cbn; try lia.
  cbv zeta in *.
  destruct (decide (id currentTweet ∈ visited (rememberTweet c currentTweet st)))
    as [Hin | Hout]; cbn; [rewrite rememberTweet_fetches; lia |].
  destruct (inReplyToStatusId currentTweet) as [parentId |];
    [| cbn; rewrite rememberTweet_fetches; lia].
  destruct (truthy parentId); [| cbn; rewrite rememberTweet_fetches; lia].
  destruct (getTweet c parentId) as [parentTweet | | m]; cbn;
    try (rewrite length_app, rememberTweet_fetches; cbn; lia).
  match goal with
  | IH : context [processThread _ None _ _ _] |- _ =>
      specialize (IH Hout parentId parentTweet)
  end.
  cbn in *. rewrite length_app, rememberTweet_fetches in *. cbn in *. lia.
Qed.

(** Called on the client, [processThread] resolves: the failures of the
    fetch and of the inner call are caught. *)
Lemma processThread_bound_resolves maxReplies c t depth st :
  snd (processThread maxReplies (Some c) t depth st) = Resolved ().
Proof.
  simp processThread.
  destruct (le_lt_dec maxReplies depth); cbn; [reflexivity |].
  destruct (decide _); [reflexivity |].
  destruct (inReplyToStatusId t) as [parentId |]; [| reflexivity].
  destruct (truthy parentId); [| reflexivity].
  destruct (getTweet c parentId); reflexivity.
Qed.

(** The inner call of line 568 has no receiver: below the depth limit it
    throws before it touches anything. *)
Lemma processThread_unbound maxReplies t depth st :
  fst (processThread maxReplies None t depth st) = st.
Proof.
  simp processThread. destruct (le_lt_dec maxReplies depth); reflexivity.
Qed.

(** C2. [buildConversationThread] is a total function of the leaf, the limit
    and the fetch graph, cyclic or not; it resolves with the thread it
    built, after at most [maxReplies + 1] calls of [getTweet], and no id
    occurs twice in that thread. *)
Theorem thread_resolution_terminates_without_repeats
    (c : Client) (store : gset string) (tweet : Tweet) (maxReplies : nat) :
  exists posts,
    snd (buildConversationThread c store tweet maxReplies) = Resolved posts /\
    posts = thread (fst (buildConversationThread c store tweet maxReplies)) /\
    length (fetches (fst (buildConversationThread c store tweet maxReplies)))
      <= maxReplies + 1 /\
    NoDup (map Interaction.id posts).
Proof.
  unfold buildConversationThread.
  pose proof (processThread_bound_resolves maxReplies c tweet 0 (start store)) as Hres.
  pose proof (processThread_fetches maxReplies (Some c) tweet 0 (start store)) as Hf.
  pose proof (processThread_inv maxReplies (Some c) tweet 0 (start store)
                (thread_inv_start store)) as [Hnd _].
  destruct (processThread maxReplies (Some c) tweet 0 (start store)) as [st o].
  cbn in *. subst o. cbn.
  exists (thread st). repeat split; [lia | exact Hnd].
Qed.

(** The cycle A -> B -> A and the chain A <- B <- C, resolved with the
    default limit of 10. *)
Example cycle_resolves :
  resolvedThread (buildConversationThread cycleClient ∅ cycleA 10) = Some [cycleA].
Proof. reflexivity. Qed.

(** With a limit of 1 the leaf alone passes the depth guard of line 489. *)
Lemma limit_one_keeps_the_leaf c store tweet :
  resolvedThread (buildConversationThread c store tweet 1) = Some [tweet].
Proof.
  unfold resolvedThread, buildConversationThread.
  simp processThread. cbn.
  rewrite rememberTweet_visited. cbn.
  destruct (decide (id tweet ∈ ∅)) as [Hin | _]; [by apply not_elem_of_empty in Hin |].
  destruct (inReplyToStatusId tweet) as [parentId |]; cbn;
    [| by rewrite rememberTweet_thread].
  destruct (truthy parentId); cbn; [| by rewrite rememberTweet_thread].
  destruct (getTweet c parentId); cbn; try by rewrite rememberTweet_thread.
  rewrite processThread_unbound. cbn. by rewrite rememberTweet_thread.
Qed.

(** C3, as the code has it: resolving the chain A <- B <- C from C with a
    limit of 1 yields [C]; the limit counts the posts of the thread, the
    leaf included, for any leaf and any fetch graph. *)
Theorem chain_resolved_with_limit_1 :
  resolvedThread (buildConversationThread chainClient ∅ tweetC 1) = Some [tweetC] /\
  forall c store leaf,
    resolvedThread (buildConversationThread c store leaf 1) = Some [leaf].
Proof.
  split; [apply limit_one_keeps_the_leaf | exact limit_one_keeps_the_leaf].
Qed.

(** C3, as stated, fails: from C with a limit of 1 the thread is [C], not
    [B, C]. *)
Lemma chain_limit_1_is_not_B_C :
  resolvedThread (buildConversationThread chainClient ∅ tweetC 1) = Some [tweetC] /\
  resolvedThread (buildConversationThread chainClient ∅ tweetC 1)
    <> Some [tweetB; tweetC].
Proof.
  split; [reflexivity |]. vm_compute. discriminate.
Qed.

(** With a limit of 5 the same chain yields [C] as well: the parent B is
    fetched, and the inner call made for it throws on its missing receiver
    before B is added. *)
Example chain_limit_5 :
  resolvedThread (buildConversationThread chainClient ∅ tweetC 5) = Some [tweetC] /\
  fetches (fst (buildConversationThread chainClient ∅ tweetC 5)) = ["B"].
Proof. split; reflexivity. Qed.

End ThreadFacts.

(** ** The interaction client: the decision to respond *)
Section DecisionFacts.
Import Interaction.

Lemma strictEq_true a b : strictEq a b = true <-> b = Some a.
Proof.
  destruct b as [s |]; cbn; [| split; discriminate].
  rewrite String.eqb_eq. split; congruence.
Qed.

(** What line 258 computes. *)
Lemma isInBotThread_true env tweet thread :
  isInBotThread env tweet thread = true <->
  exists t, t ∈ thread /\ username t = TWITTER_USERNAME env /\
            (inReplyToStatusId tweet = Some (id t) \/ conversationId tweet = Some (id t)).
Proof.
  unfold isInBotThread. rewrite existsb_exists. split.
  - intros (t & Hin & H). exists t.
    apply andb_true_iff in H as [Hu Hid].
    apply String.eqb_eq in Hu. apply orb_true_iff in Hid.
    rewrite !strictEq_true in Hid. rewrite list_elem_of_In. auto.
  - intros (t & Hin & Hu & Hid). exists t.
    rewrite <- list_elem_of_In. split; [exact Hin |].
    apply andb_true_iff. split; [apply String.eqb_eq, Hu |].
    apply orb_true_iff. rewrite !strictEq_true. exact Hid.
Qed.

(** C5. For the agent's own post with no parent and a thread of one
    element, [handleTweet] returns at line 268 without a verdict and without
    a reply, having called no collaborator: the judgment call is not made. *)
Theorem own_standalone_post_is_skipped
    (env : Env) (tweet : Tweet) (messageText : string) (thread : list Tweet) :
  username tweet = TWITTER_USERNAME env ->
  inReplyToStatusId tweet = None ->
  length thread = 1 ->
  handleTweet env tweet messageText thread = (Skipped, []) /\
  generateShouldRespond ∉ snd (handleTweet env tweet messageText thread).
Proof.
  intros Hu Hp Hl.
  assert (H : handleTweet env tweet messageText thread = (Skipped, [])).
  { unfold handleTweet, isStandalone.
    rewrite Hu, Hp, Hl, String.eqb_refl. reflexivity. }
  rewrite H. split; [reflexivity | apply not_elem_of_nil].
Qed.

(** The agent's own post "shipping today", alone in its thread. *)
Lemma own_standalone_post_is_skipped_witness :
  handleTweet (botEnv (Some "RESPOND")) ownPost (text ownPost) [ownPost] = (Skipped, []).
Proof.
  exact (proj1 (own_standalone_post_is_skipped (botEnv (Some "RESPOND")) ownPost
                  (text ownPost) [ownPost] eq_refl eq_refl eq_refl)).
Defined.

(** C4, as the code has it. Take a post with non-empty text that is not the
    agent's own parentless post in a one-element thread, and a thread with
    an element authored by the agent whose id is the post's parent id or
    its conversation id. If the lower-cased text does not contain "stop",
    [handleTweet] goes on to generate the reply and the judgment call is not
    made. If it does, the judgment call is made and decides: on "RESPOND"
    the reply is generated, any other answer is returned as the verdict. *)
Theorem own_thread_forces_response
    (env : Env) (tweet : Tweet) (messageText : string) (thread : list Tweet) :
  (exists t, t ∈ thread /\ username t = TWITTER_USERNAME env /\
     (inReplyToStatusId tweet = Some (id t) \/ conversationId tweet = Some (id t))) ->
  isStandalone env tweet thread = false ->
  truthy messageText = true ->
  (JSString.includes (JSString.toLowerCase messageText) "stop" = false ->
     fst (handleTweet env tweet messageText thread) = Proceeds /\
     generateShouldRespond ∉ snd (handleTweet env tweet messageText thread)) /\
  (JSString.includes (JSString.toLowerCase messageText) "stop" = true ->
     generateShouldRespond ∈ snd (handleTweet env tweet messageText thread) /\
     fst (handleTweet env tweet messageText thread) =
       if strictEq "RESPOND" (shouldRespond env) then Proceeds
       else Returned "Response Decision:" (shouldRespond env)).
Proof.
  intros Hbot Hst Htxt. apply isInBotThread_true in Hbot.
  unfold handleTweet. rewrite Hst, Htxt, Hbot. cbn [negb andb].
  split; intros Hstop; rewrite Hstop; cbn [negb].
  - split; [reflexivity |]. cbn [snd].
    destruct (homeTimelineCached env), (tweetExists env); cbn;
      rewrite ?elem_of_cons, elem_of_nil; intuition discriminate.
  - destruct (strictEq "RESPOND" (shouldRespond env)); cbn [negb fst snd];
      (split; [| reflexivity]);
      rewrite elem_of_app, list_elem_of_singleton; right; reflexivity.
Qed.

(** M replies to the agent's post O: without "stop" the reply is generated
    unasked; with "please STOP" the judgment call decides. *)
Lemma own_thread_forces_response_witness :
  (fst (handleTweet (botEnv (Some "IGNORE")) postM (text postM) [postR; postO; postM])
     = Proceeds /\
   generateShouldRespond
     ∉ snd (handleTweet (botEnv (Some "IGNORE")) postM (text postM) [postR; postO; postM])) /\
  (generateShouldRespond
     ∈ snd (handleTweet (botEnv (Some "IGNORE")) postM "please STOP" [postR; postO; postM]) /\
   fst (handleTweet (botEnv (Some "IGNORE")) postM "please STOP" [postR; postO; postM])
     = Returned "Response Decision:" (Some "IGNORE")).
Proof.
  assert (Hbot : exists t, t ∈ [postR; postO; postM] /\
            username t = TWITTER_USERNAME (botEnv (Some "IGNORE")) /\
            (inReplyToStatusId postM = Some (id t) \/ conversationId postM = Some (id t))).
  { exists postO. split; [right; left |]. split; [reflexivity | left; reflexivity]. }
  pose proof (own_thread_forces_response (botEnv (Some "IGNORE")) postM (text postM)
                [postR; postO; postM] Hbot eq_refl eq_refl) as [Hgo _].
  pose proof (own_thread_forces_response (botEnv (Some "IGNORE")) postM "please STOP"
                [postR; postO; postM] Hbot eq_refl eq_refl) as [_ Hstop].
  split; [exact (Hgo eq_refl) | exact (Hstop eq_refl)].
Defined.

(** C4, as stated, fails: in R <- O <- M <- P the agent wrote O, an ancestor
    of P that is neither P's parent nor the conversation root; P's text has
    no "stop"; yet the judgment call is made, and its answer IGNORE is what
    [handleTweet] returns. *)
Lemma ancestor_by_agent_does_not_force_response :
  postO ∈ [postR; postO; postM; postP] /\
  username postO = TWITTER_USERNAME (botEnv (Some "IGNORE")) /\
  ancestorOf postO postP /\
  JSString.includes (JSString.toLowerCase (text postP)) "stop" = false /\
  handleTweet (botEnv (Some "IGNORE")) postP (text postP) [postR; postO; postM; postP]
    = (Returned "Response Decision:" (Some "IGNORE"),
       [composeState; getMemoryById "103-agent-1"; generateShouldRespond]).
Proof.
  split; [right; left |]. split; [reflexivity |].
  split; [| split; reflexivity].
  apply (ancestor_step postO postM postP); [apply ancestor_parent |]; reflexivity.
Qed.

End DecisionFacts.

(** ** The posting client *)
Section PostFacts.
Import Post.

(** A text within the limit is returned as it is. *)
Lemma truncate_within_limit text :
  (Z.of_nat (String.length text) <= MAX_TWEET_LENGTH)%Z ->
  truncateToCompleteSentence text = text.
Proof.
  intros H. unfold truncateToCompleteSentence.
  apply Z.leb_le in H. rewrite H. reflexivity.
Qed.

(** C10, at the failing inputs. A text of 300 letters without period or
    space comes back 302 characters long: [lastIndexOf] answers -1, so
    [slice(0, -1)] drops one character and "..." is appended. A period at
    index 240 is kept, which makes 241 characters; a cut at a space at
    index 239 plus "..." makes 242. All three exceed MAX_TWEET_LENGTH. *)
Theorem truncation_exceeds_limit :
  String.length longWord = 300 /\
  truncateToCompleteSentence longWord = JSString.repeat "a" 299 +:+ "..." /\
  String.length (truncateToCompleteSentence longWord) = 302 /\
  String.length (truncateToCompleteSentence longSentence) = 241 /\
  String.length (truncateToCompleteSentence longWords) = 242 /\
  (MAX_TWEET_LENGTH < 241)%Z.
Proof. vm_compute. repeat split. Qed.

(** [Math.floor(Math.random() * n)] lies in [0, n - 1]. *)
Lemma randomBelow_range rnd n :
  (0 < n)%Z -> (0 <= rnd)%Q -> (rnd < 1)%Q ->
  (0 <= randomBelow rnd n <= n - 1)%Z.
Proof.
  intros Hn H0 H1. unfold randomBelow. split.
  - change 0%Z with (Qfloor 0). apply Qfloor_resp_le.
    apply Qmult_le_0_compat; [exact H0 |].
    change 0%Q with (inject_Z 0). rewrite <- Zle_Qle. lia.
  - assert (Hlt : (rnd * inject_Z n < inject_Z n)%Q).
    { rewrite <- (Qmult_1_l (inject_Z n)) at 2.
      apply Qmult_lt_compat_r; [| exact H1].
      change 0%Q with (inject_Z 0). rewrite <- Zlt_Qlt. exact Hn. }
    pose proof (Qfloor_le (rnd * inject_Z n)) as Hfl.
    pose proof (Qle_lt_trans _ _ _ Hfl Hlt) as H.
    rewrite <- Zlt_Qlt in H. lia.
Qed.

(** A run that passes the cooldown arms the next one, 15 to 30 minutes
    ahead, whatever [processTweetActions] did. *)
Lemma timeline_run_rearms now now' rnd c :
  (MIN_PROCESS_INTERVAL <= now - lastProcessTime c)%Z ->
  (0 <= rnd)%Q -> (rnd < 1)%Q ->
  exists t, timelineLoopTimeout (generateNewTimelineTweetLoop now now' rnd c) = Some t /\
            t ∈ pending (generateNewTimelineTweetLoop now now' rnd c) /\
            callback t = timelineLoop /\
            (15 * 60 * 1000 <= delay t <= 30 * 60 * 1000)%Z.
Proof.
  intros Hcool H0 H1. unfold generateNewTimelineTweetLoop.
  apply Z.ltb_ge in Hcool. rewrite Hcool. cbn.
  eexists. split; [reflexivity |].
  split; [apply elem_of_app; right; left |].
  split; [reflexivity |]. cbn. unfold randomTimelineMinutes.
  pose proof (randomBelow_range rnd (30 - 15 + 1) eq_refl H0 H1). lia.
Qed.

(** A run inside the cooldown returns at line 383 and changes nothing: the
    timer that started it is spent and no other is armed. *)
Lemma timeline_skip_changes_nothing now now' rnd c :
  (now - lastProcessTime c < MIN_PROCESS_INTERVAL)%Z ->
  generateNewTimelineTweetLoop now now' rnd c = c.
Proof.
  intros H. unfold generateNewTimelineTweetLoop.
  apply Z.ltb_lt in H. rewrite H. reflexivity.
Qed.

(** C7, at the failing input. After the first timeline check stamped
    [lastProcessTime], [onReady] arms the check again one minute ahead; that
    check runs two minutes after the stamp, inside the 15-minute cooldown,
    and returns without arming a timer: no timeline check is pending any
    more, only the tweet loop is. *)
Theorem skipped_timeline_run_is_not_rearmed :
  timelineArmed rebooted = true /\
  (t0 + 180000 - lastProcessTime rebooted < MIN_PROCESS_INTERVAL)%Z /\
  timelineArmed secondRun = false /\
  pending secondRun = [{| callback := tweetLoop; delay := 1800000 |}].
Proof. vm_compute. repeat split. Qed.

(** The interaction check is re-armed 2 to 12 minutes ahead, not 2 to 5 as
    its comment says: a draw of 0.9 gives 11 minutes. *)
Example interaction_delay_11_minutes :
  Interaction.handleTwitterInteractionsLoop_delay (9 # 10) = (11 * 60 * 1000)%Z.
Proof. reflexivity. Qed.

End PostFacts.

(** ** The token handler: outcomes and accounting *)
Section TokenOutcomeFacts.
Import TokenProcessing TokenRuns.

Lemma parseAnalysis_resolved sc resp a :
  parseAnalysis sc resp = Resolved a <->
  JSON_parse sc resp = Resolved a /\
  truthy (summary a) = true /\ metrics a = true /\
  insights a = true /\ patterns a = true.
Proof.
  unfold parseAnalysis. cbn.
  destruct (JSON_parse sc resp) as [a' | m]; cbn.
  - destruct (truthy (summary a')) eqn:Es, (metrics a') eqn:Em,
      (insights a') eqn:Ei, (patterns a') eqn:Ep; cbn;
      split; try discriminate;
      try (intros [= <-]; auto);
      try (intros ([= <-] & H1 & H2 & H3 & H4); congruence).
  - split; [discriminate | intros [H _]; discriminate].
Qed.

Lemma tryBlock_resolved_iff (sc : Script) (tokenId : string) :
  (exists memoryId, tryBlock sc tokenId = Resolved memoryId) <->
  ensureRoomExists sc = Resolved () /\
  ensureParticipantInRoom sc = Resolved () /\
  composeState sc = Resolved () /\
  createMemory sc = Resolved () /\
  exists analysisResponse analysis,
    generateText sc = Resolved analysisResponse /\
    JSON_parse sc analysisResponse = Resolved analysis /\
    truthy (summary analysis) = true /\ metrics analysis = true /\
    insights analysis = true /\ patterns analysis = true.
Proof.
  unfold tryBlock. split.
  - intros [memoryId H]. revert H.
    destruct (ensureRoomExists sc) as [[] |]; cbn; [| discriminate].
    destruct (ensureParticipantInRoom sc) as [[] |]; cbn; [| discriminate].
    destruct (composeState sc) as [[] |]; cbn; [| discriminate].
    destruct (generateText sc) as [resp |]; cbn; [| discriminate].
    destruct (parseAnalysis sc resp) as [a |] eqn:Ep; cbn; [| discriminate].
    destruct (createMemory sc) as [[] |]; cbn; [| discriminate].
    intros _. apply parseAnalysis_resolved in Ep.
    repeat split; eauto.
  - intros (-> & -> & -> & Hm & resp & a & -> & Hp & Hs).
    cbn. rewrite (proj2 (parseAnalysis_resolved sc resp a) (conj Hp Hs)).
    cbn. rewrite Hm. eauto.
Qed.

(** X1. A handler body ends with a processingComplete event for its token
    exactly when each awaited collaborator resolved and the parsed analysis
    carries a non-empty summary, metrics, insights and patterns; in every
    other case the event it emits is not processingComplete. *)
Theorem processing_completes_iff (sc : Script) (tokenId : string) (c : Client) :
  (exists memoryId,
     emitted (processTokenUpdate_resume sc tokenId c)
       = emitted c ++ [processingComplete tokenId memoryId]) <->
  ensureRoomExists sc = Resolved () /\
  ensureParticipantInRoom sc = Resolved () /\
  composeState sc = Resolved () /\
  createMemory sc = Resolved () /\
  exists analysisResponse analysis,
    generateText sc = Resolved analysisResponse /\
    JSON_parse sc analysisResponse = Resolved analysis /\
    truthy (summary analysis) = true /\ metrics analysis = true /\
    insights analysis = true /\ patterns analysis = true.
Proof.
  rewrite <- (tryBlock_resolved_iff sc tokenId). unfold processTokenUpdate_resume.
  destruct (tryBlock sc tokenId) as [memoryId | m]; cbn; split.
  - intros _. exists memoryId. reflexivity.
  - intros _. exists memoryId. reflexivity.
  - intros [memoryId H]. apply app_inv_head in H. discriminate.
  - intros [memoryId H]. discriminate.
Qed.

(** X2. When the model's answer parses but lacks a required field, the body
    ends with one processingError event whose text names the parse step and
    the missing fields, and with no processingComplete event. *)
Theorem invalid_analysis_is_reported
    (sc : Script) (tokenId analysisResponse : string) (analysis : Analysis) (c : Client) :
  ensureRoomExists sc = Resolved () ->
  ensureParticipantInRoom sc = Resolved () ->
  composeState sc = Resolved () ->
  generateText sc = Resolved analysisResponse ->
  JSON_parse sc analysisResponse = Resolved analysis ->
  truthy (summary analysis) && metrics analysis
    && insights analysis && patterns analysis = false ->
  emitted (processTokenUpdate_resume sc tokenId c) =
    emitted c ++
    [processingError tokenId
       "Failed to parse LLM response: Invalid analysis format: missing required fields"].
Proof.
  intros H1 H2 H3 H4 H5 Hbad.
  unfold processTokenUpdate_resume, tryBlock, parseAnalysis.
  rewrite H1, H2, H3, H4. cbn. rewrite H5. cbn.
  destruct (truthy (summary analysis)), (metrics analysis),
    (insights analysis), (patterns analysis); try discriminate; reflexivity.
Qed.

Lemma invalid_analysis_is_reported_witness :
  emitted (processTokenUpdate_resume script_no_insights "tok-42" (client init)) =
    [processingError "tok-42"
       "Failed to parse LLM response: Invalid analysis format: missing required fields"].
Proof.
  exact (invalid_analysis_is_reported script_no_insights "tok-42" "{...}"
           {| summary := "fine"; metrics := true; insights := false; patterns := true |}
           (client init) eq_refl eq_refl eq_refl eq_refl eq_refl eq_refl).
Defined.

Lemma act_emitted a s :
  length (emitted (client (act a s))) =
  length (emitted (client s)) + (if ends a s then 1 else 0).
Proof.
  destruct a as [update | i sc]; cbn.
  - unfold deliver, processTokenUpdate_enter.
    destruct (tokenIdOf update) as [k |]; [| cbn; lia].
    destruct (decide (k ∈ processingTokens (client s))); cbn; lia.
  - unfold settle. destruct (suspended s !! i) as [k |]; [| lia].
    cbn. unfold processTokenUpdate_resume.
    destruct (tryBlock sc k); cbn; rewrite length_app; cbn; lia.
Qed.

Lemma act_suspended a s :
  length (suspended (act a s)) + (if ends a s then 1 else 0) =
  length (suspended s) + (if admits a s then 1 else 0).
Proof.
  destruct a as [update | i sc]; cbn.
  - unfold deliver.
    destruct (processTokenUpdate_enter update (client s)) as [c [k |]]; cbn;
      [rewrite length_app; cbn |]; lia.
  - unfold settle. destruct (suspended s !! i) as [k |] eqn:Hi; [| lia].
    cbn. rewrite length_delete by eauto.
    apply lookup_lt_Some in Hi. lia.
Qed.

(** X3. Along any run of deliveries and completions, each body that ended
    emitted exactly one event and each admitted body is either still
    suspended or has ended: deliveries that were dropped (no token id, or a
    key in flight) leave no trace in the events. *)
Theorem one_event_per_admitted_update (trace : list Action) (s : Sys) :
  length (emitted (client (run trace s))) =
    length (emitted (client s)) + ended trace s /\
  length (suspended (run trace s)) + ended trace s =
    length (suspended s) + admitted trace s.
Proof.
  revert s. induction trace as [| a rest IH]; intros s; cbn; [lia |].
  destruct (IH (act a s)) as [He Hs].
  pose proof (act_emitted a s). pose proof (act_suspended a s).
  unfold run in *. lia.
Qed.

End TokenOutcomeFacts.

(** ** The wrapper: from a frame to the handler, and the provider *)
Section WrapperFacts.
Import Wrapper.

Lemma deliver_without_key update s :
  TokenProcessing.tokenIdOf update = None -> TokenProcessing.deliver update s = s.
Proof.
  intros H. unfold TokenProcessing.deliver, TokenProcessing.processTokenUpdate_enter.
  rewrite H. destruct s; reflexivity.
Qed.

Lemma emitted_record_not_nullish parsed u :
  Realtime.onmessage parsed = [u] -> Realtime.nullish (Realtime.record u) = false.
Proof.
  unfold Realtime.onmessage. destruct parsed as [data | m]; cbn; [| discriminate].
  unfold Realtime.onmessage_try.
  destruct (Realtime.getProp data "event") as [ev |]; cbn; [| discriminate].
  destruct (Realtime.strictEqStr ev "postgres_changes"); [| discriminate].
  destruct (Realtime.getProp data "payload") as [payload |]; cbn; [| discriminate].
  destruct (Realtime.optChain payload "data") as [change |]; cbn; [| discriminate].
  destruct (Realtime.js_truthy change); cbn; [| discriminate].
  destruct (Realtime.getProp change "type") as [ty |]; cbn; [| discriminate].
  destruct (Realtime.getProp change "table"); cbn; [| discriminate].
  destruct (Realtime.getProp change "schema"); cbn; [| discriminate].
  destruct (Realtime.getProp change "record") as [rec |]; cbn; [| discriminate].
  destruct (Realtime.optChain rec "processing_stage") as [stage |] eqn:Est; cbn;
    [| discriminate].
  destruct (Realtime.strictEqStr ty "UPDATE"); cbn; [| discriminate].
  destruct (Realtime.strictEqStr stage "completed") eqn:Ec; cbn; [| discriminate].
  destruct (Realtime.getProp change "old_record"); cbn; [| discriminate].
  destruct (Realtime.getProp change "commit_timestamp"); cbn; [| discriminate].
  destruct (Realtime.getProp rec "id"); cbn; [| discriminate].
  intros [= <-]. cbn.
  destruct rec; try reflexivity; cbn in Est; injection Est as <-; discriminate.
Qed.

(** X4. A completed update that the realtime client forwards starts a handler
    body only if its record carries [token_id]: a record with [id] and
    [processing_stage] alone, as types.ts declares it, is dropped by
    [processTokenUpdate], leaving the wrapper as it was; with a non-empty
    string [token_id] that is not in flight, the body is admitted. *)
Theorem forwarded_update_needs_token_id
    (parsed : Outcome Realtime.JSValue) (u : Realtime.TokenUpdate) (w : Wrapper) :
  Realtime.onmessage parsed = [u] ->
  (Realtime.getProp (Realtime.record u) "token_id" = Resolved Realtime.JUndefined ->
     onFrame parsed w = Some w) /\
  (forall k,
     Realtime.getProp (Realtime.record u) "token_id" = Resolved (Realtime.JStr k) ->
     truthy k = true ->
     k ∉ TokenProcessing.processingTokens (TokenProcessing.client (processing w)) ->
     exists w', onFrame parsed w = Some w' /\
       client w' = client w /\
       TokenProcessing.suspended (processing w') =
         TokenProcessing.suspended (processing w) ++ [k] /\
       k ∈ TokenProcessing.processingTokens (TokenProcessing.client (processing w'))).
Proof.
  intros Hem. pose proof (emitted_record_not_nullish parsed u Hem) as Hrec.
  unfold onFrame, onTokenUpdate, received. rewrite Hem, Hrec. split.
  - intros ->. cbn [tokenIdView Realtime.js_truthy].
    rewrite deliver_without_key by reflexivity.
    destruct w; reflexivity.
  - intros k -> Hk Hfree. cbn [tokenIdView]. eexists. split; [reflexivity |].
    cbn [client processing].
    unfold TokenProcessing.deliver, TokenProcessing.processTokenUpdate_enter.
    cbn [TokenProcessing.tokenIdOf TokenProcessing.record TokenProcessing.token_id].
    rewrite Hk.
    destruct (decide (k ∈ _)) as [Hin | _]; [contradiction |]. cbn.
    repeat split. apply elem_of_union_l, elem_of_singleton. reflexivity.
Qed.

(** The sample envelope with [id] "42" only is dropped; with [token_id]
    "tok-42" its body is admitted. *)
Lemma forwarded_update_needs_token_id_witness :
  onFrame (Resolved (Realtime.envelope "UPDATE" "completed")) freshWrapper
    = Some freshWrapper /\
  exists w', onFrame (Resolved (envelopeWithTokenId "tok-42")) freshWrapper = Some w' /\
    TokenProcessing.suspended (processing w') = ["tok-42"].
Proof.
  split.
  - refine (proj1 (forwarded_update_needs_token_id
                     (Resolved (Realtime.envelope "UPDATE" "completed")) _
                     freshWrapper eq_refl) eq_refl).
  - destruct (proj2 (forwarded_update_needs_token_id
                       (Resolved (envelopeWithTokenId "tok-42")) _ freshWrapper eq_refl)
                "tok-42" eq_refl eq_refl (not_elem_of_empty _))
      as (w' & Hw & _ & Hs & _).
    exists w'. split; [exact Hw | exact Hs].
Defined.

(** X5. Once the provider has answered that it is initialized, every later call
    answers the same and changes nothing: no second wrapper, no second
    socket, whatever creating a socket would do now. *)
Theorem provider_get_is_idempotent (socket socket' : Outcome unit) (p : Process) :
  snd (tokenProvider_get socket p) = initializedText ->
  tokenProvider_get socket' (fst (tokenProvider_get socket p)) =
    (fst (tokenProvider_get socket p), initializedText).
Proof.
  unfold tokenProvider_get, getInstance, newWrapper.
  assert (Hstart : forall w w1,
            start socket w = (w1, Resolved ()) -> initialized w1 = true).
  { intros w w1. unfold start.
    destruct (initialized w) eqn:Hi; [intros [= <-]; exact Hi |].
    destruct (Realtime.isConnected (client w)); [intros [= <-]; reflexivity |].
    destruct socket; intros [= <-]; reflexivity. }
  destruct (supabaseClientInstance p) as [w |] eqn:Hinst.
  - destruct (start socket w) as [w1 [[] | m]] eqn:Hs; cbn; [| discriminate].
    intros _. unfold start. rewrite (Hstart w w1 Hs). reflexivity.
  - destruct (negb (truthy_opt (SUPABASE_URL p)) || negb (truthy_opt (SUPABASE_ANON_KEY p)));
      [cbn; rewrite Hinst; discriminate |].
    match goal with
    | |- context [start socket ?w0] =>
        destruct (start socket w0) as [w1 [[] | m]] eqn:Hs; cbn; [| discriminate];
        intros _; unfold start; rewrite (Hstart w0 w1 Hs); reflexivity
    end.
Qed.

Lemma provider_get_is_idempotent_witness :
  tokenProvider_get (Rejected None)
      (fst (tokenProvider_get (Resolved ()) withCredentials)) =
    (fst (tokenProvider_get (Resolved ()) withCredentials), initializedText) /\
  Realtime.ws (client (default freshWrapper
      (supabaseClientInstance (fst (tokenProvider_get (Resolved ()) withCredentials)))))
    = Some Realtime.CONNECTING.
Proof.
  split; [| reflexivity].
  exact (provider_get_is_idempotent (Resolved ()) (Rejected None) withCredentials eq_refl).
Defined.

(** X6. Without both credentials no wrapper is ever created: the provider
    answers with the failure text, throws nothing, and leaves the process as
    it was, so that the next call tries again. *)
Theorem provider_get_without_credentials (socket : Outcome unit) (p : Process) :
  supabaseClientInstance p = None ->
  truthy_opt (SUPABASE_URL p) && truthy_opt (SUPABASE_ANON_KEY p) = false ->
  tokenProvider_get socket p = (p, failedText).
Proof.
  intros Hinst Hcred. unfold tokenProvider_get, getInstance, newWrapper.
  rewrite Hinst.
  destruct (truthy_opt (SUPABASE_URL p)), (truthy_opt (SUPABASE_ANON_KEY p));
    try discriminate; reflexivity.
Qed.

Lemma provider_get_without_credentials_witness :
  tokenProvider_get (Resolved ()) withoutCredentials = (withoutCredentials, failedText).
Proof.
  exact (provider_get_without_credentials (Resolved ()) withoutCredentials eq_refl eq_refl).
Defined.

End WrapperFacts.

(** ** The string methods *)
Section JSStringFacts.
Import JSString.

Lemma length_append s1 s2 :
  String.length (s1 +:+ s2) = String.length s1 + String.length s2.
Proof.
  induction s1 as [| a s1 IH]; [reflexivity |].
  change (String a s1 +:+ s2) with (String a (s1 +:+ s2)).
  cbn. f_equal. exact IH.
Qed.

Lemma length_substring n m s :
  String.length (substring n m s) = Nat.min m (String.length s - n).
Proof.
  revert n m. induction s as [| a s IH]; intros [| n] [| m]; cbn; try reflexivity.
  - rewrite IH. rewrite Nat.sub_0_r. reflexivity.
  - rewrite IH. reflexivity.
  - rewrite IH. reflexivity.
Qed.

Lemma length_slice_0 s e :
  String.length (slice s 0 e) =
  Z.to_nat (if (e <? 0)%Z then Z.max (Z.of_nat (String.length s) + e) 0
            else Z.min e (Z.of_nat (String.length s))).
Proof.
  unfold slice. cbn zeta. rewrite length_substring.
  change (0 <? 0)%Z with false. cbv iota.
  destruct (e <? 0)%Z eqn:He; [apply Z.ltb_lt in He | apply Z.ltb_ge in He]; lia.
Qed.

Lemma length_trimStart s : String.length (trimStart s) <= String.length s.
Proof.
  induction s as [| a s IH]; cbn; [lia |].
  destruct (isSpace a); cbn; lia.
Qed.

Lemma length_trimEnd s : String.length (trimEnd s) <= String.length s.
Proof.
  induction s as [| a s IH]; cbn; [lia |].
  destruct (trimEnd s); [destruct (isSpace a) |]; cbn in *; lia.
Qed.

Lemma length_trim s : String.length (trim s) <= String.length s.
Proof.
  unfold trim. pose proof (length_trimEnd (trimStart s)).
  pose proof (length_trimStart s). lia.
Qed.

Lemma lastIndexFrom_range s pat i :
  (-1 <= lastIndexFrom s pat i <= Z.of_nat i)%Z.
Proof.
  induction i as [| i IH]; cbn [lastIndexFrom];
    destruct (String.prefix pat _); lia.
Qed.

Lemma lastIndexOf_range s pat fromIndex :
  (-1 <= lastIndexOf s pat fromIndex <= Z.max fromIndex 0)%Z.
Proof.
  unfold lastIndexOf.
  destruct (_ <? _)%Z; [lia |].
  match goal with |- context [lastIndexFrom s pat ?i] =>
    pose proof (lastIndexFrom_range s pat i) end.
  lia.
Qed.

(** Where [lastIndexFrom] answers an index, [pat] starts there. *)
Lemma lastIndexFrom_found s pat i j :
  lastIndexFrom s pat i = Z.of_nat j ->
  String.prefix pat (substring j (String.length s - j) s) = true.
Proof.
  induction i as [| i IH]; cbn [lastIndexFrom].
  - destruct (String.prefix pat (substring 0 _ s)) eqn:Hp; [| lia].
    intros H. assert (j = 0) by lia. subst j. exact Hp.
  - destruct (String.prefix pat (substring (S i) _ s)) eqn:Hp; [| exact IH].
    intros H. assert (j = S i) by lia. subst j. exact Hp.
Qed.

End JSStringFacts.

(** ** The posting client: what is sent *)
Section PostContentFacts.
Import JSString Post PostMore.

Lemma tweetContent_eq newTweetContent :
  tweetContent newTweetContent =
    slice (trim (replaceAll newTweetContent backslash_n LF)) 0 240.
Proof.
  unfold tweetContent. cbv zeta.
  set (content := slice (trim (replaceAll newTweetContent backslash_n LF)) 0 240).
  assert (Hlen : String.length content <= 240).
  { unfold content. rewrite length_slice_0. cbn. lia. }
  assert (H280 : (280 <? Z.of_nat (String.length content))%Z = false)
    by (apply Z.ltb_ge; lia).
  assert (H240 : (240 <? Z.of_nat (String.length content))%Z = false)
    by (apply Z.ltb_ge; lia).
  rewrite H280. cbv iota. rewrite H240. cbv iota. rewrite H240. reflexivity.
Qed.

Lemma tweetContent_length newTweetContent :
  String.length (tweetContent newTweetContent) <= 240.
Proof. rewrite tweetContent_eq, length_slice_0. cbn. lia. Qed.

(** X9. [generateTweetContent] returns the first 240 characters of the model's
    answer (escaped line breaks restored, trimmed) and nothing else: the
    three later cuts of lines 615-625, at a line break and at a period,
    never apply, so the text may end in the middle of a word. *)
Theorem tweet_content_is_first_240 (g : Outcome string) (content : string) :
  generateTweetContent g = Resolved content ->
  exists newTweetContent,
    g = Resolved newTweetContent /\
    content = slice (trim (replaceAll newTweetContent backslash_n LF)) 0 240 /\
    String.length content <= 240.
Proof.
  unfold generateTweetContent. destruct g as [raw | m]; cbn; [| discriminate].
  intros [= <-]. exists raw. split; [reflexivity |].
  split; [apply tweetContent_eq | apply tweetContent_length].
Qed.

(** 300 letters come back as the first 240. *)
Lemma tweet_content_is_first_240_witness :
  exists newTweetContent,
    Resolved longWord = Resolved newTweetContent /\
    tweetContent longWord =
      slice (trim (replaceAll newTweetContent backslash_n LF)) 0 240 /\
    String.length (tweetContent longWord) <= 240.
Proof.
  exact (tweet_content_is_first_240 (Resolved longWord) (tweetContent longWord) eq_refl).
Defined.

(** X10. The memories section of the prompt holds the last five memories, each
    cut to 200 characters plus an ellipsis: however many and however long
    the memories are, it is at most 1084 characters long. *)
Theorem formatted_memories_are_bounded (recentMemories : list string) :
  String.length (formattedMemories recentMemories) <= 1084.
Proof.
  unfold formattedMemories.
  assert (Hn : length (lastN MAX_MEMORIES recentMemories) <= 5).
  { unfold lastN, MAX_MEMORIES. rewrite length_skipn. lia. }
  assert (Hone : forall text, String.length (formatMemory text) <= 216).
  { intros text. unfold formatMemory, MAX_MEMORY_LENGTH. cbv zeta.
    rewrite !length_append.
    change (String.length "Memory: ") with 8.
    change (String.length LF) with 1. change (String.length "---") with 3.
    destruct (200 <? String.length text)%nat eqn:Hlong;
      [rewrite length_append, length_substring;
       change (String.length "...") with 3; lia |].
    apply Nat.ltb_ge in Hlong. lia. }
  assert (Hjoin : forall parts,
            (forall p, In p parts -> String.length p <= 216) ->
            String.length (join LF parts) <= 217 * length parts - 1).
  { induction parts as [| p parts IH]; intros Hall; [cbn; lia |].
    destruct parts as [| q parts].
    - cbn [join length]. pose proof (Hall p (or_introl eq_refl)). lia.
    - change (join LF (p :: q :: parts)) with (p +:+ LF +:+ join LF (q :: parts)).
      rewrite !length_append. change (String.length LF) with 1.
      pose proof (Hall p (or_introl eq_refl)).
      assert (Hrest : forall x, In x (q :: parts) -> String.length x <= 216)
        by (intros x Hx; apply Hall; right; exact Hx).
      specialize (IH Hrest). cbn [length] in *. lia. }
  specialize (Hjoin (map formatMemory (lastN MAX_MEMORIES recentMemories))).
  rewrite length_map in Hjoin.
  assert (Hall : forall p, In p (map formatMemory (lastN MAX_MEMORIES recentMemories)) ->
                           String.length p <= 216).
  { intros p Hp. apply in_map_iff in Hp as (text & <- & _). apply Hone. }
  specialize (Hjoin Hall).
  lia.
Qed.

End PostContentFacts.

(** ** The posting client: the actions taken on a timeline tweet *)
Section TimelineActionFacts.
Import JSString Post PostMore.

Lemma sublist_singleton_elem (l : list string) n x :
  sublist l [n] -> x ∈ l -> x = n.
Proof.
  intros Hsub Hx. apply sublist_cons_r in Hsub as [Hsub | (l' & -> & Hsub)].
  - apply sublist_nil_r in Hsub. subst l. inversion Hx.
  - apply sublist_nil_r in Hsub. subst l'.
    apply list_elem_of_singleton in Hx. exact Hx.
Qed.

Lemma doLike_spec r a :
  ("like" ∈ snd (doLike r a) <-> like a = true /\ likeTweet r = Resolved ()) /\
  sublist (snd (doLike r a)) ["like"] /\
  Forall fits (fst (doLike r a)).
Proof.
  unfold doLike. destruct (like a); [destruct (likeTweet r) as [[] | m] |]; cbn;
    (split; [| split; [| repeat constructor]]);
    rewrite ?elem_of_nil, ?list_elem_of_singleton;
    try apply sublist_nil_l; try reflexivity.
  - tauto.
  - split; [tauto | intros [_ ?]; discriminate].
  - split; [tauto | intros [? _]; discriminate].
Qed.

Lemma doRetweet_spec r a :
  ("retweet" ∈ snd (doRetweet r a) <->
     retweet a = true /\ retweetTweet r = Resolved ()) /\
  sublist (snd (doRetweet r a)) ["retweet"] /\
  Forall fits (fst (doRetweet r a)).
Proof.
  unfold doRetweet. destruct (retweet a); [destruct (retweetTweet r) as [[] | m] |]; cbn;
    (split; [| split; [| repeat constructor]]);
    rewrite ?elem_of_nil, ?list_elem_of_singleton;
    try apply sublist_nil_l; try reflexivity.
  - tauto.
  - split; [tauto | intros [_ ?]; discriminate].
  - split; [tauto | intros [? _]; discriminate].
Qed.

Lemma generateTweetContent_fits g content :
  generateTweetContent g = Resolved content -> String.length content <= 240.
Proof.
  unfold generateTweetContent. destruct g as [raw |]; cbn; [| discriminate].
  intros [= <-]. apply tweetContent_length.
Qed.

Lemma doQuote_spec r a :
  ("quote" ∈ snd (doQuote r a) <->
     quote a = true /\ (exists t, quoteText r = Resolved t) /\
     sendQuoteTweet r = Resolved 200%Z /\ quoteProcessed r = true) /\
  sublist (snd (doQuote r a)) ["quote"] /\
  Forall fits (fst (doQuote r a)).
Proof.
  unfold doQuote. destruct (quote a).
  2: { cbn. split; [| split; [apply sublist_nil_l | constructor]].
       rewrite elem_of_nil. split; [tauto | intros [? _]; discriminate]. }
  destruct (generateTweetContent (quoteText r)) as [content | m] eqn:Hg.
  2: { cbn. split; [| split; [apply sublist_nil_l | constructor]].
       rewrite elem_of_nil. split; [tauto |].
       intros (_ & [t Ht] & _). rewrite Ht in Hg. discriminate. }
  pose proof (generateTweetContent_fits _ _ Hg) as Hfit.
  assert (Ht : exists t, quoteText r = Resolved t).
  { destruct (quoteText r) as [t |]; [eauto | discriminate]. }
  destruct (sendQuoteTweet r) as [status | m].
  2: { cbn. split; [| split; [apply sublist_nil_l | constructor; [exact Hfit | constructor]]].
       rewrite elem_of_nil. split; [tauto | intros (_ & _ & ? & _); discriminate]. }
  destruct (status =? 200)%Z eqn:Hs; [apply Z.eqb_eq in Hs; subst status |
                                      apply Z.eqb_neq in Hs];
    [destruct (quoteProcessed r) |]; cbn;
    (split; [| split; [| constructor; [exact Hfit | constructor]]]);
    rewrite ?elem_of_nil, ?list_elem_of_singleton;
    try apply sublist_nil_l; try reflexivity.
  - tauto.
  - split; [tauto | intros (_ & _ & _ & ?); discriminate].
  - split; [tauto | intros (_ & _ & [= ?] & _); contradiction].
Qed.

Lemma doReply_spec r a :
  ("reply" ∈ snd (doReply r a) <->
     reply a = true /\ (exists t, replyText r = Resolved t) /\
     sendTweet r = Resolved 200%Z /\ replyProcessed r = true) /\
  sublist (snd (doReply r a)) ["reply"] /\
  Forall fits (fst (doReply r a)).
Proof.
  unfold doReply. destruct (reply a).
  2: { cbn. split; [| split; [apply sublist_nil_l | constructor]].
       rewrite elem_of_nil. split; [tauto | intros [? _]; discriminate]. }
  destruct (generateTweetContent (replyText r)) as [content | m] eqn:Hg.
  2: { cbn. split; [| split; [apply sublist_nil_l | constructor]].
       rewrite elem_of_nil. split; [tauto |].
       intros (_ & [t Ht] & _). rewrite Ht in Hg. discriminate. }
  pose proof (generateTweetContent_fits _ _ Hg) as Hfit.
  assert (Ht : exists t, replyText r = Resolved t).
  { destruct (replyText r) as [t |]; [eauto | discriminate]. }
  destruct (sendTweet r) as [status | m].
  2: { cbn. split; [| split; [apply sublist_nil_l | constructor; [exact Hfit | constructor]]].
       rewrite elem_of_nil. split; [tauto | intros (_ & _ & ? & _); discriminate]. }
  destruct (status =? 200)%Z eqn:Hs; [apply Z.eqb_eq in Hs; subst status |
                                      apply Z.eqb_neq in Hs];
    [destruct (replyProcessed r) |]; cbn;
    (split; [| split; [| constructor; [exact Hfit | constructor]]]);
    rewrite ?elem_of_nil, ?list_elem_of_singleton;
    try apply sublist_nil_l; try reflexivity.
  - tauto.
  - split; [tauto | intros (_ & _ & _ & ?); discriminate].
  - split; [tauto | intros (_ & _ & [= ?] & _); contradiction].
Qed.

(** X11. For a timeline tweet that is not yet in memory and for which the model
    answered with actions, one entry is pushed to the results. Its executed
    actions come in the order like, retweet, quote, reply, and each is
    listed exactly when the model asked for it and the platform accepted it
    (for a quote or reply: the text was generated, the response had status
    200 and was stored): a refused action does not stop the ones after it.
    Every quote or reply text sent is at most 240 characters long. *)
Theorem executed_actions_are_those_that_succeeded (r : TweetRun) (a : ActionResponse) :
  getMemoryById r = Resolved false ->
  composeState r = Resolved () ->
  generateTweetActions r = Resolved (Some a) ->
  exists executed,
    snd (processTweet r) = Some executed /\
    sublist executed ["like"; "retweet"; "quote"; "reply"] /\
    ("like" ∈ executed <-> like a = true /\ likeTweet r = Resolved ()) /\
    ("retweet" ∈ executed <-> retweet a = true /\ retweetTweet r = Resolved ()) /\
    ("quote" ∈ executed <->
       quote a = true /\ (exists t, quoteText r = Resolved t) /\
       sendQuoteTweet r = Resolved 200%Z /\ quoteProcessed r = true) /\
    ("reply" ∈ executed <->
       reply a = true /\ (exists t, replyText r = Resolved t) /\
       sendTweet r = Resolved 200%Z /\ replyProcessed r = true) /\
    Forall fits (fst (processTweet r)).
Proof.
  intros Hm Hc Ha. unfold processTweet. rewrite Hm, Hc, Ha.
  destruct (doLike_spec r a) as (Hl & Sl & Fl).
  destruct (doRetweet_spec r a) as (Hr & Sr & Fr).
  destruct (doQuote_spec r a) as (Hq & Sq & Fq).
  destruct (doReply_spec r a) as (Hp & Sp & Fp).
  destruct (doLike r a) as [q1 e1], (doRetweet r a) as [q2 e2],
    (doQuote r a) as [q3 e3], (doReply r a) as [q4 e4]. cbn [fst snd] in *.
  exists (e1 ++ e2 ++ e3 ++ e4). split; [reflexivity |].
  assert (Hin : forall x, x ∈ e1 ++ e2 ++ e3 ++ e4 <->
            (x = "like" /\ x ∈ e1) \/ (x = "retweet" /\ x ∈ e2) \/
            (x = "quote" /\ x ∈ e3) \/ (x = "reply" /\ x ∈ e4)).
  { intros x. rewrite !elem_of_app. split.
    - intros [H | [H | [H | H]]];
        [left; split; [exact (sublist_singleton_elem _ _ _ Sl H) | exact H]
        | right; left; split; [exact (sublist_singleton_elem _ _ _ Sr H) | exact H]
        | right; right; left; split; [exact (sublist_singleton_elem _ _ _ Sq H) | exact H]
        | right; right; right; split; [exact (sublist_singleton_elem _ _ _ Sp H) | exact H]].
    - tauto. }
  split.
  { change ["like"; "retweet"; "quote"; "reply"]
      with (["like"] ++ ["retweet"] ++ ["quote"] ++ ["reply"]).
    repeat apply sublist_app; assumption. }
  split; [rewrite Hin, <- Hl; intuition discriminate |].
  split; [rewrite Hin, <- Hr; intuition discriminate |].
  split; [rewrite Hin, <- Hq; intuition discriminate |].
  split; [rewrite Hin, <- Hp; intuition discriminate |].
  rewrite !Forall_app. auto.
Qed.

(** The platform refuses the like; the reply still goes out. *)
Lemma executed_actions_are_those_that_succeeded_witness :
  processTweet sampleRun =
    ([LikeTweet; ReplyTweet "well said. more of this."], Some ["reply"]) /\
  exists executed,
    snd (processTweet sampleRun) = Some executed /\
    ("like" ∈ executed <-> True /\ likeTweet sampleRun = Resolved ()).
Proof.
  split; [reflexivity |].
  destruct (executed_actions_are_those_that_succeeded sampleRun _ eq_refl eq_refl eq_refl)
    as (executed & He & _ & Hl & _).
  exists executed. split; [exact He |].
  rewrite Hl. cbn. intuition.
Defined.

End TimelineActionFacts.

(** ** The posting client: its two loops *)
Section PostLoopFacts.
Import Post PostMore.

Lemma randomMinutes_window rnd :
  unitInterval rnd -> (25 <= randomMinutes rnd <= 35)%Z.
Proof.
  intros [H0 H1]. unfold randomMinutes. cbv zeta.
  pose proof (randomBelow_range rnd (35 - 25 + 1) eq_refl H0 H1). lia.
Qed.

Lemma randomTimelineMinutes_window rnd :
  unitInterval rnd -> (15 <= randomTimelineMinutes rnd <= 30)%Z.
Proof.
  intros [H0 H1]. unfold randomTimelineMinutes.
  pose proof (randomBelow_range rnd (30 - 15 + 1) eq_refl H0 H1). lia.
Qed.

Lemma timeline_run_rearms_witness :
  exists t,
    timelineLoopTimeout (generateNewTimelineTweetLoop (t0 + 60000) (t0 + 60000) (1 # 2) booted)
      = Some t /\
    t ∈ pending (generateNewTimelineTweetLoop (t0 + 60000) (t0 + 60000) (1 # 2) booted) /\
    callback t = timelineLoop /\
    (15 * 60 * 1000 <= delay t <= 30 * 60 * 1000)%Z.
Proof.
  apply (timeline_run_rearms (t0 + 60000) (t0 + 60000) (1 # 2) booted).
  - vm_compute. discriminate.
  - discriminate.
  - reflexivity.
Defined.

End PostLoopFacts.

(** ** The posting client: the two loops under every interleaving *)
Section InterleavedLoopFacts.
Import Post PostLoops.

Lemma cancel_In i l p : In p (cancel i l) <-> In p l /\ ident p <> i.
Proof.
  unfold cancel. rewrite List.filter_In, negb_true_iff, Nat.eqb_neq. reflexivity.
Qed.

Lemma cancel_length i l : length (cancel i l) <= length l.
Proof. apply List.filter_length_le. Qed.

Lemma filter_cancel f i l :
  List.filter f (cancel i l) = cancel i (List.filter f l).
Proof.
  unfold cancel. induction l as [| a l IH]; [reflexivity |]. cbn.
  destruct (f a) eqn:Hf, (negb (ident a =? i)%nat) eqn:Hi; cbn;
    rewrite ?Hf, ?Hi, IH; reflexivity.
Qed.

Lemma cancel_present i l p :
  In p l -> ident p = i -> S (length (cancel i l)) <= length l.
Proof.
  induction l as [| a l IH]; intros Hin Hid; [destruct Hin |].
  pose proof (cancel_length i l) as Hle. unfold cancel in *. cbn.
  destruct Hin as [-> | Hin].
  - rewrite Hid, Nat.eqb_refl. cbn. lia.
  - specialize (IH Hin Hid). destruct (negb (ident a =? i)%nat); cbn; lia.
Qed.

Lemma cancel_single_same p : cancel (ident p) [p] = [].
Proof. unfold cancel. cbn. rewrite Nat.eqb_refl. reflexivity. Qed.

Lemma cancel_single i p : cancel i [p] = [] \/ cancel i [p] = [p].
Proof. unfold cancel. cbn. destruct (negb (ident p =? i)%nat); auto. Qed.

Lemma cancel_single_other i p : ident p <> i -> cancel i [p] = [p].
Proof.
  intros H. unfold cancel. cbn. apply Nat.eqb_neq in H. rewrite H. reflexivity.
Qed.

Lemma timersOf_setTimeout l cb d s :
  timersOf l (setTimeout cb d s) =
  timersOf l s ++
    (if bool_decide (cb = l)
     then [ {| ident := nextIdent s; timer := {| callback := cb; delay := d |} |} ]
     else []).
Proof.
  unfold timersOf, setTimeout. cbn. rewrite List.filter_app. cbn.
  unfold ofLoop at 2. cbn. destruct (bool_decide (cb = l)); reflexivity.
Qed.

Lemma timersOf_clearTimeout l h s :
  timersOf l (clearTimeout h s) =
  match h with
  | Some i => cancel i (timersOf l s)
  | None => timersOf l s
  end.
Proof. destruct h as [i |]; [apply filter_cancel | reflexivity]. Qed.

Lemma timersOf_In l s p : In p (timersOf l s) <-> In p (pending s) /\ callback (timer p) = l.
Proof.
  unfold timersOf, ofLoop. rewrite List.filter_In, bool_decide_eq_true. reflexivity.
Qed.

Lemma wellFormed_setTimeout cb d s : wellFormed s -> wellFormed (setTimeout cb d s).
Proof.
  intros [Hnd Hlt]. split; cbn.
  - rewrite map_app. cbn. apply NoDup_app. split; [exact Hnd |].
    split; [| apply NoDup_singleton].
    intros x Hx Hx'. apply list_elem_of_singleton in Hx'. subst x.
    apply list_elem_of_In, in_map_iff in Hx as (p & Hp & Hin).
    pose proof (proj1 (List.Forall_forall _ _) Hlt p Hin) as H. cbn in H. lia.
  - apply List.Forall_forall. intros p Hin. apply in_app_or in Hin as [Hin | [<- | []]].
    + pose proof (proj1 (List.Forall_forall _ _) Hlt p Hin) as H. cbn in H. lia.
    + cbn. lia.
Qed.

Lemma NoDup_map_filter {A B : Type} (g : A -> B) (f : A -> bool) (l : list A) :
  NoDup (map g l) -> NoDup (map g (List.filter f l)).
Proof.
  induction l as [| a l IH]; cbn; [auto |].
  intros H. apply NoDup_cons in H as [Hnot Hnd].
  destruct (f a); [| auto]. cbn. apply NoDup_cons. split; [| auto].
  intros Hin. apply Hnot. apply list_elem_of_In, in_map_iff in Hin as (x & Hx & Hin).
  apply List.filter_In in Hin as [Hin _].
  apply list_elem_of_In, in_map_iff. eauto.
Qed.

Lemma wellFormed_clearTimeout h s : wellFormed s -> wellFormed (clearTimeout h s).
Proof.
  intros [Hnd Hlt]. destruct h as [i |]; [| split; assumption]. split; cbn.
  - apply NoDup_map_filter. exact Hnd.
  - apply List.Forall_forall. intros p Hin. apply cancel_In in Hin as [Hin _].
    exact (proj1 (List.Forall_forall _ _) Hlt p Hin).
Qed.

Lemma wellFormed_same_timers s s' :
  pending s' = pending s -> nextIdent s' = nextIdent s ->
  wellFormed s -> wellFormed s'.
Proof. unfold wellFormed. intros -> ->. auto. Qed.

Lemma wellFormed_act e s : wellFormed s -> wellFormed (act e s).
Proof.
  intros Hwf. destruct e as [rnd | i now now' rnd | i rnd]; cbn [act].
  - unfold onReady, generateNewTweetLoop.
    eapply wellFormed_same_timers; [reflexivity | reflexivity |].
    apply wellFormed_setTimeout.
    eapply wellFormed_same_timers; [reflexivity | reflexivity |].
    apply wellFormed_setTimeout.
    apply wellFormed_clearTimeout, wellFormed_clearTimeout, Hwf.
  - unfold fire. destruct (List.find _ _) as [p |]; [| exact Hwf].
    destruct (callback (timer p)).
    + unfold generateNewTweetLoop.
      eapply wellFormed_same_timers; [reflexivity | reflexivity |].
      apply wellFormed_setTimeout, wellFormed_clearTimeout, Hwf.
    + unfold generateNewTimelineTweetLoop_enter. cbv zeta.
      destruct (_ <? _)%Z; [apply wellFormed_clearTimeout, Hwf |].
      destruct (isProcessing _);
        (eapply wellFormed_same_timers; [reflexivity | reflexivity |]);
        apply wellFormed_clearTimeout, Hwf.
  - unfold generateNewTimelineTweetLoop_resume.
    destruct (_ : option bool) as [entered |]; [| exact Hwf].
    eapply wellFormed_same_timers; [reflexivity | reflexivity |].
    apply wellFormed_setTimeout.
    eapply wellFormed_same_timers; [| | exact Hwf]; reflexivity.
Qed.

Lemma NoDup_map_inj_In {A B : Type} (g : A -> B) (l : list A) (a b : A) :
  NoDup (map g l) -> In a l -> In b l -> g a = g b -> a = b.
Proof.
  induction l as [| x l IH]; intros Hnd Ha Hb Hg; [destruct Ha |].
  cbn in Hnd. apply NoDup_cons in Hnd as [Hnot Hnd].
  destruct Ha as [-> | Ha], Hb as [-> | Hb]; auto.
  - exfalso. apply Hnot. rewrite Hg. apply list_elem_of_In, in_map. exact Hb.
  - exfalso. apply Hnot. rewrite <- Hg. apply list_elem_of_In, in_map. exact Ha.
Qed.

Lemma clearTimeout_tweetLoopTimeout h s :
  tweetLoopTimeout (clearTimeout h s) = tweetLoopTimeout s.
Proof. destruct h; reflexivity. Qed.

Lemma tweetArmed_same s s' :
  tweetLoopTimeout s' = tweetLoopTimeout s ->
  timersOf tweetLoop s' = timersOf tweetLoop s ->
  tweetArmed s -> tweetArmed s'.
Proof. unfold tweetArmed. intros -> ->. auto. Qed.

Lemma tweetArmed_generateNewTweetLoop rnd s :
  PostMore.unitInterval rnd -> timersOf tweetLoop s = [] ->
  tweetArmed (generateNewTweetLoop rnd s).
Proof.
  intros Hr Hnone. pose proof (randomMinutes_window rnd Hr) as Hw.
  exists {| ident := nextIdent s;
            timer := {| callback := tweetLoop;
                        delay := (randomMinutes rnd * 60 * 1000)%Z |} |}.
  split; [reflexivity |]. split.
  - change (timersOf tweetLoop (generateNewTweetLoop rnd s))
      with (timersOf tweetLoop (setTimeout tweetLoop (randomMinutes rnd * 60 * 1000)%Z s)).
    rewrite timersOf_setTimeout, Hnone. reflexivity.
  - cbn. unfold minutes. lia.
Qed.

Lemma tweetArmed_onReady rnd s :
  PostMore.unitInterval rnd ->
  (forall p, In p (timersOf tweetLoop s) -> tweetLoopTimeout s = Some (ident p)) ->
  tweetArmed (onReady rnd s).
Proof.
  intros Hr Hall. unfold onReady. cbv zeta.
  set (s1 := clearTimeout (timelineLoopTimeout s) s).
  set (s2 := clearTimeout (tweetLoopTimeout s1) s1).
  assert (Hnone : timersOf tweetLoop s2 = []).
  { destruct (timersOf tweetLoop s2) as [| q qs] eqn:Hq; [reflexivity |]. exfalso.
    assert (Hin : In q (timersOf tweetLoop s2)) by (rewrite Hq; left; reflexivity).
    unfold s2 in Hin. rewrite timersOf_clearTimeout in Hin.
    unfold s1 in Hin at 1. rewrite clearTimeout_tweetLoopTimeout in Hin.
    assert (Hq1 : In q (timersOf tweetLoop s)).
    { destruct (tweetLoopTimeout s) as [i |]; [apply cancel_In in Hin as [Hin _] |];
        unfold s1 in Hin; rewrite timersOf_clearTimeout in Hin;
        (destruct (timelineLoopTimeout s) as [j |];
           [apply cancel_In in Hin as [Hin _] |]); exact Hin. }
    rewrite (Hall q Hq1) in Hin. apply cancel_In in Hin as [_ Hne]. congruence. }
  eapply tweetArmed_same;
    [| | exact (tweetArmed_generateNewTweetLoop rnd s2 Hr Hnone)]; [reflexivity |].
  change (timersOf tweetLoop
            (setTimeout timelineLoop (1 * 60 * 1000)%Z (generateNewTweetLoop rnd s2))
          = timersOf tweetLoop (generateNewTweetLoop rnd s2)).
  rewrite timersOf_setTimeout. cbn. apply app_nil_r.
Qed.

Lemma tweetArmed_act e s :
  PostMore.unitInterval (draw e) -> wellFormed s -> tweetArmed s -> tweetArmed (act e s).
Proof.
  intros Hr [Hnd _] Harmed. destruct e as [rnd | i now now' rnd | i rnd]; cbn [act draw] in *.
  - apply tweetArmed_onReady; [exact Hr |].
    destruct Harmed as (p0 & Hh & Ht & _). rewrite Ht, Hh.
    intros p [<- | []]. reflexivity.
  - unfold fire. destruct (List.find _ _) as [p |] eqn:Hfind; [| exact Harmed].
    apply find_some in Hfind as [Hin Hid]. apply Nat.eqb_eq in Hid.
    destruct Harmed as (p0 & Hh & Ht & Hw).
    assert (Hin0 : In p0 (pending s) /\ callback (timer p0) = tweetLoop).
    { apply timersOf_In. rewrite Ht. left. reflexivity. }
    destruct (callback (timer p)) eqn:Hcb.
    + apply tweetArmed_generateNewTweetLoop; [exact Hr |].
      rewrite timersOf_clearTimeout, Ht.
      assert (p = p0) as ->.
      { assert (H : In p (timersOf tweetLoop s)) by (apply timersOf_In; auto).
        rewrite Ht in H. destruct H as [<- | []]. reflexivity. }
      rewrite <- Hid. apply cancel_single_same.
    + assert (Hne : ident p0 <> i).
      { intros Heq. destruct Hin0 as [Hin0 Hcb0].
        assert (p0 = p)
          by (apply (NoDup_map_inj_In ident (pending s)); auto; congruence).
        subst p0. congruence. }
      assert (Hkeep : tweetArmed (clearTimeout (Some i) s)).
      { exists p0. split; [exact Hh |]. split; [| exact Hw].
        rewrite timersOf_clearTimeout, Ht. apply cancel_single_other. exact Hne. }
      unfold generateNewTimelineTweetLoop_enter. cbv zeta.
      destruct (_ <? _)%Z; [exact Hkeep |].
      destruct (isProcessing _);
        (eapply tweetArmed_same; [| | exact Hkeep]; reflexivity).
  - unfold generateNewTimelineTweetLoop_resume.
    destruct (_ : option bool) as [entered |]; [| exact Harmed].
    eapply tweetArmed_same; [| | exact Harmed]; [reflexivity |].
    match goal with
    | |- timersOf tweetLoop ?s' = _ =>
        change (timersOf tweetLoop s') with
          (timersOf tweetLoop
             (setTimeout timelineLoop (randomTimelineMinutes rnd * 60 * 1000)%Z s))
    end.
    rewrite timersOf_setTimeout. cbn. apply app_nil_r.
Qed.

Lemma timelineChecks_act e s :
  timelineChecks (act e s) <= timelineChecks s + (if isOnReady e then 1 else 0).
Proof.
  unfold timelineChecks.
  destruct e as [rnd | i now now' rnd | i rnd]; cbn [act isOnReady].
  - unfold onReady. cbv zeta.
    set (s1 := clearTimeout (timelineLoopTimeout s) s).
    set (s2 := clearTimeout (tweetLoopTimeout s1) s1).
    match goal with
    | |- length (timersOf timelineLoop ?s') + length (suspended ?s') <= _ =>
        change (timersOf timelineLoop s') with
          (timersOf timelineLoop
             (setTimeout timelineLoop (1 * 60 * 1000)%Z (generateNewTweetLoop rnd s2)));
        change (suspended s') with (suspended s2)
    end.
    rewrite timersOf_setTimeout.
    change (timersOf timelineLoop (generateNewTweetLoop rnd s2))
      with (timersOf timelineLoop
              (setTimeout tweetLoop (randomMinutes rnd * 60 * 1000)%Z s2)).
    rewrite timersOf_setTimeout.
    assert (H2 : length (timersOf timelineLoop s2) <= length (timersOf timelineLoop s)).
    { unfold s2. rewrite timersOf_clearTimeout.
      assert (H1 : length (timersOf timelineLoop s1) <= length (timersOf timelineLoop s)).
      { unfold s1. rewrite timersOf_clearTimeout.
        destruct (timelineLoopTimeout s); [apply cancel_length | lia]. }
      destruct (tweetLoopTimeout s1);
        [pose proof (cancel_length n (timersOf timelineLoop s1)) |]; lia. }
    assert (Hs : suspended s2 = suspended s).
    { unfold s2, s1. destruct (timelineLoopTimeout s); cbn;
        destruct (tweetLoopTimeout s); reflexivity. }
    rewrite Hs, !length_app.
    change (bool_decide (tweetLoop = timelineLoop)) with false.
    change (bool_decide (timelineLoop = timelineLoop)) with true.
    cbn [length]. lia.
  - unfold fire. destruct (List.find _ _) as [p |] eqn:Hfind; [| lia].
    apply find_some in Hfind as [Hin Hid]. apply Nat.eqb_eq in Hid.
    destruct (callback (timer p)) eqn:Hcb.
    + change (timersOf timelineLoop (generateNewTweetLoop rnd (clearTimeout (Some i) s)))
        with (timersOf timelineLoop
                (setTimeout tweetLoop (randomMinutes rnd * 60 * 1000)%Z
                   (clearTimeout (Some i) s))).
      rewrite timersOf_setTimeout, timersOf_clearTimeout, length_app.
      change (bool_decide (tweetLoop = timelineLoop)) with false. cbn [length].
      change (suspended (generateNewTweetLoop rnd (clearTimeout (Some i) s)))
        with (suspended s).
      pose proof (cancel_length i (timersOf timelineLoop s)). lia.
    + assert (Hp : In p (timersOf timelineLoop s)) by (apply timersOf_In; auto).
      pose proof (cancel_present i (timersOf timelineLoop s) p Hp Hid) as Hless.
      assert (Ht : timersOf timelineLoop (clearTimeout (Some i) s)
                   = cancel i (timersOf timelineLoop s))
        by apply (timersOf_clearTimeout timelineLoop (Some i) s).
      unfold generateNewTimelineTweetLoop_enter. cbv zeta.
      destruct (_ <? _)%Z;
        [rewrite Ht; change (suspended (clearTimeout (Some i) s)) with (suspended s); lia |].
      destruct (isProcessing _);
        match goal with
        | |- length (timersOf timelineLoop ?s') + length (suspended ?s') <= _ =>
            change (timersOf timelineLoop s')
              with (timersOf timelineLoop (clearTimeout (Some i) s));
            first [ change (suspended s') with (suspended s ++ [false])
                  | change (suspended s') with (suspended s ++ [true]) ]
        end; rewrite Ht, length_app; cbn [length]; lia.
  - unfold generateNewTimelineTweetLoop_resume.
    destruct (_ : option bool) as [entered |] eqn:Hi; [| lia].
    match goal with
    | |- length (timersOf timelineLoop ?s') + length (suspended ?s') <= _ =>
        change (timersOf timelineLoop s') with
          (timersOf timelineLoop
             (setTimeout timelineLoop (randomTimelineMinutes rnd * 60 * 1000)%Z s));
        change (suspended s') with (delete i (suspended s))
    end.
    rewrite timersOf_setTimeout, length_app, length_delete by eauto.
    change (bool_decide (timelineLoop = timelineLoop)) with true. cbn [length].
    apply lookup_lt_Some in Hi. lia.
Qed.

Lemma run_spec trace s :
  Forall (fun e => PostMore.unitInterval (draw e)) trace ->
  wellFormed s -> tweetArmed s ->
  tweetArmed (run trace s) /\
  timelineChecks (run trace s) <= timelineChecks s + onReadyCalls trace.
Proof.
  intros Hall. revert s. induction Hall as [| e trace He _ IH]; intros s Hwf Harmed.
  - split; [exact Harmed | cbn; lia].
  - destruct (IH (act e s) (wellFormed_act e s Hwf) (tweetArmed_act e s He Hwf Harmed))
      as [Ha Hc].
    split; [exact Ha |].
    pose proof (timelineChecks_act e s) as Hstep.
    unfold run in *. cbn [fold_left]. unfold onReadyCalls in *. cbn [List.filter].
    destruct (isOnReady e); cbn [length]; lia.
Qed.

(** X12. Once [onReady] has run, whatever timers fire, whenever suspended
    timeline checks resume and however often [onReady] is called again,
    exactly one tweet timer is pending, the one whose handle
    [tweetLoopTimeout] holds, set 25 to 35 minutes ahead, and [isRunning]
    answers true. The timeline checks still to come, pending timers and
    suspended checks together, number at most one more than the calls of
    [onReady] made since: a call made while a check is suspended adds a
    timer that no handle can clear once the check resumes. *)
Theorem posting_loops_stay_armed (rnd : Q) (trace : list Event) :
  PostMore.unitInterval rnd ->
  Forall (fun e => PostMore.unitInterval (draw e)) trace ->
  tweetArmed (run trace (onReady rnd initial)) /\
  length (timersOf tweetLoop (run trace (onReady rnd initial))) = 1 /\
  timelineChecks (run trace (onReady rnd initial)) <= 1 + onReadyCalls trace /\
  isRunning (run trace (onReady rnd initial)) = true.
Proof.
  intros Hr Hall.
  assert (Hwf : wellFormed (onReady rnd initial)).
  { apply (wellFormed_act (OnReady rnd)). split; [constructor | constructor]. }
  assert (Harmed : tweetArmed (onReady rnd initial)).
  { apply tweetArmed_onReady; [exact Hr | intros p []]. }
  destruct (run_spec trace _ Hall Hwf Harmed) as [Ha Hc].
  split; [exact Ha |]. destruct Ha as (p & Hh & Ht & _).
  split; [rewrite Ht; reflexivity |]. split.
  - exact Hc.
  - unfold isRunning. rewrite Hh. reflexivity.
Qed.

(** In the run where [onReady] is called while the first check is
    suspended, one tweet timer is pending and the bound of two timeline
    checks is reached: two timeline timers are pending, the one-minute
    timer of the second [onReady] and the timer the resumed check armed,
    and [timelineLoopTimeout] holds only the latter. *)
Lemma posting_loops_stay_armed_witness :
  length (timersOf tweetLoop (run overlapped (onReady (1 # 2) initial))) = 1 /\
  timelineChecks (run overlapped (onReady (1 # 2) initial)) <= 2 /\
  map ident (timersOf timelineLoop (run overlapped (onReady (1 # 2) initial))) = [3; 4] /\
  timelineLoopTimeout (run overlapped (onReady (1 # 2) initial)) = Some 4.
Proof.
  assert (Hr : PostMore.unitInterval (1 # 2)) by (split; [discriminate | reflexivity]).
  destruct (posting_loops_stay_armed (1 # 2) overlapped Hr) as (_ & H1 & H2 & _).
  { repeat (constructor; [exact Hr |]). constructor. }
  split; [exact H1 |]. split; [exact H2 |]. split; reflexivity.
Defined.

End InterleavedLoopFacts.

(** ** The posting client: cutting a text at a sentence *)
Section TruncationFacts.
Import JSString Post PostMore.

Lemma append_assoc (a b c : string) : (a +:+ b) +:+ c = a +:+ (b +:+ c).
Proof.
  induction a as [| x a IH]; [reflexivity |].
  change (String x a +:+ b) with (String x (a +:+ b)).
  change (String x (a +:+ b) +:+ c) with (String x ((a +:+ b) +:+ c)).
  rewrite IH. reflexivity.
Qed.

(** Where a one-character pattern starts, the text splits around it. *)
Lemma prefix_char_split c s j :
  String.prefix (String c EmptyString) (substring j (String.length s - j) s) = true ->
  exists pre post, s = pre +:+ String c post /\ String.length pre = j.
Proof.
  revert j. induction s as [| a s IH]; intros j.
  - destruct j; cbn; discriminate.
  - destruct j as [| j].
    + cbn. destruct (ascii_dec c a) as [-> | _]; [| discriminate].
      intros _. exists EmptyString, s. split; reflexivity.
    + cbn [String.length Nat.sub substring]. intros H.
      destruct (IH j H) as (pre & post & -> & Hlen).
      exists (String a pre), post. split; [reflexivity | cbn; lia].
Qed.

Lemma substring_0_append pre rest n :
  substring 0 (String.length pre + n) (pre +:+ rest) = pre +:+ substring 0 n rest.
Proof.
  induction pre as [| a pre IH]; [reflexivity |].
  change (String a pre +:+ rest) with (String a (pre +:+ rest)).
  cbn. rewrite IH. reflexivity.
Qed.

Lemma trimEnd_keeps_last s c :
  isSpace c = false -> trimEnd (s +:+ String c EmptyString) = s +:+ String c EmptyString.
Proof.
  intros Hc. induction s as [| a s IH].
  - change (EmptyString +:+ String c EmptyString) with (String c EmptyString).
    cbn. rewrite Hc. reflexivity.
  - change (String a s +:+ String c EmptyString)
      with (String a (s +:+ String c EmptyString)).
    cbn [trimEnd]. rewrite IH.
    destruct s; reflexivity.
Qed.

Lemma trimStart_keeps_last s c :
  isSpace c = false ->
  exists s', trimStart (s +:+ String c EmptyString) = s' +:+ String c EmptyString /\
             String.length s' <= String.length s.
Proof.
  intros Hc. induction s as [| a s IH].
  - exists EmptyString.
    change (EmptyString +:+ String c EmptyString) with (String c EmptyString).
    cbn. rewrite Hc. split; [reflexivity | lia].
  - change (String a s +:+ String c EmptyString)
      with (String a (s +:+ String c EmptyString)).
    cbn [trimStart]. destruct (isSpace a).
    + destruct IH as (s' & -> & Hlen). exists s'. split; [reflexivity | cbn; lia].
    + exists (String a s). split; [reflexivity | lia].
Qed.

Lemma trim_keeps_last s c :
  isSpace c = false ->
  exists s', trim (s +:+ String c EmptyString) = s' +:+ String c EmptyString /\
             String.length s' <= String.length s.
Proof.
  intros Hc. unfold trim.
  destruct (trimStart_keeps_last s c Hc) as (s' & -> & Hlen).
  exists s'. split; [apply trimEnd_keeps_last, Hc | exact Hlen].
Qed.

Lemma lastIndexOf_found s c fromIndex j :
  lastIndexOf s (String c EmptyString) fromIndex = Z.of_nat j ->
  exists pre post, s = pre +:+ String c post /\ String.length pre = j.
Proof.
  unfold lastIndexOf. destruct (_ <? _)%Z; [lia |].
  intros H. apply lastIndexFrom_found in H. apply prefix_char_split in H. exact H.
Qed.

(** X14. When the last period at or before index 240 of a text over the limit
    lies before index 240, the text is cut after that period: the result
    ends with the period, is at most 240 characters long, and is the
    trimmed beginning of the text. *)
Theorem truncation_at_a_period_fits (text : string) :
  (MAX_TWEET_LENGTH < Z.of_nat (String.length text))%Z ->
  (0 <= lastIndexOf text "." MAX_TWEET_LENGTH < MAX_TWEET_LENGTH)%Z ->
  truncateToCompleteSentence text =
    trim (slice text 0 (lastIndexOf text "." MAX_TWEET_LENGTH + 1)) /\
  (exists sentence, truncateToCompleteSentence text = sentence +:+ ".") /\
  String.length (truncateToCompleteSentence text) <= 240.
Proof.
  intros Hover Hidx. unfold MAX_TWEET_LENGTH in *.
  destruct (Z_of_nat_complete _ (proj1 Hidx)) as [j Hj].
  destruct (lastIndexOf_found text "."%char 240 j Hj) as (pre & post & Htext & Hpre).
  unfold truncateToCompleteSentence, MAX_TWEET_LENGTH.
  destruct (_ <=? _)%Z eqn:Hle; [apply Z.leb_le in Hle; lia |].
  rewrite Hj in *. cbv zeta.
  assert (Hcut : slice text 0 (Z.of_nat j + 1) = pre +:+ ".").
  { unfold slice. cbv zeta. change (0 <? 0)%Z with false. cbv iota.
    destruct (Z.of_nat j + 1 <? 0)%Z eqn:H1; [apply Z.ltb_lt in H1; lia |].
    assert (E1 : Z.to_nat (Z.min 0 (Z.of_nat (String.length text))) = 0) by lia.
    assert (E2 : Z.to_nat (Z.min (Z.of_nat j + 1) (Z.of_nat (String.length text))
                           - Z.min 0 (Z.of_nat (String.length text)))
                 = String.length pre + 1) by lia.
    rewrite E1, E2, Htext, substring_0_append. f_equal. destruct post; reflexivity. }
  rewrite Hcut.
  destruct (trim_keeps_last pre "."%char eq_refl) as (s' & Htrim & Hlen).
  rewrite Htrim.
  assert (Hl : String.length (s' +:+ ".") = String.length s' + 1)
    by (rewrite length_append; reflexivity).
  destruct (0 <? String.length (s' +:+ "."))%nat eqn:Hpos;
    [| apply Nat.ltb_ge in Hpos; lia].
  split; [reflexivity |]. split; [exists s'; reflexivity | lia].
Qed.

(** The sentence "Hello there." is kept, the 300 letters after it go. *)
Lemma truncation_at_a_period_fits_witness :
  truncateToCompleteSentence ("Hello there. " +:+ longWord) = "Hello there." /\
  String.length (truncateToCompleteSentence ("Hello there. " +:+ longWord)) <= 240.
Proof.
  destruct (truncation_at_a_period_fits ("Hello there. " +:+ longWord))
    as (Heq & _ & Hlen);
    [vm_compute; reflexivity | vm_compute; split; [discriminate | reflexivity] |].
  split; [rewrite Heq; vm_compute; reflexivity | exact Hlen].
Defined.

(** X15. The result of a cut is never more than two characters longer than the
    text, and at most 243 characters long when the text has a space among
    its first 241 characters. *)
Theorem truncation_overshoot_is_bounded (text : string) :
  String.length (truncateToCompleteSentence text) <= String.length text + 2 /\
  ((0 <= lastIndexOf text " " MAX_TWEET_LENGTH)%Z ->
   String.length (truncateToCompleteSentence text) <= Nat.max (String.length text) 243).
Proof.
  unfold truncateToCompleteSentence, MAX_TWEET_LENGTH. cbv zeta.
  destruct (_ <=? _)%Z eqn:Hle; [split; intros; lia |].
  apply Z.leb_gt in Hle.
  pose proof (lastIndexOf_range text "." 240) as Hp.
  pose proof (lastIndexOf_range text " " 240) as Hs.
  pose proof (length_trim (slice text 0 (lastIndexOf text "." 240 + 1))) as L1.
  pose proof (length_trim (slice text 0 (lastIndexOf text " " 240))) as L2.
  pose proof (length_trim (slice text 0 (240 - 3))) as L3.
  rewrite length_slice_0 in L1, L2, L3.
  destruct (0 <? String.length (trim (slice text 0 (lastIndexOf text "." 240 + 1))))%nat.
  { destruct (_ <? 0)%Z eqn:H1 in L1;
      [apply Z.ltb_lt in H1 | apply Z.ltb_ge in H1]; split; intros; lia. }
  destruct (0 <? String.length (trim (slice text 0 (lastIndexOf text " " 240))))%nat;
    rewrite length_append; change (String.length "...") with 3.
  - destruct (_ <? 0)%Z eqn:H2 in L2;
      [apply Z.ltb_lt in H2 | apply Z.ltb_ge in H2]; split; intros; lia.
  - destruct (_ <? 0)%Z eqn:H3 in L3;
      [apply Z.ltb_lt in H3 | apply Z.ltb_ge in H3]; split; intros; lia.
Qed.

End TruncationFacts.

(** ** The posting client: image posts and the batch flag *)
Section ImagePostFacts.
Import JSString Post PostMore.

Lemma splitLines_nonempty s : splitLines s <> [].
Proof.
  destruct s as [| a s]; cbn; [discriminate |].
  destruct (Ascii.eqb a _); [discriminate |].
  destruct (splitLines s); discriminate.
Qed.

(** Splitting at the line breaks and joining again gives the text back. *)
Lemma join_splitLines s : join LF (splitLines s) = s.
Proof.
  induction s as [| a s IH]; [reflexivity |].
  cbn [splitLines]. destruct (Ascii.eqb a (ascii_of_nat 10)) eqn:Ha.
  - apply Ascii.eqb_eq in Ha. subst a.
    pose proof (splitLines_nonempty s).
    destruct (splitLines s) as [| l ls] eqn:E; [contradiction |].
    change (join LF (EmptyString :: l :: ls))
      with (EmptyString +:+ LF +:+ join LF (l :: ls)).
    rewrite IH. reflexivity.
  - pose proof (splitLines_nonempty s).
    destruct (splitLines s) as [| l ls] eqn:E; [contradiction |].
    destruct ls as [| l' ls].
    + cbn [join] in *. rewrite IH. reflexivity.
    + change (join LF (String a l :: l' :: ls))
        with (String a (l +:+ LF +:+ join LF (l' :: ls))).
      change (join LF (l :: l' :: ls)) with (l +:+ LF +:+ join LF (l' :: ls)) in IH.
      rewrite IH. reflexivity.
Qed.

Lemma prefix_LF_head s : String.prefix LF (String (ascii_of_nat 10) s) = true.
Proof. destruct s; reflexivity. Qed.

(** The first line of a text is split off at its first line break. *)
Lemma splitLines_first first rest :
  includes first LF = false ->
  splitLines (first +:+ LF +:+ rest) = first :: splitLines rest.
Proof.
  induction first as [| a first IH]; intros Hno.
  - reflexivity.
  - change (String a first +:+ LF +:+ rest) with (String a (first +:+ LF +:+ rest)).
    cbn [splitLines]. cbn [includes] in Hno.
    apply orb_false_iff in Hno as [Hpre Hno].
    destruct (Ascii.eqb a (ascii_of_nat 10)) eqn:Ha.
    + apply Ascii.eqb_eq in Ha. subst a. rewrite prefix_LF_head in Hpre. discriminate.
    + rewrite (IH Hno). reflexivity.
Qed.

Lemma splitLines_single first :
  includes first LF = false -> splitLines first = [first].
Proof.
  induction first as [| a first IH]; intros Hno; [reflexivity |].
  cbn [splitLines]. cbn [includes] in Hno.
  apply orb_false_iff in Hno as [Hpre Hno].
  destruct (Ascii.eqb a (ascii_of_nat 10)) eqn:Ha.
  - apply Ascii.eqb_eq in Ha. subst a. rewrite prefix_LF_head in Hpre. discriminate.
  - rewrite (IH Hno). reflexivity.
Qed.

Lemma prefix_append p s t : String.prefix p s = true -> String.prefix p (s +:+ t) = true.
Proof.
  revert s. induction p as [| a p IH]; intros s H.
  - destruct (s +:+ t); reflexivity.
  - destruct s as [| b s]; [discriminate |].
    change (String b s +:+ t) with (String b (s +:+ t)). cbn in *.
    destruct (ascii_dec a b); [apply IH, H | discriminate].
Qed.

(** X16. When the model's answer begins with an [IMAGE] line, that line is
    never part of the post: the text handed to [sendTweet] is the rest of
    the answer, trimmed and cut, whether the image could be generated or
    not; an answer that holds the [IMAGE] line alone is posted as the empty
    text. *)
Theorem image_prompt_line_is_not_posted
    (newTweetContent first rest : string)
    (generateImage : string -> Outcome ImageResult) :
  String.prefix "[IMAGE]" first = true ->
  includes first LF = false ->
  (trim (replaceAll newTweetContent backslash_n LF) = first +:+ LF +:+ rest ->
     fst (tweetToSend newTweetContent generateImage)
       = truncateToCompleteSentence (trim rest)) /\
  (trim (replaceAll newTweetContent backslash_n LF) = first ->
     fst (tweetToSend newTweetContent generateImage) = EmptyString).
Proof.
  intros Hpre Hno. unfold tweetToSend. cbv zeta. split; intros ->.
  - rewrite (prefix_append _ _ _ Hpre), (splitLines_first _ _ Hno), join_splitLines.
    destruct (generateImage _) as [[ok [[| b l] |]] | m]; try destruct ok; reflexivity.
  - rewrite Hpre, (splitLines_single _ Hno).
    destruct (generateImage _) as [[ok [[| b l] |]] | m]; try destruct ok; reflexivity.
Qed.

(** "[IMAGE] a cat" followed by a line is posted as that line; alone, as
    nothing. *)
Lemma image_prompt_line_is_not_posted_witness :
  fst (tweetToSend ("[IMAGE] a cat" +:+ LF +:+ "look at this") (fun _ => Rejected None))
    = "look at this" /\
  fst (tweetToSend "[IMAGE] a cat" (fun _ => Rejected None)) = EmptyString.
Proof.
  split.
  - exact (proj1 (image_prompt_line_is_not_posted
                    ("[IMAGE] a cat" +:+ LF +:+ "look at this") "[IMAGE] a cat"
                    "look at this" (fun _ => Rejected None) eq_refl eq_refl) eq_refl).
  - exact (proj2 (image_prompt_line_is_not_posted
                    "[IMAGE] a cat" "[IMAGE] a cat" EmptyString
                    (fun _ => Rejected None) eq_refl eq_refl) eq_refl).
Defined.

(** The collapsed [processTweetActions] of the timeline loop is its prefix
    followed by its [finally]. *)
Lemma processTweetActions_split now c :
  processTweetActions now c =
    match processTweetActions_enter now c with
    | (c1, true) => processTweetActions_leave c1
    | (c1, false) => c1
    end.
Proof.
  unfold processTweetActions, processTweetActions_enter, processTweetActions_leave.
  destruct (isProcessing c); reflexivity.
Qed.

Lemma batch_inv_step b b' : batch_inv b -> batch_step b b' -> batch_inv b'.
Proof.
  intros [Hle Hiff] Hstep. destruct Hstep as [now b | b Hpos].
  - unfold call, processTweetActions_enter.
    destruct (isProcessing (postClient b)) eqn:Hp.
    + unfold batch_inv. cbn. rewrite Hp. exact (conj Hle Hiff).
    + assert (running b = 0).
      { destruct (running b) as [| [| n]]; [reflexivity | | lia].
        destruct Hiff as [_ H]. specialize (H eq_refl). discriminate. }
      unfold batch_inv. cbn. split; [lia | split; intros; [lia | reflexivity]].
  - unfold leave. destruct (running b) as [| n] eqn:Hn; [lia |].
    unfold batch_inv. cbn. split; [lia | split; [discriminate | lia]].
Qed.

(** X17. [processTweetActions] never runs twice at once: in every state reached
    from an idle client by calls and completions, at most one body is
    suspended, [isProcessing] is set exactly while one is, and a call made
    meanwhile returns at once, leaving [lastProcessTime] and everything else
    as it was. *)
Theorem timeline_batch_never_overlaps (b : Batch) :
  rtc batch_step idle b ->
  running b <= 1 /\
  (isProcessing (postClient b) = true <-> running b = 1) /\
  (forall now, running b = 1 -> call now b = b).
Proof.
  intros Hrun.
  assert (Hinv : batch_inv b).
  { refine (rtc_ind_r (R := batch_step) batch_inv idle _ _ b Hrun).
    - unfold batch_inv. cbn. split; [lia | split; discriminate].
    - intros b1 b2 _ Hstep IH. exact (batch_inv_step b1 b2 IH Hstep). }
  destruct Hinv as [Hle Hiff]. split; [exact Hle |]. split; [exact Hiff |].
  intros now H1. apply Hiff in H1.
  unfold call, processTweetActions_enter. rewrite H1. destruct b; reflexivity.
Qed.

(** A second call, a minute into the first, changes nothing. *)
Lemma timeline_batch_never_overlaps_witness :
  running (call t0 idle) = 1 /\
  call (t0 + 60000) (call t0 idle) = call t0 idle.
Proof.
  split; [reflexivity |].
  refine (proj2 (proj2 (timeline_batch_never_overlaps (call t0 idle) _))
            (t0 + 60000)%Z eq_refl).
  apply rtc_once. constructor.
Defined.

End ImagePostFacts.

(** ** The realtime client: losing and regaining the connection *)
Section RealtimeRunFacts.
Import Realtime RealtimeRuns.

Lemma reconnect_state ev c :
  isConnected (reconnect ev c) = true /\
  ws (reconnect ev c) = Some OPEN /\
  heartbeatInterval (reconnect ev c) = Some 30000%Z /\
  reconnectTimeout (reconnect ev c) = Some 5000%Z /\
  sent (reconnect ev c) = sent c ++ option_list (joined ev).
Proof.
  destruct ev as [[[]|m] now]; repeat split; cbn; rewrite ?app_nil_r; reflexivity.
Qed.

(** X7. However often the connection is lost and regained, the client comes
    back connected with the heartbeat armed at 30 s, through a reconnect
    timer of 5 s whatever the number of earlier losses, and it sends one
    subscription request per reconnect whose send succeeded and none for
    the others: a failed subscription is not retried. *)
Theorem every_reconnect_resubscribes_once (evs : list (Outcome unit * Z)) (c : Client) :
  sent (reconnects evs c) = sent c ++ omap joined evs /\
  (evs <> [] ->
     isConnected (reconnects evs c) = true /\
     ws (reconnects evs c) = Some OPEN /\
     heartbeatInterval (reconnects evs c) = Some 30000%Z /\
     reconnectTimeout (reconnects evs c) = Some 5000%Z).
Proof.
  revert c. induction evs as [| ev evs IH] using rev_ind; intros c.
  - split; [cbn; rewrite app_nil_r; reflexivity | congruence].
  - unfold reconnects in *. rewrite fold_left_app. cbn [fold_left].
    destruct (reconnect_state ev (fold_left (fun c ev => reconnect ev c) evs c))
      as (H1 & H2 & H3 & H4 & H5).
    split; [| intros _; auto].
    rewrite H5, (proj1 (IH c)), omap_app, <- app_assoc. cbn.
    destruct (joined ev); reflexivity.
Qed.

(** X8. The close handler does not tell a deliberate [disconnect] from a lost
    connection: [disconnect] clears both timers, but when the close event
    of the socket it closed arrives, a reconnect is armed 5 s ahead, and the
    [connect] it runs opens a new socket. *)
Theorem close_after_disconnect_reconnects (c : Client) :
  isConnected (disconnect c) = false /\
  heartbeatInterval (disconnect c) = None /\
  reconnectTimeout (disconnect c) = None /\
  reconnectTimeout (onclose (disconnect c)) = Some 5000%Z /\
  ws (connect (onclose (disconnect c))) = Some CONNECTING.
Proof. repeat split. Qed.

End RealtimeRunFacts.

(** ** search.ts: whom the engagement loop answers *)
Section SearchFacts.
Import JSString Search.

Lemma at_index_In {A : Type} (l : list A) (i : Z) (x : A) :
  at_index l i = Some x -> In x l.
Proof.
  unfold at_index. destruct (i <? 0)%Z; [discriminate |].
  intros H. apply list_elem_of_In. eapply list_elem_of_lookup_2. exact H.
Qed.

Lemma f_select_Some run bot followedUsernames c selectedTweet :
  f_select run bot followedUsernames c = Resolved (Some selectedTweet) ->
  exists homeTimeline,
    f_fetchHomeTimeline run = Resolved homeTimeline /\
    In selectedTweet homeTimeline /\
    validTweet bot c followedUsernames selectedTweet = true.
Proof.
  unfold f_select.
  destruct (f_cacheDir run) as [[] |]; cbn; [| discriminate].
  destruct (f_fetchHomeTimeline run) as [homeTimeline |]; cbn; [| discriminate].
  destruct (f_writeTimeline run) as [[] |]; cbn; [| discriminate].
  destruct (List.filter _ homeTimeline) as [| v vs] eqn:Hf; [discriminate |].
  destruct (at_index _ _) as [t |] eqn:Hat; [| discriminate].
  intros [= ->]. exists homeTimeline. split; [reflexivity |].
  apply at_index_In in Hat. rewrite <- Hf in Hat.
  apply List.filter_In in Hat. exact Hat.
Qed.

Lemma f_respond_Some run responseText :
  f_respond run = Resolved (Some responseText) -> truthy responseText = true.
Proof.
  unfold f_respond.
  destruct (f_ensureConnection run) as [[] |]; cbn; [| discriminate].
  destruct (f_buildConversationThread run) as [[] |]; cbn; [| discriminate].
  destruct (f_composeState run) as [[] |]; cbn; [| discriminate].
  destruct (f_generateMessageResponse run) as [t |]; cbn; [| discriminate].
  destruct (truthy t) eqn:Ht; cbn; [| discriminate]. intros [= <-]. exact Ht.
Qed.

Lemma f_try_spec run bot followedUsernames c c' reply :
  f_try run bot followedUsernames c = (c', reply) ->
  (c' = c \/
   exists r, reply = Some r /\ f_sendTweet run = Resolved () /\
             c' = respond (id (inReplyTo r)) c) /\
  forall r, reply = Some r ->
    truthy (replyText r) = true /\
    exists homeTimeline,
      f_fetchHomeTimeline run = Resolved homeTimeline /\
      In (inReplyTo r) homeTimeline /\
      validTweet bot c followedUsernames (inReplyTo r) = true.
Proof.
  unfold f_try.
  destruct (f_select run bot followedUsernames c) as [[t |] |] eqn:Hsel;
    try (intros [= <- <-]; split; [left; reflexivity | discriminate]).
  destruct (f_respond run) as [[responseText |] |] eqn:Hres;
    try (intros [= <- <-]; split; [left; reflexivity | discriminate]).
  apply f_select_Some in Hsel. apply f_respond_Some in Hres.
  destruct (f_sendTweet run) as [[] |]; intros [= <- <-]; (split;
    [| intros r [= <-]; split; [exact Hres | exact Hsel]]).
  - right. eexists. repeat split.
  - left. reflexivity.
Qed.

Lemma engageWithFollowedAccounts_spec run bot c c' reply o :
  engageWithFollowedAccounts run bot c = (c', reply, o) ->
  isSearchTurn c' = isSearchTurn c /\
  (respondedTweets c' = respondedTweets c \/
   exists r, reply = Some r /\ f_sendTweet run = Resolved () /\
             respondedTweets c' = {[id (inReplyTo r)]} ∪ respondedTweets c) /\
  (followedRejects run = true -> reply = None /\ exists m, o = Rejected m) /\
  (followedRejects run = false -> o = Resolved ()) /\
  forall r, reply = Some r ->
    truthy (replyText r) = true /\
    exists followedUsernames homeTimeline,
      fetchProfileFollowing run = Resolved followedUsernames /\
      f_fetchHomeTimeline run = Resolved homeTimeline /\
      In (inReplyTo r) homeTimeline /\
      validTweet bot c followedUsernames (inReplyTo r) = true.
Proof.
  unfold engageWithFollowedAccounts, followedRejects.
  destruct (getUserId run) as [userId | m].
  2:{ intros [= <- <- <-]. repeat split; eauto; discriminate. }
  destruct (truthy_opt userId); cbn [negb andb].
  2:{ intros [= <- <- <-]. repeat split; eauto; discriminate. }
  destruct (fetchProfileFollowing run) as [followedUsernames | m].
  2:{ intros [= <- <- <-]. repeat split; eauto; discriminate. }
  destruct (f_try run bot followedUsernames _) as [c2 reply2] eqn:Htry.
  intros [= <- <- <-]. apply f_try_spec in Htry.
  destruct Htry as [Hc Hr]. split; [| split; [| split; [| split]]].
  - destruct Hc as [-> | (r & _ & _ & ->)]; reflexivity.
  - destruct Hc as [-> | (r & -> & Hs & ->)]; [left; reflexivity |].
    right. exists r. repeat split. exact Hs.
  - discriminate.
  - reflexivity.
  - intros r Hrep. destruct (Hr r Hrep) as (Ht & homeTimeline & H1 & H2 & H3).
    split; [exact Ht |]. exists followedUsernames, homeTimeline. repeat split; assumption.
Qed.

(** X18. Whom followed-accounts mode answers. Whenever
    [engageWithFollowedAccounts] calls [sendTweet], the tweet answered is
    one of the home timeline, written by a followed account other than the
    agent, not yet recorded as answered, and not a reply to a tweet of the
    agent in its thread; the text sent is not empty. *)
Theorem followed_mode_reply_target
    (run : FollowedRun) (bot : option string) (c c' : Client) (r : Reply) (o : Outcome unit) :
  engageWithFollowedAccounts run bot c = (c', Some r, o) ->
  truthy (replyText r) = true /\
  (id (inReplyTo r) ∉ respondedTweets c) /\
  Interaction.strictEq (username (inReplyTo r)) bot = false /\
  isReplyToBot bot (inReplyTo r) = false /\
  exists followedUsernames homeTimeline,
    fetchProfileFollowing run = Resolved followedUsernames /\
    f_fetchHomeTimeline run = Resolved homeTimeline /\
    In (inReplyTo r) homeTimeline /\
    username (inReplyTo r) ∈ followedUsernames.
Proof.
  intros H. apply engageWithFollowedAccounts_spec in H.
  destruct H as (_ & _ & _ & _ & Hr).
  destruct (Hr r eq_refl) as (Ht & fu & tl & H1 & H2 & H3 & Hv).
  unfold validTweet in Hv.
  apply andb_prop in Hv as [Hv H7]. apply andb_prop in Hv as [Hv H6].
  apply andb_prop in Hv as [H4 H5].
  apply negb_true_iff in H4, H5, H6.
  apply bool_decide_eq_false in H5. apply bool_decide_eq_true in H7.
  repeat split; try assumption.
  exists fu, tl. repeat split; assumption.
Qed.

Lemma followed_mode_reply_target_witness :
  engageWithFollowedAccounts (sampleFollowed (Resolved ())) (Some "agent") newClient
    = (respond "101" {| respondedTweets := ∅; isSearchTurn := false;
                        twitterUserId := Some "7" |},
       Some {| inReplyTo := tweetOf "101" "ann" "gm"; replyText := "gm ann" |},
       Resolved ()) /\
  "101" ∉ respondedTweets newClient.
Proof.
  assert (H : engageWithFollowedAccounts (sampleFollowed (Resolved ())) (Some "agent") newClient
    = (respond "101" {| respondedTweets := ∅; isSearchTurn := false;
                        twitterUserId := Some "7" |},
       Some {| inReplyTo := tweetOf "101" "ann" "gm"; replyText := "gm ann" |},
       Resolved ())) by reflexivity.
  split; [exact H |].
  exact (proj1 (proj2 (followed_mode_reply_target _ _ _ _ _ _ H))).
Defined.

Lemma includes_empty s : includes s EmptyString = true.
Proof. destruct s; reflexivity. Qed.

Lemma s_candidates_spec run slicedTweets homeTimeline :
  s_candidates run = Resolved (slicedTweets, homeTimeline) ->
  exists recentTweets,
    fetchSearchTweets run = Resolved recentTweets /\
    s_fetchHomeTimeline run = Resolved homeTimeline /\
    slicedTweets = firstn 20 (shuffle run recentTweets).
Proof.
  unfold s_candidates.
  destruct (s_setup run) as [[] |]; cbn; [| discriminate].
  destruct (fetchSearchTweets run) as [recentTweets |]; cbn; [| discriminate].
  destruct (s_fetchHomeTimeline run) as [home |]; cbn; [| discriminate].
  destruct (s_writeTimeline run) as [[] |]; cbn; [| discriminate].
  intros [= <- <-]. eauto.
Qed.

Lemma s_select_Some run bot selectedTweet :
  s_select run bot = Resolved (Some selectedTweet) ->
  Interaction.strictEq (username selectedTweet) bot = false /\
  exists slicedTweets homeTimeline answer,
    s_candidates run = Resolved (slicedTweets, homeTimeline) /\
    generateText run = Resolved answer /\
    List.find (named (trim answer)) (slicedTweets ++ homeTimeline) = Some selectedTweet.
Proof.
  unfold s_select.
  destruct (s_candidates run) as [[slicedTweets homeTimeline] |]; cbn; [| discriminate].
  destruct slicedTweets as [| first rest]; [discriminate |].
  remember ((first :: rest) ++ homeTimeline) as candidates eqn:Hcands.
  destruct (generateText run) as [answer |]; cbn; [| discriminate].
  destruct (List.find _ candidates) as [t |] eqn:Hfind; [| discriminate].
  destruct (Interaction.strictEq (username t) bot) eqn:Hown; [discriminate |].
  intros [= <-]. split; [exact Hown |].
  exists (first :: rest), homeTimeline, answer. subst candidates.
  repeat split. exact Hfind.
Qed.

Lemma s_respond_Some run selectedTweet responseText :
  s_respond run selectedTweet = Resolved (Some responseText) ->
  truthy (text selectedTweet) = true /\ truthy responseText = true.
Proof.
  unfold s_respond.
  destruct (s_ensureConnection run) as [[] |]; cbn; [| discriminate].
  destruct (s_buildConversationThread run) as [[] |]; cbn; [| discriminate].
  destruct (truthy (text selectedTweet)); cbn; [| discriminate].
  destruct (if isRetweet selectedTweet then getTweet run else Resolved ()) as [[] |];
    cbn; [| discriminate].
  destruct (s_context run) as [[] |]; cbn; [| discriminate].
  destruct (s_generateMessageResponse run) as [t |]; cbn; [| discriminate].
  destruct (truthy t) eqn:Ht; cbn; [| discriminate]. intros [= <-]. auto.
Qed.

Lemma engageWithSearchTerms_spec run bot c c' reply :
  engageWithSearchTerms run bot c = (c', reply) ->
  isSearchTurn c' = isSearchTurn c /\
  (respondedTweets c' = respondedTweets c \/
   exists r, reply = Some r /\
             respondedTweets c' = {[id (inReplyTo r)]} ∪ respondedTweets c) /\
  forall r, reply = Some r ->
    s_select run bot = Resolved (Some (inReplyTo r)) /\
    s_respond run (inReplyTo r) = Resolved (Some (replyText r)).
Proof.
  unfold engageWithSearchTerms.
  destruct (s_select run bot) as [[t |] |] eqn:Hsel;
    try (intros [= <- <-]; split; [reflexivity | split; [left; reflexivity | discriminate]]).
  destruct (s_respond run t) as [[responseText |] |] eqn:Hres;
    try (intros [= <- <-]; split; [reflexivity | split; [left; reflexivity | discriminate]]).
  destruct (_ ← s_sendTweet run; s_afterSend run) as [[] |]; intros [= <- <-];
    (split; [reflexivity | split; [| intros r [= <-]; split; cbn;
       first [reflexivity | assumption]]]).
  - right. eexists. split; reflexivity.
  - left. reflexivity.
Qed.

(** X19. Whom search mode answers. Whenever [engageWithSearchTerms] calls
    [sendTweet], the tweet answered is the first of the candidates (at most
    20 search results in their shuffled order, then the home timeline)
    whose id contains the model's trimmed answer or is contained in it; it
    is not by the agent, it has a text, and the text sent is not empty. *)
Theorem search_mode_reply_target
    (run : SearchRun) (bot : option string) (c c' : Client) (r : Reply) :
  engageWithSearchTerms run bot c = (c', Some r) ->
  truthy (replyText r) = true /\
  truthy (text (inReplyTo r)) = true /\
  Interaction.strictEq (username (inReplyTo r)) bot = false /\
  exists recentTweets homeTimeline answer,
    fetchSearchTweets run = Resolved recentTweets /\
    s_fetchHomeTimeline run = Resolved homeTimeline /\
    generateText run = Resolved answer /\
    List.find (named (trim answer))
      (firstn 20 (shuffle run recentTweets) ++ homeTimeline) = Some (inReplyTo r).
Proof.
  intros H. apply engageWithSearchTerms_spec in H.
  destruct H as (_ & _ & Hr). destruct (Hr r eq_refl) as [Hsel Hres].
  apply s_respond_Some in Hres as [Htext Hreply].
  apply s_select_Some in Hsel as (Hown & sliced & home & answer & Hc & Hg & Hfind).
  apply s_candidates_spec in Hc as (recent & H1 & H2 & ->).
  repeat split; try assumption.
  exists recent, home, answer. repeat split; assumption.
Qed.

Lemma search_mode_reply_target_witness :
  engageWithSearchTerms (sampleSearch " 202 ") (Some "agent") newClient
    = (respond "202" newClient,
       Some {| inReplyTo := tweetOf "202" "dog" "woof"; replyText := "nice one" |}) /\
  truthy "nice one" = true.
Proof.
  assert (H : engageWithSearchTerms (sampleSearch " 202 ") (Some "agent") newClient
    = (respond "202" newClient,
       Some {| inReplyTo := tweetOf "202" "dog" "woof"; replyText := "nice one" |}))
    by reflexivity.
  split; [exact H |].
  exact (proj1 (search_mode_reply_target _ _ _ _ _ H)).
Defined.

Lemma blank_answer_selection
    (run : SearchRun) (bot : option string) (answer : string)
    (first : Tweet) (rest homeTimeline : list Tweet) :
  s_candidates run = Resolved (first :: rest, homeTimeline) ->
  generateText run = Resolved answer ->
  trim answer = EmptyString ->
  s_select run bot =
    Resolved (if Interaction.strictEq (username first) bot then None else Some first).
Proof.
  intros Hc Hg Ht. unfold s_select. rewrite Hc. cbn. rewrite Hg. cbn.
  rewrite Ht. unfold named at 1. rewrite includes_empty. cbn.
  destruct (Interaction.strictEq (username first) bot); reflexivity.
Qed.

(** X20. A blank answer names every tweet. When the model's answer is empty
    or only white space, the selection is the first candidate, whatever its
    id. If the agent wrote it, nothing is sent; otherwise [sendTweet] is
    called for it exactly when the awaited calls resolve, the tweet has a
    text and the generated reply is not empty, and for no other tweet. *)
Theorem blank_answer_selects_first_candidate
    (run : SearchRun) (bot : option string) (answer : string)
    (first : Tweet) (rest homeTimeline : list Tweet) (c : Client) :
  s_candidates run = Resolved (first :: rest, homeTimeline) ->
  generateText run = Resolved answer ->
  trim answer = EmptyString ->
  s_select run bot =
    Resolved (if Interaction.strictEq (username first) bot then None else Some first) /\
  snd (engageWithSearchTerms run bot c) =
    (if Interaction.strictEq (username first) bot then None
     else match s_respond run first with
          | Resolved (Some responseText) =>
              Some {| inReplyTo := first; replyText := responseText |}
          | _ => None
          end) /\
  (forall responseText,
     s_respond run first = Resolved (Some responseText) <->
     s_ensureConnection run = Resolved () /\
     s_buildConversationThread run = Resolved () /\
     truthy (text first) = true /\
     (isRetweet first = true -> getTweet run = Resolved ()) /\
     s_context run = Resolved () /\
     s_generateMessageResponse run = Resolved responseText /\
     truthy responseText = true).
Proof.
  intros Hc Hg Ht.
  pose proof (blank_answer_selection run bot answer first rest homeTimeline Hc Hg Ht)
    as Hsel.
  split; [exact Hsel |]. split.
  - unfold engageWithSearchTerms. rewrite Hsel.
    destruct (Interaction.strictEq (username first) bot); [reflexivity |].
    destruct (s_respond run first) as [[responseText |] | m]; try reflexivity.
    destruct (_ ← s_sendTweet run; s_afterSend run); reflexivity.
  - intros responseText. unfold s_respond.
    destruct (s_ensureConnection run) as [[] |]; cbn;
      [| split; [discriminate | intros (H & _); discriminate]].
    destruct (s_buildConversationThread run) as [[] |]; cbn;
      [| split; [discriminate | intros (_ & H & _); discriminate]].
    destruct (truthy (text first)); cbn;
      [| split; [discriminate | intros (_ & _ & H & _); discriminate]].
    destruct (isRetweet first).
    + destruct (getTweet run) as [[] |]; cbn;
        [| split; [discriminate | intros (_ & _ & _ & H & _); discriminate (H eq_refl)]].
      destruct (s_context run) as [[] |]; cbn;
        [| split; [discriminate | intros (_ & _ & _ & _ & H & _); discriminate]].
      destruct (s_generateMessageResponse run) as [t |]; cbn;
        [| split; [discriminate | intros (_ & _ & _ & _ & _ & H & _); discriminate]].
      destruct (truthy t) eqn:Et; cbn; split.
      * intros [= <-]. repeat split; auto.
      * intros (_ & _ & _ & _ & _ & [= <-] & _). reflexivity.
      * discriminate.
      * intros (_ & _ & _ & _ & _ & [= <-] & H). congruence.
    + cbn.
      destruct (s_context run) as [[] |]; cbn;
        [| split; [discriminate | intros (_ & _ & _ & _ & H & _); discriminate]].
      destruct (s_generateMessageResponse run) as [t |]; cbn;
        [| split; [discriminate | intros (_ & _ & _ & _ & _ & H & _); discriminate]].
      destruct (truthy t) eqn:Et; cbn; split.
      * intros [= <-]. repeat split; auto. discriminate.
      * intros (_ & _ & _ & _ & _ & [= <-] & _). reflexivity.
      * discriminate.
      * intros (_ & _ & _ & _ & _ & [= <-] & H). congruence.
Qed.

(** A blank answer with the sample search: the first result, "201", is
    answered although the answer names no id. *)
Lemma blank_answer_selects_first_candidate_witness :
  s_select (sampleSearch "  ") (Some "agent") = Resolved (Some (tweetOf "201" "cat" "meow")) /\
  snd (engageWithSearchTerms (sampleSearch "  ") (Some "agent") newClient)
    = Some {| inReplyTo := tweetOf "201" "cat" "meow"; replyText := "nice one" |}.
Proof.
  pose proof (blank_answer_selects_first_candidate (sampleSearch "  ") (Some "agent") "  "
                (tweetOf "201" "cat" "meow") [tweetOf "202" "dog" "woof"]
                [tweetOf "101" "ann" "gm"] newClient eq_refl eq_refl eq_refl)
    as (Hsel & Hsent & _).
  split; [exact Hsel | exact Hsent].
Defined.

(** X21. Search mode does not consult the record of answered tweets. A run
    that answered a tweet and recorded it answers the same tweet again when
    the same search results, timeline and model answers come back. *)
Theorem search_mode_answers_again
    (run : SearchRun) (bot : option string) (c c' : Client) (r : Reply) :
  engageWithSearchTerms run bot c = (c', Some r) ->
  s_sendTweet run = Resolved () ->
  s_afterSend run = Resolved () ->
  id (inReplyTo r) ∈ respondedTweets c' /\
  snd (engageWithSearchTerms run bot c') = Some r.
Proof.
  intros H Hs Ha. unfold engageWithSearchTerms in *.
  destruct (s_select run bot) as [[t |] |]; try discriminate.
  destruct (s_respond run t) as [[responseText |] |]; try discriminate.
  rewrite Hs, Ha in *. cbn in *. injection H as <- <-. cbn.
  split; [apply elem_of_union_l, elem_of_singleton; reflexivity | reflexivity].
Qed.

Lemma search_mode_answers_again_witness :
  "202" ∈ respondedTweets (respond "202" newClient) /\
  snd (engageWithSearchTerms (sampleSearch "202") (Some "agent") (respond "202" newClient))
    = Some {| inReplyTo := tweetOf "202" "dog" "woof"; replyText := "nice one" |}.
Proof.
  exact (search_mode_answers_again (sampleSearch "202") (Some "agent") newClient
           (respond "202" newClient)
           {| inReplyTo := tweetOf "202" "dog" "woof"; replyText := "nice one" |}
           eq_refl eq_refl eq_refl).
Defined.

Lemma engage_spec r bot c c' reply o :
  engage r bot c = (c', reply, o) ->
  (respondedTweets c' = respondedTweets c \/
   exists rep, reply = Some rep /\
               respondedTweets c' = {[id (inReplyTo rep)]} ∪ respondedTweets c) /\
  (isSearchTurn c = true -> isSearchTurn c' = false) /\
  (isSearchTurn c = false ->
     isSearchTurn c' = negb (followedRejects (followed r)) /\
     (followedRejects (followed r) = true -> reply = None)).
Proof.
  unfold engage. destruct (isSearchTurn c) eqn:Hturn.
  - destruct (engageWithSearchTerms (search r) bot c) as [c1 reply1] eqn:He.
    intros [= <- <- <-]. apply engageWithSearchTerms_spec in He.
    destruct He as (Ht & Hresp & _). cbn. rewrite Ht, Hturn.
    split; [exact Hresp |]. split; [reflexivity | discriminate].
  - destruct (engageWithFollowedAccounts (followed r) bot c) as [[c1 reply1] o1] eqn:He.
    apply engageWithFollowedAccounts_spec in He.
    destruct He as (Ht & Hresp & Hrej & Hok & _).
    assert (Hresp' : respondedTweets c1 = respondedTweets c \/
              exists rep, reply1 = Some rep /\
                respondedTweets c1 = {[id (inReplyTo rep)]} ∪ respondedTweets c).
    { destruct Hresp as [-> | (rep & -> & _ & ->)]; [left; reflexivity |].
      right. exists rep. split; reflexivity. }
    destruct (followedRejects (followed r)) eqn:Hf.
    + destruct (Hrej eq_refl) as [-> [m ->]]. intros [= <- <- <-].
      rewrite Ht, Hturn. split; [exact Hresp' |].
      split; [discriminate | intros _; split; [reflexivity | reflexivity]].
    + rewrite (Hok eq_refl). intros [= <- <- <-]. cbn. rewrite Ht, Hturn.
      split; [exact Hresp' |].
      split; [discriminate | intros _; split; [reflexivity | discriminate]].
Qed.

(** X22. A failing following request keeps the loop out of search mode. From
    followed-accounts mode, as long as the user id is found and the request
    for the followed profiles rejects in each round, [engage] rejects
    before it toggles the mode: the loop stays in followed-accounts mode,
    never runs a search, answers nothing and records nothing. *)
Theorem failed_following_fetch_blocks_search_mode
    (rs : list Round) (bot : option string) (c : Client) :
  isSearchTurn c = false ->
  Forall (fun r => followedRejects (followed r) = true) rs ->
  isSearchTurn (fst (rounds rs bot c)) = false /\
  respondedTweets (fst (rounds rs bot c)) = respondedTweets c /\
  snd (rounds rs bot c) = [].
Proof.
  intros Hturn Hall. revert c Hturn.
  induction Hall as [| r rest Hr _ IH]; intros c Hturn; [cbn; auto |].
  cbn [rounds].
  destruct (engage r bot c) as [[c1 reply] o] eqn:He.
  apply engage_spec in He. destruct He as (Hresp & _ & Hf).
  destruct (Hf Hturn) as [Ht Hnone]. rewrite Hr in Ht. cbn in Ht.
  specialize (Hnone Hr). subst reply.
  destruct Hresp as [Hresp | (rep & Hrep & _)]; [| discriminate].
  destruct (IH c1 Ht) as (H1 & H2 & H3).
  destruct (rounds rest bot c1) as [c2 replies]. cbn in *.
  rewrite H1, H2, H3, Hresp. auto.
Qed.

Lemma failed_following_fetch_blocks_search_mode_witness :
  isSearchTurn (fst (rounds [ {| search := sampleSearch "202"; followed := failingFollowed |};
                              {| search := sampleSearch "202"; followed := failingFollowed |} ]
                       (Some "agent") newClient)) = false.
Proof.
  refine (proj1 (failed_following_fetch_blocks_search_mode _ (Some "agent") newClient
                   eq_refl _)).
  constructor; [reflexivity |]. constructor; [reflexivity |]. constructor.
Defined.

(** X23. The modes alternate otherwise. When no followed-accounts call
    rejects, every round toggles the mode, so after [n] rounds the mode has
    changed exactly when [n] is odd. *)
Theorem engagement_modes_alternate
    (rs : list Round) (bot : option string) (c : Client) :
  Forall (fun r => followedRejects (followed r) = false) rs ->
  isSearchTurn (fst (rounds rs bot c)) = xorb (isSearchTurn c) (Nat.odd (length rs)).
Proof.
  intros Hall. revert c.
  induction Hall as [| r rest Hr _ IH]; intros c.
  { cbn. destruct (isSearchTurn c); reflexivity. }
  cbn [rounds length].
  destruct (engage r bot c) as [[c1 reply] o] eqn:He.
  apply engage_spec in He. destruct He as (_ & Hs & Hf).
  specialize (IH c1).
  destruct (rounds rest bot c1) as [c2 replies]. cbn [fst] in *.
  rewrite IH, Nat.odd_succ, <- Nat.negb_odd.
  destruct (isSearchTurn c) eqn:Hturn.
  - rewrite (Hs eq_refl). destruct (Nat.odd (length rest)); reflexivity.
  - destruct (Hf eq_refl) as [-> _]. rewrite Hr.
    destruct (Nat.odd (length rest)); reflexivity.
Qed.

Lemma engagement_modes_alternate_witness :
  isSearchTurn (fst (rounds [ {| search := sampleSearch "202";
                                 followed := sampleFollowed (Resolved ()) |};
                              {| search := sampleSearch "202";
                                 followed := sampleFollowed (Resolved ()) |};
                              {| search := sampleSearch "202";
                                 followed := sampleFollowed (Resolved ()) |} ]
                       (Some "agent") newClient)) = true.
Proof.
  refine (engagement_modes_alternate _ (Some "agent") newClient _).
  repeat (constructor; [reflexivity |]). constructor.
Defined.

(** X24. What the record of answered tweets holds. Along any rounds of the
    loop the record only grows, and every id added is the id of a tweet
    that [sendTweet] was called for in one of these rounds. *)
Theorem responded_record_is_sound
    (rs : list Round) (bot : option string) (c : Client) :
  respondedTweets c ⊆ respondedTweets (fst (rounds rs bot c)) /\
  forall i, i ∈ respondedTweets (fst (rounds rs bot c)) ->
    i ∈ respondedTweets c \/
    exists rep, In rep (snd (rounds rs bot c)) /\ id (inReplyTo rep) = i.
Proof.
  revert c. induction rs as [| r rest IH]; intros c; [cbn; auto |].
  cbn [rounds].
  destruct (engage r bot c) as [[c1 reply] o] eqn:He.
  apply engage_spec in He. destruct He as (Hresp & _ & _).
  destruct (IH c1) as [Hsub Hsound].
  destruct (rounds rest bot c1) as [c2 replies]. cbn [fst snd] in *.
  split.
  - destruct Hresp as [Hresp | (rep & _ & Hresp)]; rewrite Hresp in Hsub;
      [exact Hsub |].
    intros x Hx. apply Hsub. apply elem_of_union_r. exact Hx.
  - intros i Hi. destruct (Hsound i Hi) as [Hin | (rep & Hin & Hid)].
    + destruct Hresp as [Hresp | (rep & -> & Hresp)]; rewrite Hresp in Hin.
      * left. exact Hin.
      * apply elem_of_union in Hin as [Hin | Hin]; [| left; exact Hin].
        apply elem_of_singleton in Hin. right. exists rep.
        split; [left; reflexivity | congruence].
    + right. exists rep. split; [| exact Hid].
      apply in_or_app. right. exact Hin.
Qed.

(** X25. The loop delays. With [Math.random()] in [0, 1), the engagement loop
    is re-armed 6 to 8 minutes ahead, and the interaction check 2 to 12
    minutes ahead: beyond 5 minutes as soon as the random number reaches
    4/11. *)
Theorem loop_delay_windows (rnd : Q) :
  PostMore.unitInterval rnd ->
  (6 * 60 * 1000 <= startEngagementLoop_delay rnd <= 8 * 60 * 1000)%Z /\
  (2 * 60 * 1000 <= Interaction.handleTwitterInteractionsLoop_delay rnd
     <= 12 * 60 * 1000)%Z /\
  ((4 # 11 <= rnd)%Q ->
   (5 * 60 * 1000 < Interaction.handleTwitterInteractionsLoop_delay rnd)%Z).
Proof.
  intros [H0 H1].
  unfold startEngagementLoop_delay, Interaction.handleTwitterInteractionsLoop_delay.
  pose proof (randomBelow_range rnd (6 - 4 + 1) eq_refl H0 H1) as Hs.
  pose proof (randomBelow_range rnd (40 - 30 + 1) eq_refl H0 H1) as Hi.
  unfold Post.randomBelow in *.
  split; [lia |]. split; [lia |].
  intros H4.
  assert (4 <= Qfloor (rnd * inject_Z (40 - 30 + 1)))%Z; [| lia].
  change 4%Z with (Qfloor (inject_Z 4)) at 1. apply Qfloor_resp_le.
  change (inject_Z (40 - 30 + 1)) with (inject_Z 11).
  apply Qle_trans with ((4 # 11) * inject_Z 11)%Q; [vm_compute; discriminate |].
  apply Qmult_le_compat_r; [exact H4 | vm_compute; discriminate].
Qed.

Lemma loop_delay_windows_witness :
  (5 * 60 * 1000 < Interaction.handleTwitterInteractionsLoop_delay (1 # 2))%Z.
Proof.
  refine (proj2 (proj2 (loop_delay_windows (1 # 2) _)) _).
  - split; [discriminate | reflexivity].
  - discriminate.
Defined.

End SearchFacts.

(** ** The GENERATE_IMAGE action *)
Section ImageHandlerFacts.
Import JSString ImageGeneration.

Lemma trimEnd_cons a rest :
  trimEnd (String a rest) =
  match trimEnd rest with
  | EmptyString => if isSpace a then EmptyString else String a EmptyString
  | kept => String a kept
  end.
Proof. reflexivity. Qed.

Lemma trimEnd_idempotent s : trimEnd (trimEnd s) = trimEnd s.
Proof.
  induction s as [| a rest IH]; [reflexivity |].
  rewrite (trimEnd_cons a rest). destruct (trimEnd rest) as [| b kept] eqn:Hr.
  - destruct (isSpace a) eqn:Ha; [reflexivity |].
    rewrite trimEnd_cons. cbn [trimEnd]. rewrite Ha. reflexivity.
  - rewrite trimEnd_cons, IH. reflexivity.
Qed.

Lemma trimStart_head s :
  trimStart s = EmptyString \/
  exists a rest, trimStart s = String a rest /\ isSpace a = false.
Proof.
  induction s as [| a rest IH]; [left; reflexivity |].
  cbn [trimStart]. destruct (isSpace a) eqn:Ha; [exact IH |].
  right. eauto.
Qed.

Lemma trimEnd_head a rest :
  isSpace a = false -> exists kept, trimEnd (String a rest) = String a kept.
Proof.
  intros Ha. rewrite trimEnd_cons. destruct (trimEnd rest); rewrite ?Ha; eauto.
Qed.

Lemma trim_idempotent s : trim (trim s) = trim s.
Proof.
  unfold trim. destruct (trimStart_head s) as [-> | (a & rest & -> & Ha)];
    [reflexivity |].
  destruct (trimEnd_head a rest Ha) as [kept Hk]. rewrite Hk.
  cbn [trimStart]. rewrite Ha, <- Hk. apply trimEnd_idempotent.
Qed.

Lemma truthy_nonempty s : truthy s = true <-> s <> EmptyString.
Proof. destruct s; cbn; split; congruence. Qed.

Lemma imageOf_resolved imageResult base64Image :
  imageOf imageResult = Resolved base64Image <->
  success imageResult = true /\
  (exists rest, data imageResult = Some (base64Image :: rest)) /\
  truthy base64Image = true.
Proof.
  unfold imageOf.
  destruct (success imageResult), (data imageResult) as [[| b rest] |];
    try (split; [discriminate | intros (H1 & (r & H2) & H3); discriminate]).
  destruct (truthy b) eqn:Hb; cbn.
  - split.
    + intros [= <-]. eauto.
    + intros (_ & (r & [= <- <-]) & _). reflexivity.
  - split; [discriminate |].
    intros (_ & (r & Hd) & Ht). injection Hd as <- <-. congruence.
Qed.

Lemma handler_success
    (messageText : option string) (generateImage : string -> Outcome ImageResult)
    (text : string) (imageResult : ImageResult) (base64Image : string)
    (rest : list string) :
  messageText = Some text ->
  cleanPrompt text <> EmptyString ->
  generateImage (cleanPrompt text) = Resolved imageResult ->
  success imageResult = true ->
  data imageResult = Some (base64Image :: rest) ->
  base64Image <> EmptyString ->
  handler messageText generateImage =
    ({| h_success := true; h_text := "Here's your generated image:";
        h_attachment := Some base64Image |}, Some (cleanPrompt text)).
Proof.
  intros -> Hp Hg Hs Hd Hb. unfold handler.
  assert (Ht : truthy text = true).
  { destruct text; [| reflexivity]. exfalso. apply Hp. reflexivity. }
  rewrite Ht. cbn [negb].
  rewrite (proj2 (truthy_nonempty (cleanPrompt text)) Hp). cbn [negb].
  rewrite Hg. cbn.
  rewrite (proj2 (imageOf_resolved imageResult base64Image)); [reflexivity |].
  split; [exact Hs |]. split; [eauto |]. apply truthy_nonempty. exact Hb.
Qed.

(** X26. When the action succeeds. The handler answers with success exactly
    when the message has a text that is not blank once mentions are
    removed, and [generateImage], asked with that cleaned text, resolves
    with its success flag set and a first image that is not empty; the
    answer then has the text "Here's your generated image:" and carries
    that image. *)
Theorem image_handler_succeeds_iff
    (messageText : option string) (generateImage : string -> Outcome ImageResult) :
  (h_success (fst (handler messageText generateImage)) = true <->
   exists text imageResult base64Image rest,
     messageText = Some text /\
     cleanPrompt text <> EmptyString /\
     generateImage (cleanPrompt text) = Resolved imageResult /\
     success imageResult = true /\
     data imageResult = Some (base64Image :: rest) /\
     base64Image <> EmptyString) /\
  (forall text imageResult base64Image rest,
     messageText = Some text ->
     cleanPrompt text <> EmptyString ->
     generateImage (cleanPrompt text) = Resolved imageResult ->
     success imageResult = true ->
     data imageResult = Some (base64Image :: rest) ->
     base64Image <> EmptyString ->
     handler messageText generateImage =
       ({| h_success := true; h_text := "Here's your generated image:";
           h_attachment := Some base64Image |}, Some (cleanPrompt text))).
Proof.
  split; [| intros; eapply handler_success; eassumption].
  split.
  - unfold handler. destruct messageText as [text |]; [| discriminate].
    destruct (truthy text); cbn [negb]; [| discriminate].
    destruct (truthy (cleanPrompt text)) eqn:Hp; cbn [negb]; [| discriminate].
    destruct (generateImage (cleanPrompt text)) as [imageResult | m] eqn:Hg;
      cbn; [| discriminate].
    destruct (imageOf imageResult) as [b | m] eqn:Hi; cbn; [| discriminate].
    intros _. apply imageOf_resolved in Hi as (Hs & (rest & Hd) & Hb).
    exists text, imageResult, b, rest.
    apply truthy_nonempty in Hp, Hb. repeat split; assumption.
  - intros (text & imageResult & b & rest & Hm & Hp & Hg & Hs & Hd & Hb).
    rewrite (handler_success _ _ _ _ _ _ Hm Hp Hg Hs Hd Hb). reflexivity.
Qed.

(** X27. What [generateImage] is asked. Whatever the message, the prompt the
    handler passes to [generateImage] is not empty and has no white space
    at either end. *)
Theorem image_prompt_is_trimmed_and_not_blank
    (messageText : option string) (generateImage : string -> Outcome ImageResult)
    (prompt : string) :
  snd (handler messageText generateImage) = Some prompt ->
  prompt <> EmptyString /\ trim prompt = prompt /\
  exists text, messageText = Some text /\ prompt = cleanPrompt text.
Proof.
  unfold handler. destruct messageText as [text |]; [| discriminate].
  destruct (truthy text); cbn [negb]; [| discriminate].
  destruct (truthy (cleanPrompt text)) eqn:Hp; cbn [negb]; [| discriminate].
  intros H.
  assert (prompt = cleanPrompt text) as ->.
  { destruct (generateImage (cleanPrompt text) ≫= imageOf); cbn in H; congruence. }
  apply truthy_nonempty in Hp.
  split; [exact Hp |]. split; [apply trim_idempotent | eauto].
Qed.

Lemma image_prompt_is_trimmed_and_not_blank_witness :
  trim "a cat" = "a cat".
Proof.
  exact (proj1 (proj2 (image_prompt_is_trimmed_and_not_blank
                         (Some "<@123> a cat ") draws "a cat" eq_refl))).
Defined.

Lemma digitsClosed_digits ds rest :
  Forall (fun a => isDigit a = true) (list_ascii_of_string ds) ->
  digitsClosed (ds +:+ String ">" rest) = Some (S (String.length ds)).
Proof.
  induction ds as [| a ds IH]; intros Hd; [reflexivity |].
  cbn in Hd. apply Forall_cons in Hd as [Ha Hd].
  change (String a ds +:+ String ">" rest) with (String a (ds +:+ String ">" rest)).
  cbn [digitsClosed]. rewrite Ha, (IH Hd). reflexivity.
Qed.

Lemma removeMentionsFrom_skip ds rest :
  removeMentionsFrom (S (String.length ds)) (ds +:+ String ">" rest)
    = removeMentionsFrom 0 rest.
Proof.
  induction ds as [| a ds IH]; [reflexivity |].
  change (String a ds +:+ String ">" rest) with (String a (ds +:+ String ">" rest)).
  cbn [removeMentionsFrom String.length]. exact IH.
Qed.

(** X28. Mentions do not reach the prompt. A text that begins with a Discord
    mention, [<@] followed by one or more digits and [>], gives the prompt
    of what follows the mention. *)
Theorem leading_mention_is_removed (d : ascii) (ds rest : string) :
  isDigit d = true ->
  Forall (fun a => isDigit a = true) (list_ascii_of_string ds) ->
  cleanPrompt ("<@" +:+ String d ds +:+ String ">" rest) = cleanPrompt rest.
Proof.
  intros Hd Hds. unfold cleanPrompt. f_equal.
  change ("<@" +:+ String d ds +:+ String ">" rest)
    with (String "<" (String "@" (String d (ds +:+ String ">" rest)))).
  cbn [removeMentionsFrom mentionAt]. rewrite Hd, (digitsClosed_digits ds rest Hds).
  cbn [option_map Nat.add Nat.sub removeMentionsFrom].
  apply removeMentionsFrom_skip.
Qed.

Lemma leading_mention_is_removed_witness :
  cleanPrompt "<@123> a cat " = "a cat".
Proof.
  refine (eq_trans (leading_mention_is_removed "1" "23" " a cat " eq_refl _) eq_refl).
  constructor; [reflexivity |]. constructor; [reflexivity |]. constructor.
Defined.

End ImageHandlerFacts.

(** ** index.ts: the interaction check and its cursor *)
Section InteractionLoopFacts.
Import Interaction InteractionLoop.

Variable parseInt : string -> Num.

Lemma test_bound (c : Candidate) (cursor : option Num) :
  numericId parseInt c = true ->
  falsy cursor || gt (parseInt (id (tweet c))) cursor
    = (bound cursor <? num parseInt c)%Z.
Proof.
  unfold numericId, num, falsy, gt, bound.
  destruct (parseInt (id (tweet c))) as [| n]; [discriminate |].
  intros Hn. apply Z.ltb_lt in Hn.
  destruct cursor as [[| z] |]; cbn.
  - symmetry. apply Z.ltb_lt. exact Hn.
  - destruct (Z.eqb_spec z 0) as [-> | Hz]; [| reflexivity].
    cbn. symmetry. apply Z.ltb_lt. exact Hn.
  - symmetry. apply Z.ltb_lt. exact Hn.
Qed.

Lemma bound_parsed (c : Candidate) :
  bound (Some (parseInt (id (tweet c)))) = num parseInt c.
Proof. unfold bound, num. destruct (parseInt _); reflexivity. Qed.

Lemma last_cons (x : Z) (l : list Z) (d : Z) :
  List.last (x :: l) d = List.last l x.
Proof.
  revert x d. induction l as [| y l IH]; intros x d; [reflexivity |].
  change (List.last (x :: y :: l) d) with (List.last (y :: l) d).
  rewrite (IH y d), (IH y x). reflexivity.
Qed.

Lemma forEach_spec handle tweets cursor cursor' handled o :
  Forall (fun c => numericId parseInt c = true) tweets ->
  forEach parseInt handle tweets cursor = (cursor', handled, o) ->
  StronglySorted Z.lt (bound cursor :: map (num parseInt) handled) /\
  bound cursor' = List.last (map (num parseInt) handled) (bound cursor) /\
  (handled = [] -> cursor' = cursor) /\
  incl handled tweets.
Proof.
  intros Hall. revert cursor cursor' handled o.
  induction Hall as [| c rest Hc _ IH]; intros cursor cursor' handled o; cbn [forEach].
  { intros [= <- <- <-]. repeat split; [repeat constructor | apply incl_refl]. }
  rewrite (test_bound c cursor Hc).
  destruct (Z.ltb_spec (bound cursor) (num parseInt c)) as [Hlt | Hge].
  - destruct (handle c) as [[] | m].
    + destruct (forEach parseInt handle rest _) as [[cur1 hs1] o1] eqn:Hrest.
      intros [= <- <- <-]. apply IH in Hrest.
      destruct Hrest as (Hs & Hb & _ & Hincl). rewrite bound_parsed in Hs, Hb.
      split; [| split; [| split]].
      * cbn [map]. constructor; [exact Hs |].
        constructor; [exact Hlt |].
        apply StronglySorted_inv in Hs as [_ Hs].
        eapply List.Forall_impl; [| exact Hs]. cbn. intros; lia.
      * rewrite Hb. cbn [map]. symmetry. apply last_cons.
      * discriminate.
      * apply incl_cons; [left; reflexivity | apply incl_tl; exact Hincl].
    + intros [= <- <- <-]. repeat split; [repeat constructor | apply incl_nil_l].
  - intros Hrest. apply IH in Hrest. destruct Hrest as (Hs & Hb & He & Hincl).
    repeat split; try assumption. apply incl_tl. exact Hincl.
Qed.

(** X29. The cursor orders the work of a check. In one interaction check,
    run without another check writing the cursor meanwhile, with ids that
    parse to positive integers, the tweets whose handling completed have
    strictly increasing ids, all above the cursor the check started with,
    and the cursor ends at the id of the last one handled (where it was, if
    none was): also when the search or a handler rejects and ends the
    check. Each of them passed the filter: it is in a thread the agent
    opened, mentions the agent, or answers a tweet of the agent. *)
Theorem handled_ids_strictly_increase
    (handle : Candidate -> Outcome unit) (cands : Outcome (list Candidate))
    (bot : string) (cursor : option Num) :
  Forall (fun c => numericId parseInt c = true)
    (match cands with Resolved sorted => sorted | Rejected _ => [] end) ->
  StronglySorted Z.lt
    (bound cursor
       :: map (num parseInt)
            (snd (handleTwitterInteractions parseInt handle cands bot cursor))) /\
  bound (fst (handleTwitterInteractions parseInt handle cands bot cursor))
    = List.last
        (map (num parseInt)
           (snd (handleTwitterInteractions parseInt handle cands bot cursor)))
        (bound cursor) /\
  (snd (handleTwitterInteractions parseInt handle cands bot cursor) = [] ->
     fst (handleTwitterInteractions parseInt handle cands bot cursor) = cursor) /\
  Forall (fun c => keep bot c = true)
    (snd (handleTwitterInteractions parseInt handle cands bot cursor)).
Proof.
  unfold handleTwitterInteractions. destruct cands as [sorted | m].
  - intros Hall.
    destruct (forEach parseInt handle _ cursor) as [[cur1 hs1] o1] eqn:Hrun.
    cbn [fst snd]. apply forEach_spec in Hrun.
    + destruct Hrun as (Hs & Hb & He & Hincl). repeat split; try assumption.
      apply List.Forall_forall. intros c Hin. apply Hincl in Hin.
      apply List.filter_In in Hin. apply Hin.
    + apply List.Forall_forall. intros c Hin. apply List.filter_In in Hin.
      destruct Hin as [Hin _]. exact (proj1 (List.Forall_forall _ _) Hall c Hin).
  - intros _. cbn. repeat split; repeat constructor.
Qed.

Lemma filter_above (lo n : Z) (l : list Candidate) :
  (lo < n)%Z -> Forall (fun c => (n < num parseInt c)%Z) l ->
  List.filter (fun c => (n <? num parseInt c)%Z) l
    = List.filter (fun c => (lo <? num parseInt c)%Z) l.
Proof.
  intros Hlo Hall. apply List.filter_ext_in. intros c Hin.
  pose proof (proj1 (List.Forall_forall _ _) Hall c Hin) as Hc. cbn in Hc.
  transitivity true; [| symmetry]; apply Z.ltb_lt; lia.
Qed.

Lemma forEach_sorted handle tweets cursor :
  Forall (fun c => numericId parseInt c = true) tweets ->
  StronglySorted Z.lt (map (num parseInt) tweets) ->
  (forall c, In c tweets -> handle c = Resolved ()) ->
  snd (fst (forEach parseInt handle tweets cursor))
    = List.filter (fun c => (bound cursor <? num parseInt c)%Z) tweets /\
  snd (forEach parseInt handle tweets cursor) = Resolved ().
Proof.
  intros Hall. revert cursor.
  induction Hall as [| c rest Hc _ IH]; intros cursor Hsorted Hok; [cbn; auto |].
  cbn [map] in Hsorted. apply StronglySorted_inv in Hsorted as [Hsorted Hc_lt].
  cbn [forEach List.filter]. rewrite (test_bound c cursor Hc).
  destruct (Z.ltb_spec (bound cursor) (num parseInt c)) as [Hlt | Hge].
  - rewrite (Hok c (or_introl eq_refl)).
    destruct (IH (Some (parseInt (id (tweet c)))) Hsorted
                (fun c' Hin => Hok c' (or_intror Hin))) as [Hh Ho].
    destruct (forEach parseInt handle rest _) as [[cur1 hs1] o1].
    cbn [fst snd] in *. split; [| exact Ho].
    rewrite Hh, bound_parsed. f_equal. apply filter_above; [exact Hlt |].
    apply List.Forall_forall. intros c' Hin.
    apply (proj1 (List.Forall_forall _ _) Hc_lt).
    apply in_map. exact Hin.
  - exact (IH cursor Hsorted (fun c' Hin => Hok c' (or_intror Hin))).
Qed.

Lemma sorted_filter (f : Candidate -> bool) (l : list Candidate) :
  StronglySorted Z.lt (map (num parseInt) l) ->
  StronglySorted Z.lt (map (num parseInt) (List.filter f l)).
Proof.
  induction l as [| c l IH]; cbn [map List.filter]; [auto |].
  intros Hs. apply StronglySorted_inv in Hs as [Hs Hc].
  destruct (f c); [| exact (IH Hs)].
  cbn [map]. constructor; [exact (IH Hs) |].
  apply List.Forall_forall. intros z Hin.
  apply in_map_iff in Hin as (c' & <- & Hin). apply List.filter_In in Hin as [Hin _].
  apply (proj1 (List.Forall_forall _ _) Hc). apply in_map. exact Hin.
Qed.

(** X30. Nothing is missed when the ids come in numeric order. When the
    candidates are in strictly increasing numeric order of their ids (the
    order the sort gives for ids of equal length) and every handling
    completes, the check handles exactly the candidates that pass the
    filter and lie above the cursor, in that order. *)
Theorem sorted_candidates_are_all_handled
    (handle : Candidate -> Outcome unit) (sorted : list Candidate)
    (bot : string) (cursor : option Num) :
  Forall (fun c => numericId parseInt c = true) sorted ->
  StronglySorted Z.lt (map (num parseInt) sorted) ->
  (forall c, In c sorted -> handle c = Resolved ()) ->
  snd (handleTwitterInteractions parseInt handle (Resolved sorted) bot cursor)
    = List.filter (fun c => keep bot c && (bound cursor <? num parseInt c)%Z) sorted.
Proof.
  intros Hall Hsorted Hok. unfold handleTwitterInteractions.
  destruct (forEach_sorted handle (List.filter (keep bot) sorted) cursor) as [Hh _].
  - apply List.Forall_forall. intros c Hin. apply List.filter_In in Hin as [Hin _].
    exact (proj1 (List.Forall_forall _ _) Hall c Hin).
  - apply sorted_filter. exact Hsorted.
  - intros c Hin. apply List.filter_In in Hin as [Hin _]. exact (Hok c Hin).
  - destruct (forEach parseInt handle _ cursor) as [[cur1 hs1] o1].
    cbn [fst snd] in *. rewrite Hh. clear.
    induction sorted as [| c l IH]; [reflexivity |].
    cbn [List.filter]. destruct (keep bot c); cbn [andb List.filter]; rewrite IH;
      reflexivity.
Qed.

End InteractionLoopFacts.

(** From cursor 3, with candidates 3, 5, 7 and a handler that fails at 7:
    only 5 is handled to the end, and the cursor stops at 5. *)
Lemma handled_ids_strictly_increase_witness :
  InteractionLoop.bound
    (fst (InteractionLoop.handleTwitterInteractions InteractionLoop.digit
            InteractionLoop.failsAt7
            (Resolved (map InteractionLoop.mention ["3"; "5"; "7"])) "agent"
            (Some (InteractionLoop.Int 3)))) = 5%Z.
Proof.
  refine (eq_trans (proj1 (proj2 (handled_ids_strictly_increase InteractionLoop.digit
            InteractionLoop.failsAt7
            (Resolved (map InteractionLoop.mention ["3"; "5"; "7"])) "agent"
            (Some (InteractionLoop.Int 3)) _))) eq_refl).
  repeat (constructor; [reflexivity |]). constructor.
Defined.

Lemma sorted_candidates_are_all_handled_witness :
  snd (InteractionLoop.handleTwitterInteractions InteractionLoop.digit (fun _ => Resolved ())
         (Resolved (map InteractionLoop.mention ["3"; "5"; "7"])) "agent"
         (Some (InteractionLoop.Int 3)))
    = [InteractionLoop.mention "5"; InteractionLoop.mention "7"].
Proof.
  refine (eq_trans (sorted_candidates_are_all_handled InteractionLoop.digit
            (fun _ => Resolved ()) (map InteractionLoop.mention ["3"; "5"; "7"])
            "agent" (Some (InteractionLoop.Int 3)) _ _ _) eq_refl).
  - repeat (constructor; [reflexivity |]). constructor.
  - cbn. repeat (constructor; [| repeat (constructor; [reflexivity |]); constructor]).
    constructor.
  - intros c _. reflexivity.
Defined.
